(** * The ingestion pipeline of ai-agent-rag: docx_loader.py and load_data.py

    A shallow embedding of the DOCX extractor ([table_to_markdown],
    [extract_docx_table], [extract_content_from_docx]) and of the indexing
    script ([clean_metadata], [load_document], [split_text],
    [calculate_chunk_ids], [save_to_chroma], [clear_database], [main]),
    followed by the properties of the specification that concern them and
    by further properties of the code.

    Layout: [Py] holds the fragment of Python the two files rely on (dynamic
    values, exceptions, [str], [int], truthiness, comparison, [sorted]);
    [DocxLoader] and [LoadData] follow the two source files function by
    function; [Props] holds the vocabulary the properties are stated in.
    Then come the proofs of the claims: [StringFacts], [Extractor] (C5, C6,
    C8, C10), [Normalizer] (C7), [IdAssigner] (C1, C3, C4), [SortFacts],
    [KeyOrder], [SourceOrder] and [StoreWriter] (C2, C9). The further
    properties follow, with their vocabulary in [MoreProps]:
    [NormalizerMore] and [StorePrep] on the metadata, [StoreWriterMore] on
    [save_to_chroma], [IdAssignerMore] on [calculate_chunk_ids],
    [ExtractorMore] on the walk over a document, [LoaderMore] on
    [load_document] and [MainProps] on [main]. *)

From Stdlib Require Import ZArith Lia Bool Ascii String.
From Stdlib Require Import DecimalString DecimalZ DecimalPos SpecFloat Permutation Sorted.
From Stdlib Require OrderedTypeEx.
From stdpp Require Import gmap strings list fin_maps.

Local Open Scope Z_scope.

(** Membership in a list written with [++] and [::]. *)
Ltac member :=
  repeat (rewrite elem_of_app || rewrite elem_of_cons); tauto.

(* ===================================================================== *)
(** ** Python values, exceptions and built-ins *)
(* ===================================================================== *)

Module Py.

(** The exceptions the modelled code can meet. [OtherError] stands for any
    other exception (of python-docx, of a [__str__] method), with its
    message. *)
Inductive exn : Set :=
| KeyError
| ValueError
| TypeError
| OverflowError
| RecursionError
| OtherError (msg : string).

(** A computation that returns a value or raises. *)
Inductive result (A : Type) : Type :=
| Ok (a : A)
| Raise (e : exn).
Arguments Ok {A} a.
Arguments Raise {A} e.

#[global] Instance result_ret : MRet result := fun _ a => Ok a.
#[global] Instance result_bind : MBind result := fun _ _ f c =>
  match c with
  | Ok a => f a
  | Raise e => Raise e
  end.

Definition is_ok {A} (c : result A) : bool :=
  match c with Ok _ => true | Raise _ => false end.

(** [for x in l: ...] over a body that may raise, collecting the results. *)
Fixpoint for_each {A B} (f : A → result B) (l : list A) : result (list B) :=
  match l with
  | [] => Ok []
  | x :: l' => y ← f x; ys ← for_each f l'; Ok (y :: ys)
  end.

(** [for x in l: ...] over a body that updates the loop's variables. *)
Fixpoint for_fold {A S} (f : S → A → result S) (s : S) (l : list A) : result S :=
  match l with
  | [] => Ok s
  | x :: l' => s' ← f s x; for_fold f s' l'
  end.

(** [[x for x in l if test(x)]] with a test that may raise. *)
Fixpoint filter_each {A} (test : A → result bool) (l : list A) : result (list A) :=
  match l with
  | [] => Ok []
  | x :: l' =>
      keep ← test x; rest ← filter_each test l';
      Ok (if keep : bool then x :: rest else rest)
  end.

(** A dynamically typed value. The five types [clean_metadata] calls simple
    each have a constructor. A float is its IEEE-754 value together with the
    text [str] prints for it (the shortest-round-trip printer is not
    modelled). [PObj] is a value of any other type (list, dict, tuple, ...)
    for which [str] returns, given by what [str] and [bool] return for
    it. *)
Inductive pyval : Type :=
| PNone
| PBool (b : bool)
| PInt (z : Z)
| PFloat (f : spec_float) (text : string)
| PStr (s : string)
| PObj (text : string) (truth : bool).

(** [isinstance(v, (str, int, float, bool, type(None)))] *)
Definition is_simple (v : pyval) : bool :=
  match v with
  | PNone | PBool _ | PInt _ | PFloat _ _ | PStr _ => true
  | PObj _ _ => false
  end.

(** [isinstance(v, (str, bool, int, float))] *)
Definition is_scalar (v : pyval) : bool :=
  match v with
  | PBool _ | PInt _ | PFloat _ _ | PStr _ => true
  | PNone | PObj _ _ => false
  end.

Definition is_none (v : pyval) : bool :=
  match v with PNone => true | _ => false end.

(** Decimal text of an integer, as [str] and f-strings print it. *)
Definition str_int (z : Z) : string := NilZero.string_of_int (Z.to_int z).

(** [str(v)], which is also what [f"{v}"] inserts. *)
Definition str (v : pyval) : string :=
  match v with
  | PNone => "None"
  | PBool true => "True"
  | PBool false => "False"
  | PInt z => str_int z
  | PFloat _ text => text
  | PStr s => s
  | PObj text _ => text
  end.

(** Truth value: [bool(v)], and the test of [if v] and [x if v else y]. *)
Definition truthy (v : pyval) : bool :=
  match v with
  | PNone => false
  | PBool b => b
  | PInt z => negb (z =? 0)
  | PFloat (S754_zero _) _ => false
  | PFloat _ _ => true
  | PStr s => negb (s =? "")%string
  | PObj _ truth => truth
  end.

(** What a dictionary may hold under a key: a value as above, for which
    [str] returns, or an object for which [str] raises (a list nested
    deeper than the recursion limit, an instance whose [__str__] raises).
    Such an object is of none of the simple types, and it is not [None]. *)
Inductive pyobject : Type :=
| Printable (value : pyval)
| Unprintable (raised : exn).

(** *** Strings *)

Definition nl : string := String "010" "".

(** [sep.join(parts)] *)
Definition join (sep : string) (parts : list string) : string :=
  String.concat sep parts.

Fixpoint string_rev (s : string) : string :=
  match s with
  | "" => ""
  | String c s' => string_rev s' +:+ String c ""
  end.

(** The string of the given bytes. *)
Definition bytes (codes : list Z) : string :=
  fold_right (fun code s => String (ascii_of_nat (Z.to_nat code)) s) "" codes.

(** A Python string is a sequence of characters; here it is the sequence
    of bytes of its UTF-8 encoding. These are the characters for which
    [str.isspace] holds, each in UTF-8: U+0009 to U+000D, U+001C to U+0020,
    U+0085, U+00A0, U+1680, U+2000 to U+200A, U+2028, U+2029, U+202F,
    U+205F and U+3000. *)
Definition whitespace : list string :=
  map bytes
    [ [9]; [10]; [11]; [12]; [13]; [28]; [29]; [30]; [31]; [32];
      [194; 133]; [194; 160]; [225; 154; 128];
      [226; 128; 128]; [226; 128; 129]; [226; 128; 130]; [226; 128; 131];
      [226; 128; 132]; [226; 128; 133]; [226; 128; 134]; [226; 128; 135];
      [226; 128; 136]; [226; 128; 137]; [226; 128; 138];
      [226; 128; 168]; [226; 128; 169]; [226; 128; 175];
      [226; 129; 159]; [227; 128; 128] ].

(** The number of bytes of the character of [spaces] that [s] begins with;
    0 when it begins with none. *)
Definition space_width (spaces : list string) (s : string) : nat :=
  match List.find (fun space => String.prefix space s) spaces with
  | Some space => String.length space
  | None => 0%nat
  end.

(** [s] without the characters of [spaces] it begins with. [skip] is the
    number of bytes still to drop of the character being dropped. *)
Fixpoint lstrip_from (spaces : list string) (s : string) (skip : nat) : string :=
  match s with
  | "" => ""
  | String _ s' =>
      match skip with
      | S skip' => lstrip_from spaces s' skip'
      | O =>
          match space_width spaces s with
          | S skip' => lstrip_from spaces s' skip'
          | O => s
          end
      end
  end.

(** [s.lstrip()] and [s.rstrip()]; the latter reads the bytes from the
    end. *)
Definition lstrip (s : string) : string := lstrip_from whitespace s 0.
Definition rstrip (s : string) : string :=
  string_rev (lstrip_from (map string_rev whitespace) (string_rev s) 0).

(** [s.strip()] *)
Definition strip (s : string) : string := rstrip (lstrip s).

Definition lower_ascii (c : ascii) : ascii :=
  let n := nat_of_ascii c in
  if ((65 <=? n)%nat && (n <=? 90)%nat)%bool then ascii_of_nat (n + 32) else c.

(** [s.lower()] on the ASCII letters, which is all that the test
    [f.lower().endswith(".docx")] depends on: no character outside ASCII
    lowers to one of the characters of ".docx". *)
Fixpoint lower (s : string) : string :=
  match s with
  | "" => ""
  | String c s' => String (lower_ascii c) (lower s')
  end.

(** [s.startswith(p)] *)
Definition startswith (s p : string) : bool := String.prefix p s.

(** [s.endswith(p)] *)
Definition endswith (s p : string) : bool :=
  String.prefix (string_rev p) (string_rev s).

(** [os.path.basename]: what follows the last slash. *)
Fixpoint basename_from (s acc : string) : string :=
  match s with
  | "" => acc
  | String c s' =>
      if Ascii.eqb c "/" then basename_from s' "" else basename_from s' (acc +:+ String c "")
  end.
Definition basename (path : string) : string := basename_from path "".

(** [os.path.join(dir, name)] for a relative [name]. *)
Definition path_join (dir name : string) : string :=
  if (dir =? "")%string then name
  else if endswith dir "/" then dir +:+ name
  else dir +:+ "/" +:+ name.

(** *** Numbers *)

(** The value of an ASCII digit. *)
Definition digit_of (c : ascii) : option Z :=
  let n := nat_of_ascii c in
  if ((48 <=? n)%nat && (n <=? 57)%nat)%bool then Some (Z.of_nat (n - 48)) else None.

(** The characters of a string: its UTF-8 bytes decoded; [None] when they
    are not the encoding of a string. [more] is the number of bytes still
    to come of the character being read, [cp] what has been read of it and
    [least] the smallest character its number of bytes may encode. *)
Fixpoint code_points (s : string) (more : nat) (cp least : Z) : option (list Z) :=
  match s with
  | "" => match more with O => Some [] | S _ => None end
  | String b s' =>
      let n := Z.of_nat (nat_of_ascii b) in
      match more with
      | S more' =>
          if (128 <=? n) && (n <=? 191) then
            let cp := cp * 64 + (n - 128) in
            match more' with
            | S _ => code_points s' more' cp least
            | O =>
                if (least <=? cp) && (cp <=? 1114111)
                   && negb ((55296 <=? cp) && (cp <=? 57343))
                then cons cp <$> code_points s' 0 0 0
                else None
            end
          else None
      | O =>
          if n <? 128 then cons n <$> code_points s' 0 0 0
          else if (194 <=? n) && (n <=? 223) then code_points s' 1 (n - 192) 128
          else if (224 <=? n) && (n <=? 239) then code_points s' 2 (n - 224) 2048
          else if (240 <=? n) && (n <=? 244) then code_points s' 3 (n - 240) 65536
          else None
      end
  end.

(** The characters of value 0 of the decimal digits of Unicode 14.0, the
    table of Python 3.11: the digits of a script are ten consecutive
    characters. *)
Definition decimal_zeros : list Z :=
  [ 48; 1632; 1776; 1984; 2406; 2534; 2662; 2790; 2918; 3046; 3174; 3302; 3430;
    3558; 3664; 3792; 3872; 4160; 4240; 6112; 6160; 6470; 6608; 6784; 6800; 6992;
    7088; 7232; 7248; 42528; 43216; 43264; 43472; 43504; 43600; 44016; 65296;
    66720; 68912; 69734; 69872; 69942; 70096; 70384; 70736; 70864; 71248; 71360;
    71472; 71904; 72016; 72784; 73040; 73120; 92768; 92864; 93008; 120782; 120792;
    120802; 120812; 120822; 123200; 123632; 125264; 130032 ].

(** The value of a decimal digit. *)
Definition decimal_of (cp : Z) : option Z :=
  match List.find (fun zero => (zero <=? cp) && (cp <? zero + 10)) decimal_zeros with
  | Some zero => Some (cp - zero)
  | None => None
  end.

(** The characters outside ASCII for which [str.isspace] holds. *)
Definition unicode_spaces : list Z :=
  [ 133; 160; 5760; 8192; 8193; 8194; 8195; 8196; 8197; 8198; 8199; 8200; 8201;
    8202; 8232; 8233; 8239; 8287; 12288 ].

(** What a character is to [int]: a digit, white space, a sign, an
    underscore, or none of these. Of ASCII, [int] takes tab to carriage
    return and the space as white space (not U+001C to U+001F); outside
    ASCII it takes every white space character and every decimal digit. *)
Inductive int_char : Set :=
| IDigit (d : Z)
| ISpace
| ISign (negative : bool)
| IUnderscore
| IOther.

Definition int_char_of (cp : Z) : int_char :=
  if cp <? 127 then
    if (48 <=? cp) && (cp <=? 57) then IDigit (cp - 48)
    else if ((9 <=? cp) && (cp <=? 13)) || (cp =? 32) then ISpace
    else if cp =? 43 then ISign false
    else if cp =? 45 then ISign true
    else if cp =? 95 then IUnderscore
    else IOther
  else if existsb (Z.eqb cp) unicode_spaces then ISpace
  else match decimal_of cp with
       | Some d => IDigit d
       | None => IOther
       end.

Fixpoint skip_spaces (chars : list int_char) : list int_char :=
  match chars with
  | ISpace :: chars' => skip_spaces chars'
  | _ => chars
  end.

(** Digits of an integer literal, single underscores allowed between
    them, then white space to the end. [acc] is the value read so far,
    [count] the number of digits read and [after_digit] whether the
    previous character was a digit. *)
Fixpoint parse_digits (chars : list int_char) (acc : Z) (count : nat)
    (after_digit : bool) : option (Z * nat) :=
  match chars with
  | [] => if after_digit then Some (acc, count) else None
  | IDigit d :: chars' => parse_digits chars' (10 * acc + d) (S count) true
  | IUnderscore :: chars' =>
      if after_digit then parse_digits chars' acc count false else None
  | ISpace :: chars' =>
      if after_digit then
        match skip_spaces chars' with
        | [] => Some (acc, count)
        | _ :: _ => None
        end
      else None
  | _ => None
  end.

(** [sys.int_info.default_max_str_digits]: [int] refuses a string of more
    digits. *)
Definition max_str_digits : nat := 4300.

(** [int(s)] for a string: white space around, an optional sign, digits. *)
Definition int_of_str (s : string) : result Z :=
  match code_points s 0 0 0 with
  | None => Raise ValueError
  | Some cps =>
      let body := skip_spaces (map int_char_of cps) in
      let '(negative, digits) :=
        match body with
        | ISign negative :: rest => (negative, rest)
        | _ => (false, body)
        end in
      match parse_digits digits 0 0 false with
      | Some (n, count) =>
          if (count <=? max_str_digits)%nat then Ok (if negative then - n else n)
          else Raise ValueError
      | None => Raise ValueError
      end
  end.

(** [int(f)] for a float: truncation towards zero. *)
Definition int_of_float (f : spec_float) : result Z :=
  match f with
  | S754_zero _ => Ok 0
  | S754_infinity _ => Raise OverflowError
  | S754_nan => Raise ValueError
  | S754_finite s m e =>
      let mag := if 0 <=? e then Z.pos m * 2 ^ e else Z.pos m / 2 ^ (- e) in
      Ok (if s then - mag else mag)
  end.

(** [int(v)] *)
Definition int (v : pyval) : result Z :=
  match v with
  | PNone => Raise TypeError
  | PBool b => Ok (if b then 1 else 0)
  | PInt z => Ok z
  | PFloat f _ => int_of_float f
  | PStr s => int_of_str s
  | PObj _ _ => Raise TypeError
  end.

(** A number as a comparison sees it: not-a-number, an infinity, or the
    dyadic rational [m * 2^e]. *)
Inductive num : Set :=
| NNan
| NInf (negative : bool)
| NFin (m e : Z).

Definition num_of (v : pyval) : option num :=
  match v with
  | PBool b => Some (NFin (if b then 1 else 0) 0)
  | PInt z => Some (NFin z 0)
  | PFloat (S754_zero _) _ => Some (NFin 0 0)
  | PFloat (S754_infinity s) _ => Some (NInf s)
  | PFloat S754_nan _ => Some NNan
  | PFloat (S754_finite s m e) _ => Some (NFin (if s then Z.neg m else Z.pos m) e)
  | _ => None
  end.

(** Exact comparison of two numbers; [None] when one is not-a-number. *)
Definition num_compare (a b : num) : option comparison :=
  match a, b with
  | NNan, _ | _, NNan => None
  | NInf s1, NInf s2 =>
      Some (if s1 then (if s2 then Eq else Lt) else (if s2 then Gt else Eq))
  | NInf s, NFin _ _ => Some (if s then Lt else Gt)
  | NFin _ _, NInf s => Some (if s then Gt else Lt)
  | NFin m1 e1, NFin m2 e2 =>
      let e := Z.min e1 e2 in
      Some (m1 * 2 ^ (e1 - e) ?= m2 * 2 ^ (e2 - e))
  end.

(** [a == b]. It never raises; values of unrelated types are unequal. Two
    [PObj] are compared by their text, which is all the model knows of
    them. *)
Definition equal (a b : pyval) : bool :=
  match a, b with
  | PNone, PNone => true
  | PStr s1, PStr s2 => (s1 =? s2)%string
  | PObj t1 _, PObj t2 _ => (t1 =? t2)%string
  | _, _ =>
      match num_of a, num_of b with
      | Some x, Some y =>
          match num_compare x y with Some Eq => true | _ => false end
      | _, _ => false
      end
  end.

(** [a < b]: strings by code point, numbers by value, [TypeError] for any
    other pair of types. *)
Definition less (a b : pyval) : result bool :=
  match a, b with
  | PStr s1, PStr s2 => Ok (String.ltb s1 s2)
  | _, _ =>
      match num_of a, num_of b with
      | Some x, Some y =>
          Ok (match num_compare x y with Some Lt => true | _ => false end)
      | _, _ => Raise TypeError
      end
  end.

(** *** [sorted(l, key=...)]

    Python's sort is stable and only asks [<] of the keys. [insert_by] puts
    an element before the first one of the already sorted rest that is not
    smaller than it; [sort_by] is the stable insertion sort this gives.
    [sorted_by] computes every key first, as Python does, and raises when a
    key cannot be computed or when two keys of the list cannot be compared
    (types that [<] does not relate are never related through a third, so
    every sorting algorithm meets such a pair). Where [<] is a strict weak
    order on the keys, the stable arrangement is unique and [sort_by] is
    it; a not-a-number among the sources breaks that, and [sort_by] is
    then one arrangement Python may return. *)
Section Sorted.
Context {A K : Type}.
Variable key_lt : K → K → result bool.

Definition ltb (a b : K) : bool :=
  match key_lt a b with Ok r => r | Raise _ => false end.

Fixpoint insert_by (x : K * A) (l : list (K * A)) : list (K * A) :=
  match l with
  | [] => [x]
  | y :: l' => if ltb (fst y) (fst x) then y :: insert_by x l' else x :: l
  end.

Fixpoint sort_by (l : list (K * A)) : list (K * A) :=
  match l with
  | [] => []
  | x :: l' => insert_by x (sort_by l')
  end.

Definition comparable (l : list (K * A)) : bool :=
  forallb (fun a => forallb (fun b => is_ok (key_lt (fst a) (fst b))) l) l.

Definition sorted_by (key : A → result K) (l : list A) : result (list A) :=
  keyed ← for_each (fun x => k ← key x; Ok (k, x)) l;
  if comparable keyed then Ok (map snd (sort_by keyed)) else Raise TypeError.
End Sorted.

End Py.

(* ===================================================================== *)
(** ** docx_loader.py *)
(* ===================================================================== *)

Module DocxLoader.
Import Py.

(** A LangChain [Document]: its text and its metadata dictionary. *)
Record Document : Type := mkDocument {
  page_content : string;
  metadata : gmap string pyval
}.

(** [str(cell) if cell else ""] *)
Definition render_cell (cell : pyval) : string :=
  if truthy cell then str cell else "".

(** One markdown row: ["| " + " | ".join(...) + " |"]. *)
Definition render_row (cells : list string) : string :=
  "| " +:+ join " | " cells +:+ " |".

(** [row + [""] * (len(headers) - len(row))]: a negative count repeats
    nothing, as the truncated subtraction of [nat] does. *)
Definition pad_row (headers row : list pyval) : list pyval :=
  row ++ repeat (PStr "") (length headers - length row).

(** The lines [table_to_markdown] collects in its list [markdown]. *)
Definition markdown_lines (headers : list pyval) (rows : list (list pyval))
  : list string :=
  let markdown := [] in
  let markdown := markdown ++ [render_row (map render_cell headers)] in
  let markdown := markdown ++ [render_row (repeat "---" (length headers))] in
  fold_left
    (fun markdown row =>
       let padded_row := pad_row headers row in
       markdown ++ [render_row (map render_cell (firstn (length headers) padded_row))])
    rows markdown.

Definition table_to_markdown (table_data : list (list pyval)) : string :=
  match table_data with
  | [] => ""                                   (* not table_data *)
  | headers :: rows =>
      if (length table_data <? 2)%nat then ""
      else join nl (markdown_lines headers rows)
  end.

(** A DOCX table as python-docx presents it: its rows, each a list of cell
    texts. Reading a row may raise. *)
Definition Table : Type := list (result (list string)).

Definition extract_docx_table (table : Table) : string :=
  let attempt : result string :=
    table_data ← for_each
      (fun row => cells ← row; Ok (map (fun text => PStr (strip text)) cells))
      table;
    if (2 <=? length table_data)%nat then Ok (table_to_markdown table_data)
    else Ok ""
  in
  match attempt with
  | Ok markdown => markdown
  | Raise _ => ""                              (* except Exception *)
  end.

(** An element of the document body, in document order: a paragraph
    ([CT_P], with its text), a table ([CT_Tbl]) or anything else (section
    properties and the like). Reading a paragraph's text may raise. *)
Inductive body_element : Type :=
| CT_P (text : result string)
| CT_Tbl (table : Table)
| CT_other.

Inductive part_type : Set := text_part | table_part.

(** An entry of [content_parts]. *)
Record content_part : Type := mkPart {
  part_kind : part_type;
  part_content : string;
  part_section : Z
}.

(** The variables of the loop over the body. *)
Record walk_state : Type := mkWalk {
  content_parts : list content_part;
  current_section : list string;
  section_num : Z;
  table_count : Z
}.

Definition walk_init : walk_state :=
  {| content_parts := []; current_section := []; section_num := 0; table_count := 0 |}.

(** The text part the paragraphs collected so far make, if any: the two
    nested tests [if current_section:] and [if section_text:]. *)
Definition pending_text (st : walk_state) : option content_part :=
  match current_section st with
  | [] => None
  | _ :: _ =>
      let section_text := join (nl +:+ nl) (current_section st) in
      if negb (section_text =? "")%string then
        Some {| part_kind := text_part; part_content := section_text;
                part_section := section_num st |}
      else None
  end.

(** "Save accumulated text before table". *)
Definition save_text_before_table (st : walk_state) : walk_state :=
  match current_section st with
  | [] => st
  | _ :: _ =>
      match pending_text st with
      | Some part =>
          {| content_parts := content_parts st ++ [part];
             current_section := [];
             section_num := section_num st + 1;
             table_count := table_count st |}
      | None =>
          {| content_parts := content_parts st;
             current_section := [];
             section_num := section_num st;
             table_count := table_count st |}
      end
  end.

(** "Add remaining text", after the loop. *)
Definition add_remaining_text (st : walk_state) : list content_part :=
  match pending_text st with
  | Some part => content_parts st ++ [part]
  | None => content_parts st
  end.

Definition table_caption (count : Z) (markdown_table : string) : string :=
  nl +:+ "**Bảng " +:+ str_int count +:+ ":**" +:+ nl +:+ markdown_table +:+ nl.

(** One turn of [for element in doc.element.body]. *)
Definition walk_step (st : walk_state) (element : body_element) : result walk_state :=
  match element with
  | CT_P paragraph =>
      raw ← paragraph;
      let text := strip raw in
      if negb (text =? "")%string then
        Ok {| content_parts := content_parts st;
              current_section := current_section st ++ [text];
              section_num := section_num st;
              table_count := table_count st |}
      else Ok st
  | CT_Tbl table =>
      let st := save_text_before_table st in
      let markdown_table := extract_docx_table table in
      if negb (markdown_table =? "")%string then
        let count := table_count st + 1 in
        Ok {| content_parts := content_parts st ++
                [ {| part_kind := table_part;
                     part_content := table_caption count markdown_table;
                     part_section := section_num st |} ];
              current_section := current_section st;
              section_num := section_num st + 1;
              table_count := count |}
      else Ok st
  | CT_other => Ok st
  end.

Definition walk (st : walk_state) (body : list body_element) : result walk_state :=
  for_fold walk_step st body.

(** The [Document] built for the part at position [i]. *)
Definition make_document (filename : string) (total_sections : Z)
    (i : Z) (part : content_part) : Document :=
  let has_table := match part_kind part with table_part => true | text_part => false end in
  {| page_content := part_content part;
     metadata :=
       <["source" := PStr filename]>
       (<["page" := PInt i]>
       (<["total_pages" := PInt total_sections]>
       (<["type" := PStr (if has_table then "docx_table" else "docx_text")]>
       (<["has_table" := PBool has_table]>
       (<["file_type" := PStr "docx"]> ∅))))) |}.

Fixpoint enumerate_from {A} (i : Z) (l : list A) : list (Z * A) :=
  match l with
  | [] => []
  | x :: l' => (i, x) :: enumerate_from (i + 1) l'
  end.

(** [extract_content_from_docx(file_path)], given what opening the file
    yields: the body of the document, or the exception [DocxDocument]
    raises on a file it cannot read. *)
Definition extract_content_from_docx (file_path : string)
    (opened : result (list body_element)) : list Document :=
  let filename := basename file_path in
  let attempt : result (list Document) :=
    body ← opened;
    st ← walk walk_init body;
    let parts := add_remaining_text st in
    let total_sections := Z.of_nat (length parts) in
    Ok (map (fun ip => make_document filename total_sections (fst ip) (snd ip))
            (enumerate_from 0 parts))
  in
  match attempt with
  | Ok documents => documents
  | Raise _ => []                              (* except Exception *)
  end.

End DocxLoader.

(* ===================================================================== *)
(** ** load_data.py *)
(* ===================================================================== *)

Module LoadData.
Import Py DocxLoader.

(** The script updates [chunk.metadata] in place; here a function returns
    the chunks as it leaves them. The chunks of a list are distinct
    objects, as [split_documents] builds them, and every run of the script
    builds its chunks anew. *)

(** [metadata[key]] *)
Definition getitem {V} (metadata : gmap string V) (key : string) : result V :=
  match metadata !! key with
  | Some value => Ok value
  | None => Raise KeyError
  end.

(** [key in metadata] *)
Definition contains {V} (metadata : gmap string V) (key : string) : bool :=
  match metadata !! key with Some _ => true | None => false end.

(** [metadata.get(key, default)] *)
Definition get (metadata : gmap string pyval) (key : string) (default : pyval) : pyval :=
  match metadata !! key with Some value => value | None => default end.

Definition with_metadata (chunk : Document) (md : gmap string pyval) : Document :=
  {| page_content := page_content chunk; metadata := md |}.

Definition keep_keys : list string :=
  ["source"; "page"; "type"; "id"; "total_pages"; "has_table"; "used_ocr"; "file_type"].

(** The body of [for key in keep_keys]. The mapping given may hold any
    object; the mapping built holds values of the simple types only. For an
    object that cannot be printed, the test [isinstance] fails, the test
    [value is not None] holds, and [str(value)] raises. *)
Definition clean_key (metadata : gmap string pyobject) (cleaned : gmap string pyval)
    (key : string) : result (gmap string pyval) :=
  if contains metadata key then
    value ← getitem metadata key;
    match value with
    | Printable value =>
        if is_simple value then Ok (<[key := value]> cleaned)
        else if negb (is_none value) then Ok (<[key := PStr (str value)]> cleaned)
        else Ok cleaned
    | Unprintable raised => Raise raised
    end
  else Ok cleaned.

Definition clean_metadata (metadata : gmap string pyobject)
  : result (gmap string pyval) :=
  for_fold (clean_key metadata) ∅ keep_keys.

(** The metadata of a [Document] of this model, as a mapping of objects:
    all of them can be printed. *)
Definition objects (metadata : gmap string pyval) : gmap string pyobject :=
  Printable <$> metadata.

(** [f.lower().endswith(".docx") and not f.startswith("~$")] *)
Definition is_docx_file (f : string) : bool :=
  endswith (lower f) ".docx" && negb (startswith f "~$").

(** [load_document()]. [data_path] is the configured directory; [listing]
    is [None] when it does not exist, and otherwise what [os.listdir]
    returns, each name with what opening that file as a DOCX yields. *)
Definition load_document (data_path : string)
    (listing : option (list (string * result (list body_element)))) : list Document :=
  match listing with
  | None => []
  | Some entries =>
      let docx_files := List.filter (fun entry => is_docx_file (fst entry)) entries in
      match docx_files with
      | [] => []
      | _ :: _ =>
          fold_left
            (fun documents entry =>
               let file_path := path_join data_path (fst entry) in
               let docs := extract_content_from_docx file_path (snd entry) in
               match docs with
               | [] => documents                       (* continue *)
               | _ :: _ => documents ++ docs
               end)
            docx_files []
      end
  end.

(** *** [calculate_chunk_ids] *)

(** [current_page_id], from the five [metadata.get] with their defaults. *)
Definition current_page_id (metadata : gmap string pyval) : string :=
  let source := get metadata "source" (PStr "UNKNOWN_SOURCE") in
  let page := get metadata "page" (PInt 0) in
  let has_table := get metadata "has_table" (PBool false) in
  let used_ocr := get metadata "used_ocr" (PBool false) in
  let file_type := get metadata "file_type" (PStr "unknown") in
  let table_suffix := if truthy has_table then "_table" else "" in
  let ocr_suffix := if truthy used_ocr then "_ocr" else "" in
  str source +:+ ":" +:+ str file_type +:+ ":page_" +:+ str page
    +:+ table_suffix +:+ ocr_suffix.

(** The two variables the loop carries from one chunk to the next. *)
Record id_state : Type := mkIdState {
  last_page_id : option string;
  current_chunk_index : Z
}.

Definition id_init : id_state :=
  {| last_page_id := None; current_chunk_index := 0 |}.

(** [current_page_id == last_page_id], where [last_page_id] starts as
    [None]. *)
Definition same_page (page_id : string) (last : option string) : bool :=
  match last with
  | Some previous => (page_id =? previous)%string
  | None => false
  end.

Definition chunk_id_text (page_id : string) (index : Z) : string :=
  page_id +:+ ":chunk_" +:+ str_int index.

(** The body of [for chunk in chunks]. *)
Definition assign_id (st : id_state) (chunk : Document) : id_state * Document :=
  let page_id := current_page_id (metadata chunk) in
  let index :=
    if same_page page_id (last_page_id st) then current_chunk_index st + 1 else 0 in
  let chunk_id := chunk_id_text page_id index in
  ({| last_page_id := Some page_id; current_chunk_index := index |},
   with_metadata chunk (<["id" := PStr chunk_id]> (metadata chunk))).

Fixpoint assign_ids (st : id_state) (chunks : list Document) : list Document :=
  match chunks with
  | [] => []
  | chunk :: chunks' =>
      let '(st', chunk') := assign_id st chunk in
      chunk' :: assign_ids st' chunks'
  end.

Definition calculate_chunk_ids (chunks : list Document) : list Document :=
  assign_ids id_init chunks.

(** *** [save_to_chroma] *)

(** LangChain's [filter_complex_metadata]: keeps the entries whose value is
    a [str], [bool], [int] or [float]. *)
Definition filter_complex_metadata (chunks : list Document) : list Document :=
  map (fun chunk =>
         with_metadata chunk
           (filter (fun kv => is_scalar (snd kv) = true) (metadata chunk)))
      chunks.

(** The key of the [sorted] call, a tuple. *)
Definition sort_key (c : Document) : result (pyval * Z * bool * Z) :=
  let source := get (metadata c) "source" PNone in
  page ← int (get (metadata c) "page" (PInt 0));
  let has_table := truthy (get (metadata c) "has_table" (PBool false)) in
  start ← (if negb (is_none (get (metadata c) "start" PNone))
           then int (get (metadata c) "start" (PInt 0))
           else Ok 0);
  Ok (source, page, has_table, start).

(** [<] on two such tuples: the first component in which they differ
    decides. *)
Definition key_lt (a b : pyval * Z * bool * Z) : result bool :=
  let '(source1, page1, table1, start1) := a in
  let '(source2, page2, table2, start2) := b in
  if negb (equal source1 source2) then less source1 source2
  else if negb (page1 =? page2) then Ok (page1 <? page2)
  else if negb (Bool.eqb table1 table2) then Ok (negb table1 && table2)
  else Ok (start1 <? start2).

(** The persisted index, as far as this script sees it: a mapping from
    chunk ID to the stored chunk. Insertion is by ID, in order
    (the specification's "upsert-by-id" capability of the vector store);
    embeddings are the store's business and are left out. *)
Definition upsert (db : gmap string Document) (documents : list Document)
    (ids : list string) : gmap string Document :=
  fold_left (fun db entry => <[fst entry := snd entry]> db) (combine ids documents) db.

(** The calls that write to the store. *)
Inductive store_call : Type :=
| from_documents (documents : list Document) (ids : list string)
| add_documents (documents : list Document) (ids : list string).

(** [chunk.metadata["id"]], as an ID of the store, which takes strings
    ([calculate_chunk_ids] has stored one). *)
Definition chunk_id (chunk : Document) : result string :=
  value ← getitem (metadata chunk) "id";
  match value with
  | PStr s => Ok s
  | _ => Raise TypeError
  end.

(** The first half of [save_to_chroma]: filter and clean the metadata,
    sort, assign the IDs. *)
Definition chunks_with_ids (chunks : list Document) : result (list Document) :=
  let chunks := filter_complex_metadata chunks in
  chunks ← for_each
    (fun chunk => md ← clean_metadata (objects (metadata chunk)); Ok (with_metadata chunk md))
    chunks;
  chunks_sorted ← sorted_by key_lt sort_key chunks;
  Ok (calculate_chunk_ids chunks_sorted).

(** The chunks whose ID is not in the index yet. *)
Definition new_chunks (existing_ids : gset string) (with_ids : list Document)
  : result (list Document) :=
  filter_each
    (fun chunk => id ← chunk_id chunk; Ok (negb (bool_decide (id ∈ existing_ids))))
    with_ids.

(** [save_to_chroma(chunks)]. [db] is the index found at [db_location], or
    [None] when that path does not exist. Returns the index as the run
    leaves it and the writes it made. (The retry of [Chroma.from_documents]
    under another parameter name is one creation here.) *)
Definition save_to_chroma (chunks : list Document) (db : option (gmap string Document))
  : result (gmap string Document * list store_call) :=
  with_ids ← chunks_with_ids chunks;
  match db with
  | Some db =>
      let existing_ids := dom db in
      new ← new_chunks existing_ids with_ids;
      match new with
      | _ :: _ =>
          new_chunk_ids ← for_each chunk_id new;
          new ← for_each
            (fun chunk => md ← clean_metadata (objects (metadata chunk)); Ok (with_metadata chunk md))
            new;
          Ok (upsert db new new_chunk_ids, [add_documents new new_chunk_ids])
      | [] => Ok (db, [])
      end
  | None =>
      new_chunk_ids ← for_each chunk_id with_ids;
      Ok (upsert ∅ with_ids new_chunk_ids, [from_documents with_ids new_chunk_ids])
  end.

(** *** [split_text], [clear_database] and [main] *)

(** [RecursiveCharacterTextSplitter(chunk_size, chunk_overlap, separators,
    add_start_index=True).split_documents], a function of LangChain, is
    taken as given. *)
Section Main.
Variable split_documents :
  Z → Z → list string → list Document → list Document.

(** [doc.metadata.get('has_table')], as a condition. *)
Definition has_table_flag (doc : Document) : bool :=
  truthy (get (metadata doc) "has_table" PNone).

Definition split_text (documents : list Document) : list Document :=
  let all_chunks := [] in
  let docs_with_tables := List.filter has_table_flag documents in
  let regular_docs := List.filter (fun doc => negb (has_table_flag doc)) documents in
  let all_chunks :=
    match regular_docs with
    | _ :: _ =>
        all_chunks ++
          split_documents 1000 200
            [nl +:+ nl; nl; ". "; "? "; "! "; " "; ""] regular_docs
    | [] => all_chunks
    end in
  let all_chunks :=
    match docs_with_tables with
    | _ :: _ =>
        all_chunks ++
          split_documents 2000 200
            [nl +:+ nl +:+ "---" +:+ nl; nl +:+ nl; nl; " "; ""] docs_with_tables
    | [] => all_chunks
    end in
  all_chunks.

(** [clear_database()]: removes the index directory when there is one. *)
Definition clear_database (db : option (gmap string Document))
  : option (gmap string Document) :=
  match db with
  | Some _ => None
  | None => None
  end.

(** [main()], with the flag [--reset], the directory listing that
    [load_document] reads and the index found on disk. Returns the index
    left on disk and the writes made to the store. *)
Definition main (reset : bool) (data_path : string)
    (listing : option (list (string * result (list body_element))))
    (db : option (gmap string Document))
  : result (option (gmap string Document) * list store_call) :=
  let db := if reset then clear_database db else db in
  let documents := load_document data_path listing in
  match documents with
  | [] => Ok (db, [])                          (* No documents found. Exiting. *)
  | _ :: _ =>
      let chunks := split_text documents in
      chunks ← for_each
        (fun chunk => md ← clean_metadata (objects (metadata chunk)); Ok (with_metadata chunk md))
        chunks;
      saved ← save_to_chroma chunks db;
      Ok (Some (fst saved), snd saved)
  end.
End Main.

End LoadData.

(* ===================================================================== *)
(** ** Vocabulary of the properties *)
(* ===================================================================== *)

Module Props.
Import Py DocxLoader LoadData.

(** The lines of a text: [s.split("\n")]. [line] is the line being read. *)
Fixpoint lines_from (s line : string) : list string :=
  match s with
  | "" => [line]
  | String c s' =>
      if Ascii.eqb c "010" then line :: lines_from s' ""
      else lines_from s' (line +:+ String c "")
  end.
Definition lines (s : string) : list string := lines_from s "".

(** Whether the character [c] occurs in [s]. *)
Fixpoint occurs (c : ascii) (s : string) : bool :=
  match s with
  | "" => false
  | String c' s' => Ascii.eqb c' c || occurs c s'
  end.

(** A table none of whose cells prints with a line break in it. *)
Definition single_line_cells (table_data : list (list pyval)) : bool :=
  forallb (forallb (fun cell => negb (occurs "010" (render_cell cell)))) table_data.

(** The markdown line of a data row under the given header row. *)
Definition data_line (headers row : list pyval) : string :=
  render_row (map render_cell (firstn (length headers) (pad_row headers row))).

(** The ID each chunk carries, in list order. *)
Definition assigned_ids (chunks : list Document) : list (option pyval) :=
  map (fun chunk => metadata chunk !! "id") chunks.

(** The texts of the sections an extraction returns. *)
Definition section_texts (documents : list Document) : list string :=
  map page_content documents.

(** What [clean_metadata] stores for a value it keeps. *)
Definition cleaned_value (value : pyval) : pyval :=
  if is_simple value then value else PStr (str value).

(** The composite key of the specification's ChunkID: (source, file_type,
    page, has_table, used_ocr), each read with the default
    [calculate_chunk_ids] gives it. *)
Definition composite_key (md : gmap string pyval)
  : pyval * pyval * pyval * pyval * pyval :=
  (get md "source" (PStr "UNKNOWN_SOURCE"),
   get md "file_type" (PStr "unknown"),
   get md "page" (PInt 0),
   get md "has_table" (PBool false),
   get md "used_ocr" (PBool false)).

(** An extraction that raises somewhere: on opening the file, or while
    walking its body. *)
Definition extraction_raises (opened : result (list body_element)) : Prop :=
  ∃ e, (body ← opened; walk walk_init body) = Raise e.

(** A chunk with the given metadata entries. *)
Definition chunk_of (text : string) (entries : list (string * pyval)) : Document :=
  {| page_content := text; metadata := list_to_map entries |}.

(** A table whose first header cell holds two paragraphs, as [cell.text]
    returns them: the texts joined by a line break. *)
Definition two_paragraph_header : list (list pyval) :=
  [ [PStr ("a" +:+ nl +:+ "b"); PStr "c"]; [PStr "d"; PStr "e"] ].

(** A table with a count of zero in its data row. *)
Definition zero_count_table : list (list pyval) :=
  [ [PStr "item"; PStr "count"]; [PStr "pens"; PInt 0] ].

(** A document body: a paragraph, a table of one row, a paragraph. *)
Definition body_with_short_table : list body_element :=
  [ CT_P (Ok "A"); CT_Tbl [Ok ["only"; "row"]]; CT_P (Ok "B") ].

(** The same body without the table. *)
Definition body_without_table : list body_element :=
  [ CT_P (Ok "A"); CT_P (Ok "B") ].

(** A body whose second paragraph cannot be read. *)
Definition body_with_bad_paragraph : list body_element :=
  [ CT_P (Ok "A"); CT_P (Raise (OtherError "bad run")) ].

(** A body of one paragraph. *)
Definition body_of_one_paragraph : list body_element := [ CT_P (Ok "B") ].

(** A paragraph that cannot be read. *)
Definition unreadable (element : body_element) : Prop :=
  ∃ e, element = CT_P (Raise e).

(** A row that cannot be read. *)
Definition bad_row (row : result (list string)) : bool := negb (is_ok row).

(** A table whose second row cannot be read. *)
Definition table_with_bad_row : Table :=
  [ Ok ["h1"; "h2"]; Raise (OtherError "bad cell") ].

(** A body with that table between two paragraphs. *)
Definition body_with_bad_table : list body_element :=
  [ CT_P (Ok "A"); CT_Tbl table_with_bad_row; CT_P (Ok "B") ].

(** The mapping [clean_metadata] builds, as a fold without exceptions. *)
Definition cleaned (metadata : gmap string pyval) : gmap string pyval :=
  fold_left
    (fun acc key =>
       match metadata !! key with
       | Some value => <[key := cleaned_value value]> acc
       | None => acc
       end)
    keep_keys ∅.

(** The values of a mapping of objects that can be printed. *)
Definition printable_part (metadata : gmap string pyobject) : gmap string pyval :=
  omap (fun object =>
          match object with
          | Printable value => Some value
          | Unprintable _ => None
          end)
       metadata.

(** The exception of the first of [keys] under which the mapping holds an
    object that cannot be printed. *)
Fixpoint first_unprintable (metadata : gmap string pyobject) (keys : list string)
  : option exn :=
  match keys with
  | [] => None
  | key :: keys' =>
      match metadata !! key with
      | Some (Unprintable raised) => Some raised
      | _ => first_unprintable metadata keys'
      end
  end.


(** *** Vocabulary of the ID assigner *)

(** The five parts of a page identity, as [calculate_chunk_ids] reads and
    prints them. *)
Definition src (md : gmap string pyval) : string :=
  str (get md "source" (PStr "UNKNOWN_SOURCE")).
Definition ftype (md : gmap string pyval) : string :=
  str (get md "file_type" (PStr "unknown")).
Definition page_text (md : gmap string pyval) : string :=
  str (get md "page" (PInt 0)).
Definition tbl (md : gmap string pyval) : bool :=
  truthy (get md "has_table" (PBool false)).
Definition ocr (md : gmap string pyval) : bool :=
  truthy (get md "used_ocr" (PBool false)).

(** The start offset, as the sort of [save_to_chroma] looks it up. *)
Definition start_text (md : gmap string pyval) : string :=
  str (get md "start" (PInt 0)).

(** The page identity of every chunk, in list order. *)
Definition page_ids (chunks : list Document) : list string :=
  map (fun chunk => current_page_id (metadata chunk)) chunks.

(** The loop of [calculate_chunk_ids] on page identities alone: each with
    the counter it gets. *)
Fixpoint numbered (last : option string) (index : Z) (ids : list string)
  : list (string * Z) :=
  match ids with
  | [] => []
  | page_id :: ids' =>
      let n := if same_page page_id last then index + 1 else 0 in
      (page_id, n) :: numbered (Some page_id) n ids'
  end.

(** The ID entry a page identity and a counter make. *)
Definition id_value (entry : string * Z) : option pyval :=
  Some (PStr (chunk_id_text (fst entry) (snd entry))).

(** Equal page identities are adjacent: between two chunks of one page
    identity there is no chunk of another. *)
Definition grouped (ids : list string) : Prop :=
  ∀ l1 p l2 l3, ids = l1 ++ p :: l2 ++ p :: l3 → Forall (eq p) l2.

(** [a] may stand before [b] in a list sorted by the key of
    [save_to_chroma]: both keys can be computed and compared, and the key
    of [b] is not smaller than that of [a]. *)
Definition precedes (a b : Document) : bool :=
  match sort_key a, sort_key b with
  | Ok ka, Ok kb =>
      match key_lt kb ka with Ok false => true | _ => false end
  | _, _ => false
  end.

(** Sorted ascending by (source, page, has_table, start). *)
Fixpoint sorted_by_key (chunks : list Document) : bool :=
  match chunks with
  | [] => true
  | chunk :: chunks' => forallb (precedes chunk) chunks' && sorted_by_key chunks'
  end.

(** The source is a string and the page, when present, an integer. *)
Definition id_typed (chunk : Document) : bool :=
  match metadata chunk !! "source" with Some (PStr _) => true | _ => false end
  && match metadata chunk !! "page" with
     | None | Some (PInt _) => true
     | _ => false
     end.

(** The tuple (source, page, has_table, used_ocr, start_offset) of a chunk. *)
Definition identity_tuple (chunk : Document) : string * string * bool * bool * string :=
  (src (metadata chunk), page_text (metadata chunk), tbl (metadata chunk),
   ocr (metadata chunk), start_text (metadata chunk)).

Definition distinct_tuples (chunks : list Document) : bool :=
  bool_decide (NoDup (map identity_tuple chunks)).

(** All chunks have one file type. *)
Definition same_file_type (chunks : list Document) : bool :=
  forallb (fun a =>
    forallb (fun b => (ftype (metadata a) =? ftype (metadata b))%string) chunks)
    chunks.

(** Same source, page and has_table. *)
Definition same_section (a b : Document) : bool :=
  (src (metadata a) =? src (metadata b))%string
  && (page_text (metadata a) =? page_text (metadata b))%string
  && Bool.eqb (tbl (metadata a)) (tbl (metadata b)).

(** used_ocr is a property of the section: chunks of one (source, page,
    has_table) agree on it. *)
Definition ocr_by_section (chunks : list Document) : bool :=
  forallb (fun a =>
    forallb (fun b =>
      implb (same_section a b) (Bool.eqb (ocr (metadata a)) (ocr (metadata b))))
      chunks)
    chunks.

(** The chunks of the specification's example, with any texts. *)
Definition example_chunks (t1 t2 t3 : string) : list Document :=
  [ chunk_of t1 [("source", PStr "a.docx"); ("page", PInt 0); ("has_table", PBool false)];
    chunk_of t2 [("source", PStr "a.docx"); ("page", PInt 0); ("has_table", PBool false)];
    chunk_of t3 [("source", PStr "a.docx"); ("page", PInt 1); ("has_table", PBool true)] ].

(** The same chunks with the file type the extractor records. *)
Definition example_docx_chunks (t1 t2 t3 : string) : list Document :=
  map (fun chunk => with_metadata chunk (<["file_type" := PStr "docx"]> (metadata chunk)))
      (example_chunks t1 t2 t3).

(** Three chunks of one section at offsets 0, 100 and 200, the middle one
    marked as read by OCR. *)
Definition ocr_in_the_middle : list Document :=
  map (fun entry : bool * Z =>
         chunk_of ""
           [("source", PStr "a.docx"); ("file_type", PStr "docx"); ("page", PInt 0);
            ("has_table", PBool false); ("used_ocr", PBool (fst entry));
            ("start", PInt (snd entry))])
      [(false, 0); (true, 100); (false, 200)].

(** Two chunks whose source and file type differ and print alike. *)
Definition colon_chunks : list Document :=
  [ chunk_of "" [("source", PStr "a"); ("file_type", PStr "b:c"); ("page", PInt 0)];
    chunk_of "" [("source", PStr "a:b"); ("file_type", PStr "c"); ("page", PInt 0)] ].

(** Three chunks as the splitter cuts them from two sections of one file:
    two of the first section, at offsets 0 and 800, and one of a table. *)
Definition split_chunks : list Document :=
  map (fun entry : Z * bool * Z =>
         chunk_of ""
           [("source", PStr "a.docx"); ("file_type", PStr "docx");
            ("page", PInt (fst (fst entry))); ("has_table", PBool (snd (fst entry)));
            ("start", PInt (snd entry))])
      [(0, false, 0); (0, false, 800); (1, true, 0)].

(** How a composite key prints as a page identity. *)
Definition key_page_id (key : pyval * pyval * pyval * pyval * pyval) : string :=
  let '(source, file_type, page, has_table, used_ocr) := key in
  str source +:+ ":" +:+ str file_type +:+ ":page_" +:+ str page
    +:+ (if truthy has_table then "_table" else "")
    +:+ (if truthy used_ocr then "_ocr" else "").

(** *** Vocabulary of the store writer *)

(** A chunk as [save_to_chroma] sorts it: its metadata filtered and
    cleaned. *)
Definition prepared (chunk : Document) : Document :=
  with_metadata chunk
    (cleaned (filter (fun kv => is_scalar (snd kv) = true) (metadata chunk))).

(** The IDs [save_to_chroma] assigns to its input, in the order it assigns
    them. *)
Definition ids_assigned_by_save (chunks : list Document)
  : result (list (option pyval)) :=
  with_ids ← chunks_with_ids chunks; Ok (assigned_ids with_ids).

(** The source is a string, and the page and start can be read as
    integers: the sort key can be computed and compared. *)
Definition sortable (chunk : Document) : bool :=
  match metadata (prepared chunk) !! "source" with
  | Some (PStr _) => true
  | _ => false
  end
  && is_ok (sort_key (prepared chunk)).

(** The sort of [save_to_chroma] does not tell the two chunks apart. *)
Definition same_sort_key (a b : Document) : bool :=
  match sort_key (prepared a), sort_key (prepared b) with
  | Ok ka, Ok kb => negb (ltb key_lt ka kb) && negb (ltb key_lt kb ka)
  | _, _ => false
  end.

(** Chunks with the same sort key have the same page identity. *)
Definition identity_by_sort_key (chunks : list Document) : bool :=
  forallb (fun a =>
    forallb (fun b =>
      implb (same_sort_key a b)
        (current_page_id (metadata (prepared a))
           =? current_page_id (metadata (prepared b)))%string)
      chunks)
    chunks.

(** The sort key of a prepared chunk, when it can be computed. *)
Definition key_of (chunk : Document) : pyval * Z * bool * Z :=
  match sort_key (prepared chunk) with
  | Ok key => key
  | Raise _ => (PNone, 0, false, 0)
  end.

(** The prepared chunks with their keys, as [sorted] pairs them. *)
Definition keyed (chunks : list Document) : list ((pyval * Z * bool * Z) * Document) :=
  map (fun chunk => (key_of chunk, prepared chunk)) chunks.

(** The ID a chunk carries, as text. *)
Definition id_text (chunk : Document) : string :=
  match metadata chunk !! "id" with
  | Some (PStr s) => s
  | _ => ""
  end.

(** The chunk carries a string as its ID. *)
Definition has_id (chunk : Document) : Prop :=
  ∃ s, metadata chunk !! "id" = Some (PStr s).

(** Two sources the sort can put in order: they are equal, or [<] is
    defined on them both ways and holds one way. *)
Definition comparable_sources (a b : pyval) : bool :=
  equal a b
  || match less a b, less b a with
     | Ok forth, Ok back => forth || back
     | _, _ => false
     end.

(** The source of a chunk as the sort of [save_to_chroma] reads it. *)
Definition source_of (chunk : Document) : pyval :=
  get (metadata (prepared chunk)) "source" PNone.

(** All sources are mutually comparable. *)
Definition mutually_comparable (chunks : list Document) : bool :=
  forallb (fun a =>
    forallb (fun b => comparable_sources (source_of a) (source_of b)) chunks)
    chunks.

(** The page (and the start, which the cleaning has removed) can be
    converted by [int]: the sort key can be computed. *)
Definition int_convertible (chunk : Document) : bool :=
  is_ok (sort_key (prepared chunk)).

(** Four chunks of two files as the splitter cuts them, each with the
    offset at which it starts: two of the first section of a.docx, its
    table, and a section of b.docx. *)
Definition library_chunks : list Document :=
  map (fun entry : string * string * Z * bool * Z =>
         let '(source, text, page, has_table, start) := entry in
         chunk_of text
           [("source", PStr source); ("file_type", PStr "docx"); ("page", PInt page);
            ("has_table", PBool has_table); ("start_index", PInt start)])
      [ ("a.docx", "first", 0, false, 0); ("a.docx", "second", 0, false, 800);
        ("a.docx", "table", 1, true, 0); ("b.docx", "other", 0, false, 0) ].

(** The same chunks from the last to the first. *)
Definition library_chunks_reversed : list Document := rev library_chunks.

(** The chunks of [ocr_in_the_middle] with the last two exchanged. *)
Definition ocr_at_the_end : list Document :=
  match ocr_in_the_middle with
  | [a; b; c] => [a; c; b]
  | other => other
  end.

(** The chunks of [split_chunks] with the first two exchanged. *)
Definition split_chunks_swapped : list Document :=
  match split_chunks with
  | a :: b :: rest => b :: a :: rest
  | other => other
  end.

(** Two keyed entries a sort by [key_lt] does not tell apart. *)
Definition tie {A K} (key_lt : K → K → result bool) (x y : K * A) : Prop :=
  ltb key_lt (fst x) (fst y) = false ∧ ltb key_lt (fst y) (fst x) = false.

(** Lexicographic comparison of pairs. *)
Definition lex {A B} (ca : A → A → comparison) (cb : B → B → comparison)
    (x y : A * B) : comparison :=
  match ca (fst x) (fst y) with
  | Eq => cb (snd x) (snd y)
  | r => r
  end.

(** The order of the sort keys whose source is a string. *)
Definition key_compare : string * Z * bool * Z → string * Z * bool * Z → comparison :=
  lex (lex (lex String.compare Z.compare) Bool.compare) Z.compare.

(** A comparison function of a strict total order. *)
Record total_order {A} (cmp : A → A → comparison) : Prop := {
  cmp_refl : ∀ a, cmp a a = Eq;
  cmp_eq : ∀ a b, cmp a b = Eq → a = b;
  cmp_opp : ∀ a b, cmp b a = CompOpp (cmp a b);
  cmp_trans : ∀ a b c, cmp a b = Lt → cmp b c = Lt → cmp a c = Lt
}.

(** The keys whose source is a string. *)
Definition string_keyed (key : pyval * Z * bool * Z) : Prop :=
  ∃ source page has_table start, key = (PStr source, page, has_table, start).

End Props.

(* ===================================================================== *)
(** ** Facts about strings and the decimal printer *)
(* ===================================================================== *)

Module StringFacts.
Import Py Props.

Lemma append_cons (c : ascii) (a b : string) :
  String c a +:+ b = String c (a +:+ b).
Proof. reflexivity. Qed.

Lemma append_empty_l (b : string) : "" +:+ b = b.
Proof. reflexivity. Qed.

Lemma append_nil_r (s : string) : s +:+ "" = s.
Proof.
  induction s as [|c s IH]; [reflexivity|].
  now rewrite append_cons, IH.
Qed.

Lemma append_assoc (a b c : string) : (a +:+ b) +:+ c = a +:+ (b +:+ c).
Proof.
  induction a as [|x a IH]; [reflexivity|].
  now rewrite !append_cons, IH.
Qed.

Lemma occurs_append (c : ascii) (a b : string) :
  occurs c (a +:+ b) = occurs c a || occurs c b.
Proof.
  induction a as [|x a IH]; [reflexivity|].
  rewrite append_cons. simpl. rewrite IH. now rewrite orb_assoc.
Qed.

Lemma occurs_after (c : ascii) (a b : string) : occurs c (a +:+ String c b) = true.
Proof.
  rewrite occurs_append. simpl. rewrite Ascii.eqb_refl. apply orb_true_r.
Qed.

(** Splitting at the last occurrence of a character is unambiguous. *)
Lemma split_at_last (c : ascii) (a a' b b' : string) :
  occurs c b = false → occurs c b' = false →
  a +:+ String c b = a' +:+ String c b' → a = a' ∧ b = b'.
Proof.
  intros Hb Hb'. revert a'.
  induction a as [|x a IH]; intros [|x' a'] H;
    rewrite ?append_cons, ?append_empty_l in H.
  - injection H as ->. now split.
  - injection H as <- ->. now rewrite occurs_after in Hb.
  - injection H as -> <-. now rewrite occurs_after in Hb'.
  - injection H as -> H. destruct (IH _ H) as [-> ->]. now split.
Qed.

(** Splitting before the first occurrence of a character is unambiguous. *)
Lemma split_at_first (c : ascii) (a a' b b' : string) :
  occurs c a = false → occurs c a' = false →
  (b = "" ∨ ∃ r, b = String c r) → (b' = "" ∨ ∃ r, b' = String c r) →
  a +:+ b = a' +:+ b' → a = a' ∧ b = b'.
Proof.
  revert a'. induction a as [|x a IH]; intros [|x' a'] Ha Ha' Hb Hb' H;
    rewrite ?append_cons, ?append_empty_l in H; simpl in Ha, Ha'.
  - now split.
  - apply orb_false_elim in Ha' as [Hx _].
    destruct Hb as [-> | [r ->]]; [discriminate|].
    injection H as -> _. now rewrite Ascii.eqb_refl in Hx.
  - apply orb_false_elim in Ha as [Hx _].
    destruct Hb' as [-> | [r ->]]; [discriminate|].
    injection H as -> _. now rewrite Ascii.eqb_refl in Hx.
  - apply orb_false_elim in Ha as [_ Ha]. apply orb_false_elim in Ha' as [_ Ha'].
    injection H as -> H. destruct (IH _ Ha Ha' Hb Hb' H) as [-> ->]. now split.
Qed.

Lemma length_append (a b : string) :
  String.length (a +:+ b) = (String.length a + String.length b)%nat.
Proof.
  induction a as [|x a IH]; [reflexivity|].
  rewrite append_cons. simpl. now rewrite IH.
Qed.

Lemma append_inj_r (a a' b : string) : a +:+ b = a' +:+ b → a = a'.
Proof.
  intros H.
  assert (Hlen : String.length a = String.length a').
  { apply (f_equal String.length) in H. rewrite !length_append in H. lia. }
  revert a' H Hlen. induction a as [|x a IH]; intros [|x' a'] H Hlen;
    rewrite ?append_cons, ?append_empty_l in H; simpl in Hlen;
    try discriminate; [reflexivity|].
  injection H as -> H. f_equal. apply IH; [assumption | lia].
Qed.

(** *** The decimal printer *)

Lemma uint_chars (c : ascii) (d : Decimal.uint) :
  digit_of c = None → occurs c (NilEmpty.string_of_uint d) = false.
Proof.
  intros Hc.
  induction d as [|d IH|d IH|d IH|d IH|d IH|d IH|d IH|d IH|d IH|d IH];
    cbn [NilEmpty.string_of_uint occurs]; try reflexivity.
  all: rewrite IH, orb_false_r.
  all: destruct (Ascii.eqb _ c) eqn:E; [|reflexivity].
  all: apply Ascii.eqb_eq in E; subst c; vm_compute in Hc; discriminate.
Qed.

(** The text of an integer holds digits and a minus sign only. *)
Lemma str_int_chars (c : ascii) (z : Z) :
  digit_of c = None → c ≠ "-"%char → occurs c (str_int z) = false.
Proof.
  intros Hc Hminus. unfold str_int.
  assert (Hu : ∀ d, occurs c (NilZero.string_of_uint d) = false).
  { intros d. destruct d; try apply uint_chars; try assumption.
    cbn [NilZero.string_of_uint occurs]. rewrite orb_false_r.
    destruct (Ascii.eqb _ c) eqn:E; [|reflexivity].
    apply Ascii.eqb_eq in E; subst c; vm_compute in Hc; discriminate. }
  destruct (Z.to_int z) as [d|d]; cbn [NilZero.string_of_int occurs]; [apply Hu|].
  rewrite Hu, orb_false_r. apply Ascii.eqb_neq. congruence.
Qed.

Lemma str_int_inj (z z' : Z) : str_int z = str_int z' → z = z'.
Proof.
  unfold str_int. intros H.
  assert (Hp : ∀ z, Z.to_int z ≠ Decimal.Pos Decimal.Nil
                    ∧ Z.to_int z ≠ Decimal.Neg Decimal.Nil).
  { intros [|p|p]; simpl; split; try discriminate; intros [= Hnil];
      now apply Unsigned.to_uint_nonnil in Hnil. }
  apply (f_equal NilZero.int_of_string) in H.
  rewrite !NilZero.isi in H by apply Hp.
  injection H as H. apply (f_equal Z.of_int) in H.
  now rewrite !DecimalZ.of_to in H.
Qed.

End StringFacts.

(* ===================================================================== *)
(** ** The structured extractor *)
(* ===================================================================== *)

Module Extractor.
Import Py DocxLoader LoadData Props StringFacts.

(** *** Shape of the markdown table *)

Lemma fold_left_snoc {A B} (f : A → B) (l : list A) (acc : list B) :
  fold_left (fun acc x => acc ++ [f x]) l acc = acc ++ map f l.
Proof.
  revert acc. induction l as [|x l IH]; intros acc; simpl.
  - now rewrite app_nil_r.
  - rewrite IH. now rewrite <- app_assoc.
Qed.

Lemma markdown_lines_eq (headers : list pyval) (rows : list (list pyval)) :
  markdown_lines headers rows =
    render_row (map render_cell headers)
      :: render_row (repeat "---" (length headers))
      :: map (data_line headers) rows.
Proof.
  unfold markdown_lines.
  rewrite (fold_left_snoc (data_line headers)). reflexivity.
Qed.

Lemma table_to_markdown_rows (headers : list pyval) (rows : list (list pyval)) :
  rows ≠ [] →
  table_to_markdown (headers :: rows) =
    join nl (render_row (map render_cell headers)
               :: render_row (repeat "---" (length headers))
               :: map (data_line headers) rows).
Proof.
  intros Hrows. destruct rows as [|row rows]; [congruence|].
  unfold table_to_markdown. simpl length.
  now rewrite markdown_lines_eq.
Qed.

Lemma two_rows_inv {A} (l : list A) :
  (2 <= length l)%nat → ∃ x l', l = x :: l' ∧ l' ≠ [].
Proof.
  destruct l as [|x [|y l]]; simpl; intros H; try lia.
  exists x, (y :: l). split; [reflexivity | discriminate].
Qed.

Lemma padded_row_length (headers row : list pyval) :
  length (firstn (length headers) (pad_row headers row)) = length headers.
Proof.
  unfold pad_row. rewrite length_firstn, length_app, repeat_length. lia.
Qed.

Lemma short_row_is_padded (headers row : list pyval) :
  (length row <= length headers)%nat →
  firstn (length headers) (pad_row headers row) =
    row ++ repeat (PStr "") (length headers - length row).
Proof.
  intros H. unfold pad_row. apply firstn_all2.
  rewrite length_app, repeat_length. lia.
Qed.

Lemma long_row_is_truncated (headers row : list pyval) :
  (length headers <= length row)%nat →
  firstn (length headers) (pad_row headers row) = firstn (length headers) row.
Proof.
  intros H. unfold pad_row.
  replace (length headers - length row)%nat with 0%nat by lia.
  simpl. now rewrite app_nil_r.
Qed.

(** *** Lines of a joined text *)

Lemma lines_from_no_break (s line : string) :
  occurs "010" s = false → lines_from s line = [line +:+ s].
Proof.
  revert line. induction s as [|c s IH]; intros line H; simpl in *.
  - now rewrite append_nil_r.
  - apply orb_false_elim in H as [Hc Hs]. rewrite Hc.
    rewrite (IH _ Hs), append_assoc. reflexivity.
Qed.

Lemma lines_from_append (a b line : string) :
  occurs "010" a = false →
  lines_from (a +:+ b) line = lines_from b (line +:+ a).
Proof.
  revert line. induction a as [|c a IH]; intros line H.
  - now rewrite append_empty_l, append_nil_r.
  - simpl in H. apply orb_false_elim in H as [Hc Ha].
    rewrite append_cons. simpl. rewrite Hc.
    rewrite (IH _ Ha), append_assoc. reflexivity.
Qed.

Lemma join_cons2 (sep x y : string) (l : list string) :
  join sep (x :: y :: l) = x +:+ sep +:+ join sep (y :: l).
Proof. reflexivity. Qed.

Lemma lines_join (l : list string) :
  l ≠ [] → forallb (fun s => negb (occurs "010" s)) l = true →
  lines (join nl l) = l.
Proof.
  intros Hne Hl. unfold lines.
  induction l as [|x l IH]; [congruence|].
  simpl in Hl. apply andb_prop in Hl as [Hx Hl].
  apply negb_true_iff in Hx.
  destruct l as [|y l].
  - simpl. rewrite (lines_from_no_break _ _ Hx). reflexivity.
  - rewrite join_cons2, (lines_from_append _ _ _ Hx).
    unfold nl. rewrite append_cons, append_empty_l. simpl.
    f_equal. apply IH; [discriminate | assumption].
Qed.

Lemma occurs_join (c : ascii) (sep : string) (l : list string) :
  occurs c sep = false → forallb (fun s => negb (occurs c s)) l = true →
  occurs c (join sep l) = false.
Proof.
  intros Hsep. induction l as [|x l IH]; intros Hl; [reflexivity|].
  simpl in Hl. apply andb_prop in Hl as [Hx Hl]. apply negb_true_iff in Hx.
  destruct l as [|y l]; [exact Hx|].
  rewrite join_cons2, !occurs_append, Hx, Hsep. simpl. now apply IH.
Qed.

Lemma render_row_single_line (cells : list string) :
  forallb (fun s => negb (occurs "010" s)) cells = true →
  occurs "010" (render_row cells) = false.
Proof.
  intros H. unfold render_row. rewrite !occurs_append.
  rewrite (occurs_join "010" " | " cells eq_refl H). reflexivity.
Qed.

Lemma forallb_map {A B} (f : A → B) (p : B → bool) (l : list A) :
  forallb p (map f l) = forallb (fun x => p (f x)) l.
Proof. induction l as [|x l IH]; simpl; [reflexivity | now rewrite IH]. Qed.

Lemma forallb_firstn {A} (p : A → bool) (n : nat) (l : list A) :
  forallb p l = true → forallb p (firstn n l) = true.
Proof.
  revert n. induction l as [|x l IH]; intros [|n] H; simpl in *; try reflexivity.
  apply andb_prop in H as [Hx Hl]. rewrite Hx. now apply IH.
Qed.

Lemma forallb_repeat {A} (p : A → bool) (x : A) (n : nat) :
  p x = true → forallb p (repeat x n) = true.
Proof. intros H. induction n as [|n IH]; simpl; [reflexivity | now rewrite H]. Qed.

Lemma data_line_single_line (headers row : list pyval) :
  forallb (fun cell => negb (occurs "010" (render_cell cell))) row = true →
  occurs "010" (data_line headers row) = false.
Proof.
  intros H. unfold data_line. apply render_row_single_line.
  rewrite forallb_map. apply forallb_firstn.
  unfold pad_row. rewrite forallb_app, H. simpl.
  now apply forallb_repeat.
Qed.

Lemma markdown_single_lines (headers : list pyval) (rows : list (list pyval)) :
  single_line_cells (headers :: rows) = true →
  forallb (fun s => negb (occurs "010" s))
    (render_row (map render_cell headers)
       :: render_row (repeat "---" (length headers))
       :: map (data_line headers) rows) = true.
Proof.
  unfold single_line_cells. cbn [forallb]. intros H.
  apply andb_prop in H as [Hh Hrows].
  rewrite render_row_single_line by now rewrite forallb_map.
  rewrite render_row_single_line by now apply forallb_repeat.
  cbn [negb andb]. rewrite forallb_map.
  rewrite forallb_forall in *. intros row Hin.
  rewrite data_line_single_line; [reflexivity|].
  rewrite forallb_forall. intros cell Hcell.
  specialize (Hrows row Hin). rewrite forallb_forall in Hrows. now apply Hrows.
Qed.

(** *** C5: the rendered table *)

(** C5, as stated, fails: for the two-row table [two_paragraph_header] the
    returned string has four lines, not a header line, a separator line and
    one line for the single data row. *)
Lemma table_to_markdown_extra_line :
  (2 <= length two_paragraph_header)%nat ∧
  lines (table_to_markdown two_paragraph_header) =
    ["| a"; "b | c |"; "| --- | --- |"; "| d | e |"] ∧
  length (lines (table_to_markdown two_paragraph_header))
    ≠ (1 + 1 + (length two_paragraph_header - 1))%nat.
Proof.
  split; [simpl; lia|]. split; [reflexivity|]. vm_compute. lia.
Qed.

(** C5, amended: for every table with at least two rows the returned string
    is the join, by line breaks, of the header row, a separator row of
    dashes and one rendered row per data row; every data row is rendered
    from exactly as many cells as the header has, short rows padded with
    empty cells and long rows truncated; and when no cell prints with a
    line break in it, these are exactly the lines of the string, one more
    than the table has rows. *)
Theorem table_to_markdown_shape (table_data : list (list pyval))
    (Hrows : (2 <= length table_data)%nat) :
  ∃ headers rows, table_data = headers :: rows ∧
    table_to_markdown table_data =
      join nl (render_row (map render_cell headers)
                 :: render_row (repeat "---" (length headers))
                 :: map (data_line headers) rows) ∧
    Forall (fun row =>
              length (firstn (length headers) (pad_row headers row)) = length headers ∧
              ((length row <= length headers)%nat →
                 firstn (length headers) (pad_row headers row) =
                   row ++ repeat (PStr "") (length headers - length row)) ∧
              ((length headers <= length row)%nat →
                 firstn (length headers) (pad_row headers row) =
                   firstn (length headers) row))
           rows ∧
    render_cell (PStr "") = "" ∧
    (single_line_cells table_data = true →
       lines (table_to_markdown table_data) =
         render_row (map render_cell headers)
           :: render_row (repeat "---" (length headers))
           :: map (data_line headers) rows ∧
       length (lines (table_to_markdown table_data)) = S (length table_data)).
Proof.
  destruct (two_rows_inv _ Hrows) as (headers & rows & -> & Hne).
  exists headers, rows. split; [reflexivity|].
  pose proof (table_to_markdown_rows headers rows Hne) as Hshape.
  split; [exact Hshape|]. split.
  - apply Forall_forall. intros row _.
    split; [apply padded_row_length|].
    split; [apply short_row_is_padded | apply long_row_is_truncated].
  - split; [reflexivity|]. intros Hcells.
    assert (Hlines : lines (table_to_markdown (headers :: rows)) =
              render_row (map render_cell headers)
                :: render_row (repeat "---" (length headers))
                :: map (data_line headers) rows).
    { rewrite Hshape. apply lines_join; [discriminate|].
      now apply markdown_single_lines. }
    split; [exact Hlines|].
    rewrite Hlines. simpl. now rewrite length_map.
Qed.

(** A table of three rows, one short and one long. *)
Lemma table_to_markdown_shape_witness :
  (2 <= length [[PStr "h1"; PStr "h2"]; [PStr "x"]; [PStr "p"; PStr "q"; PStr "r"]])%nat ∧
  lines (table_to_markdown
           [[PStr "h1"; PStr "h2"]; [PStr "x"]; [PStr "p"; PStr "q"; PStr "r"]]) =
    ["| h1 | h2 |"; "| --- | --- |"; "| x |  |"; "| p | q |"].
Proof.
  assert (H : (2 <= length [[PStr "h1"; PStr "h2"]; [PStr "x"];
                            [PStr "p"; PStr "q"; PStr "r"]])%nat) by (simpl; lia).
  split; [exact H|].
  destruct (table_to_markdown_shape _ H) as (headers & rows & Heq & _ & _ & _ & Hlines).
  injection Heq as <- <-.
  destruct (Hlines eq_refl) as [-> _]. reflexivity.
Defined.

(** *** C10: falsy cells *)

(** C10: a cell whose value is falsy (among them the empty string, the
    integer 0, [False] and [None]) is rendered as the empty string and not
    as its string form, in the header row and in the data rows alike, both
    being rendered cell by cell with [render_cell]; the table
    [zero_count_table] has a cell equal to 0, whose string form is "0", and
    its markdown shows an empty cell there. *)
Theorem falsy_cell_renders_empty (table_data : list (list pyval))
    (Hrows : (2 <= length table_data)%nat) :
  (∀ cell, truthy cell = false → render_cell cell = "") ∧
  render_cell (PStr "") = "" ∧ render_cell (PInt 0) = "" ∧
  render_cell (PBool false) = "" ∧ render_cell PNone = "" ∧
  (∃ headers rows, table_data = headers :: rows ∧
     table_to_markdown table_data =
       join nl (render_row (map render_cell headers)
                  :: render_row (repeat "---" (length headers))
                  :: map (fun row =>
                            render_row (map render_cell
                              (firstn (length headers) (pad_row headers row))))
                         rows)) ∧
  str (PInt 0) = "0" ∧
  table_to_markdown zero_count_table =
    "| item | count |" +:+ nl +:+ "| --- | --- |" +:+ nl +:+ "| pens |  |".
Proof.
  split.
  { intros cell H. unfold render_cell. now rewrite H. }
  do 4 (split; [reflexivity|]).
  split; [|split; reflexivity].
  destruct (two_rows_inv _ Hrows) as (headers & rows & -> & Hne).
  exists headers, rows. split; [reflexivity|].
  now apply table_to_markdown_rows.
Qed.

(** The table with a count of zero. *)
Lemma falsy_cell_renders_empty_witness :
  (2 <= length zero_count_table)%nat ∧
  render_cell (PInt 0) = "" ∧
  table_to_markdown zero_count_table =
    "| item | count |" +:+ nl +:+ "| --- | --- |" +:+ nl +:+ "| pens |  |".
Proof.
  assert (H : (2 <= length zero_count_table)%nat) by (simpl; lia).
  split; [exact H|].
  destruct (falsy_cell_renders_empty zero_count_table H)
    as (_ & _ & Hzero & _ & _ & _ & _ & Hout).
  split; [exact Hzero | exact Hout].
Defined.

(** *** C6: tables with fewer than two rows *)

Lemma table_to_markdown_short (table_data : list (list pyval)) :
  (length table_data < 2)%nat → table_to_markdown table_data = "".
Proof.
  destruct table_data as [|headers [|row rows]]; simpl; intros H;
    [reflexivity | reflexivity | lia].
Qed.

Lemma for_each_length {A B} (f : A → result B) (l : list A) (l' : list B) :
  for_each f l = Ok l' → length l' = length l.
Proof.
  revert l'. induction l as [|x l IH]; intros l' H; simpl in H.
  - now injection H as <-.
  - destruct (f x) as [y|e]; simpl in H; [|discriminate].
    destruct (for_each f l) as [ys|e]; simpl in H; [|discriminate].
    injection H as <-. simpl. now rewrite (IH ys).
Qed.

Lemma extract_docx_table_short (table : Table) :
  (length table < 2)%nat → extract_docx_table table = "".
Proof.
  intros H. unfold extract_docx_table.
  destruct (for_each _ table) as [table_data|e] eqn:Hrows; [|reflexivity].
  apply for_each_length in Hrows. cbn -[Nat.leb table_to_markdown].
  destruct (2 <=? length table_data)%nat eqn:Hlen; [|reflexivity].
  apply Nat.leb_le in Hlen. lia.
Qed.

(** C6, as stated, fails in its last part: a table of one row between two
    paragraphs yields no section of its own, yet it changes the section
    sequence, which has two text sections with it and one without it. *)
Lemma short_table_still_splits_text :
  section_texts (extract_content_from_docx "a.docx" (Ok body_with_short_table))
    = ["A"; "B"] ∧
  section_texts (extract_content_from_docx "a.docx" (Ok body_without_table))
    = ["A" +:+ nl +:+ nl +:+ "B"] ∧
  section_texts (extract_content_from_docx "a.docx" (Ok body_with_short_table))
    ≠ section_texts (extract_content_from_docx "a.docx" (Ok body_without_table)).
Proof. split; [reflexivity|]. split; [reflexivity|]. vm_compute. discriminate. Qed.

(** C6, amended: for every table with fewer than two rows [table_to_markdown]
    (on any table data of that many rows) and [extract_docx_table] return
    the empty string, and the extractor adds no table section for it and
    does not advance the table count: all the table element does is to
    close the run of text collected before it, which becomes a text section
    of its own; only when no text is pending is the state of the walk
    unchanged. *)
Theorem short_table_is_dropped (table : Table) (st : walk_state)
    (Hshort : (length table < 2)%nat) :
  (∀ table_data : list (list pyval),
     length table_data = length table → table_to_markdown table_data = "") ∧
  extract_docx_table table = "" ∧
  walk_step st (CT_Tbl table) = Ok (save_text_before_table st) ∧
  table_count (save_text_before_table st) = table_count st ∧
  content_parts (save_text_before_table st) =
    content_parts st ++
      match pending_text st with Some part => [part] | None => [] end ∧
  (∀ part, pending_text st = Some part → part_kind part = text_part) ∧
  (current_section st = [] → walk_step st (CT_Tbl table) = Ok st).
Proof.
  pose proof (extract_docx_table_short table Hshort) as Hempty.
  split.
  { intros table_data Hlen. apply table_to_markdown_short. lia. }
  split; [exact Hempty|].
  assert (Hstep : walk_step st (CT_Tbl table) = Ok (save_text_before_table st)).
  { unfold walk_step. now rewrite Hempty. }
  split; [exact Hstep|]. split.
  { unfold save_text_before_table.
    destruct (current_section st); [reflexivity|].
    destruct (pending_text st); reflexivity. }
  split.
  { unfold save_text_before_table, pending_text.
    destruct (current_section st) as [|t ts]; [now rewrite app_nil_r|].
    destruct (negb _); simpl; [reflexivity | now rewrite app_nil_r]. }
  split.
  { unfold pending_text. intros part.
    destruct (current_section st); [discriminate|].
    destruct (negb _); [|discriminate]. now intros [= <-]. }
  intros Hnone. rewrite Hstep. unfold save_text_before_table. now rewrite Hnone.
Qed.

(** A table of one row at the start of a document. *)
Lemma short_table_is_dropped_witness :
  (length [Ok ["only"; "row"]] < 2)%nat ∧
  extract_docx_table [Ok ["only"; "row"]] = "" ∧
  walk_step walk_init (CT_Tbl [Ok ["only"; "row"]]) = Ok walk_init.
Proof.
  assert (H : (length [Ok ["only"; "row"] : result (list string)] < 2)%nat)
    by (simpl; lia).
  split; [exact H|].
  destruct (short_table_is_dropped [Ok ["only"; "row"]] walk_init H)
    as (_ & Hempty & _ & _ & _ & _ & Hsame).
  split; [exact Hempty | exact (Hsame eq_refl)].
Defined.

(** *** C8: a document that cannot be extracted *)

Lemma extraction_raises_empty (file_path : string)
    (opened : result (list body_element)) :
  extraction_raises opened → extract_content_from_docx file_path opened = [].
Proof.
  intros [e He]. unfold extract_content_from_docx.
  destruct opened as [body|e']; [|reflexivity].
  cbn [mbind result_bind] in He |- *.
  now rewrite He.
Qed.

(** What [load_document] returns for an existing directory: the sections of
    its DOCX files, file after file. *)
Lemma load_document_concat (data_path : string)
    (entries : list (string * result (list body_element))) :
  load_document data_path (Some entries) =
    concat (map (fun entry =>
                   extract_content_from_docx (path_join data_path (fst entry)) (snd entry))
                (List.filter (fun entry => is_docx_file (fst entry)) entries)).
Proof.
  unfold load_document.
  set (docx_files := List.filter _ entries).
  set (extract := fun entry : string * result (list body_element) =>
                    extract_content_from_docx (path_join data_path (fst entry)) (snd entry)).
  assert (Hfold : ∀ files documents,
            fold_left
              (fun documents entry =>
                 match extract entry with
                 | [] => documents
                 | _ :: _ => documents ++ extract entry
                 end) files documents
            = documents ++ concat (map extract files)).
  { induction files as [|entry files IH]; intros documents; simpl.
    - now rewrite app_nil_r.
    - rewrite IH. destruct (extract entry); simpl; [reflexivity|].
      now rewrite <- app_assoc. }
  destruct docx_files as [|entry files] eqn:Hfiles; [reflexivity|].
  exact (Hfold (entry :: files) []).
Qed.

Lemma load_document_skips_empty (data_path name : string)
    (opened : result (list body_element))
    (before after : list (string * result (list body_element))) :
  extract_content_from_docx (path_join data_path name) opened = [] →
  load_document data_path (Some (before ++ (name, opened) :: after)) =
    load_document data_path (Some (before ++ after)).
Proof.
  intros Hempty. rewrite !load_document_concat.
  rewrite !List.filter_app. cbn [List.filter fst].
  destruct (is_docx_file name); [|reflexivity].
  rewrite !map_app, !concat_app. cbn [map concat fst snd].
  now rewrite Hempty.
Qed.

Lemma for_each_one_raises {A B} (f : A → result B) (l : list A) :
  Exists (fun x => is_ok (f x) = false) l → ∃ e, for_each f l = Raise e.
Proof.
  intros H. induction H as [x l Hx|x l _ [e IH]]; cbn [for_each].
  - destruct (f x) as [y|e]; [discriminate|]. now exists e.
  - destruct (f x) as [y|e']; [|now exists e']. rewrite IH. now exists e.
Qed.

(** A row that cannot be read costs the table, and nothing else. *)
Lemma bad_row_drops_table (table : Table) (st : walk_state) :
  Exists (fun row => bad_row row = true) table →
  extract_docx_table table = "" ∧
  walk_step st (CT_Tbl table) = Ok (save_text_before_table st).
Proof.
  intros Hbad.
  assert (Hempty : extract_docx_table table = "").
  { destruct (for_each_one_raises
                (fun row : result (list string) =>
                   cells ← row; Ok (map (fun text => PStr (strip text)) cells)) table)
      as [e He].
    { eapply Exists_impl; [exact Hbad|]. now intros [cells|e']. }
    unfold extract_docx_table. now rewrite He. }
  split; [exact Hempty|]. cbn [walk_step]. now rewrite Hempty.
Qed.

Lemma paragraph_step (st : walk_state) (raw : string) :
  walk_step st (CT_P (Ok raw)) =
    Ok (if negb (strip raw =? "")%string then
          {| content_parts := content_parts st;
             current_section := current_section st ++ [strip raw];
             section_num := section_num st;
             table_count := table_count st |}
        else st).
Proof.
  cbn [walk_step mbind result_bind]. now destruct (negb _).
Qed.

(** The walk raises exactly at a paragraph that cannot be read. *)
Lemma walk_raises (body : list body_element) (st : walk_state) :
  (∃ e, walk st body = Raise e) ↔ Exists unreadable body.
Proof.
  revert st. induction body as [|element body IH]; intros st.
  - split; [intros [e He]; discriminate | intros H; inversion H].
  - unfold walk. cbn [for_fold]. rewrite Exists_cons.
    destruct element as [[raw|e]|table|].
    + destruct (walk_step st (CT_P (Ok raw))) as [st1|e] eqn:Hstep;
        [|now rewrite paragraph_step in Hstep].
      cbn [mbind result_bind]. fold (walk st1 body). rewrite IH.
      split; [now right|]. intros [[e He]|H]; [discriminate | exact H].
    + split; [intros _; left; now exists e | intros _; now exists e].
    + destruct (walk_step st (CT_Tbl table)) as [st1|e] eqn:Hstep.
      * cbn [mbind result_bind]. fold (walk st1 body). rewrite IH.
        split; [now right|]. intros [[e He]|H]; [discriminate | exact H].
      * exfalso. cbn [walk_step] in Hstep. now destruct (negb _).
    + cbn [walk_step mbind result_bind]. fold (walk st body). rewrite IH.
      split; [now right|]. intros [[e He]|H]; [discriminate | exact H].
Qed.

Lemma extraction_raises_cases (opened : result (list body_element)) :
  extraction_raises opened ↔
    (∃ e, opened = Raise e) ∨ (∃ body, opened = Ok body ∧ Exists unreadable body).
Proof.
  unfold extraction_raises. destruct opened as [body|e]; cbn [mbind result_bind].
  - rewrite walk_raises. split.
    + intros H. right. now exists body.
    + intros [[e He]|(body' & [= <-] & H)]; [discriminate | exact H].
  - split; [intros _; left; now exists e | intros _; now exists e].
Qed.

(** C8, as stated, fails: reading the second row of the table of
    [body_with_bad_table] raises, the exception is caught inside
    [extract_docx_table], and the extraction of the document does not
    fail: it returns the two text sections around the table. *)
Lemma unreadable_table_keeps_the_sections :
  Exists (fun row => bad_row row = true) table_with_bad_row ∧
  extract_docx_table table_with_bad_row = "" ∧
  ¬ extraction_raises (Ok body_with_bad_table) ∧
  section_texts (extract_content_from_docx "a.docx" (Ok body_with_bad_table))
    = ["A"; "B"] ∧
  extract_content_from_docx "a.docx" (Ok body_with_bad_table) ≠ [].
Proof.
  split; [right; left; reflexivity|].
  split; [vm_compute; reflexivity|].
  split; [intros [e He]; vm_compute in He; discriminate|].
  split; [vm_compute; reflexivity | vm_compute; discriminate].
Qed.

(** C8, amended: the extraction of a document raises exactly when opening
    the file raises or a paragraph of its body cannot be read. When it
    does, [extract_content_from_docx] returns the empty list, and
    [load_document] returns what it returns for the directory without that
    file: the file is skipped and the files before and after it are
    processed as usual. The same holds for every file that yields no
    section. A row that cannot be read does not fail the document: the
    exception is caught inside [extract_docx_table], which returns the
    empty string, and the walk goes on as after a table that is dropped,
    with the text before the table saved. *)
Theorem failed_extraction_is_skipped (data_path name : string)
    (opened : result (list body_element))
    (before after : list (string * result (list body_element)))
    (Hfails : extraction_raises opened) :
  (∀ file_path, extract_content_from_docx file_path opened = []) ∧
  load_document data_path (Some (before ++ (name, opened) :: after)) =
    load_document data_path (Some (before ++ after)) ∧
  (∀ name' opened',
     extract_content_from_docx (path_join data_path name') opened' = [] →
     load_document data_path (Some (before ++ (name', opened') :: after)) =
       load_document data_path (Some (before ++ after))) ∧
  (∀ opened',
     extraction_raises opened' ↔
       (∃ e, opened' = Raise e) ∨
       (∃ body, opened' = Ok body ∧ Exists unreadable body)) ∧
  (∀ table st,
     Exists (fun row => bad_row row = true) table →
     extract_docx_table table = "" ∧
     walk_step st (CT_Tbl table) = Ok (save_text_before_table st)).
Proof.
  split; [intros file_path; now apply extraction_raises_empty|].
  split; [apply load_document_skips_empty; now apply extraction_raises_empty|].
  split; [intros name' opened'; apply load_document_skips_empty|].
  split; [apply extraction_raises_cases | apply bad_row_drops_table].
Qed.

(** A directory of three files, the second of which cannot be read. *)
Lemma failed_extraction_is_skipped_witness :
  extraction_raises (Ok body_with_bad_paragraph) ∧
  extract_content_from_docx "/kb/b.docx" (Ok body_with_bad_paragraph) = [] ∧
  section_texts
    (load_document "/kb"
       (Some ([("a.docx", Ok body_of_one_paragraph)]
                ++ ("b.docx", Ok body_with_bad_paragraph)
                :: [("c.docx", Ok body_of_one_paragraph)])))
    = ["B"; "B"].
Proof.
  assert (H : extraction_raises (Ok body_with_bad_paragraph)).
  { exists (OtherError "bad run"). reflexivity. }
  split; [exact H|].
  destruct (failed_extraction_is_skipped "/kb" "b.docx" _
              [("a.docx", Ok body_of_one_paragraph)]
              [("c.docx", Ok body_of_one_paragraph)] H) as (Hnone & Hskip & _).
  split; [apply Hnone|].
  rewrite Hskip. reflexivity.
Defined.

End Extractor.

(* ===================================================================== *)
(** ** The metadata normalizer *)
(* ===================================================================== *)

Module Normalizer.
Import Py DocxLoader LoadData Props.

Lemma for_fold_ok {A S} (f : S → A → result S) (g : S → A → S) :
  (∀ s x, f s x = Ok (g s x)) →
  ∀ l s, for_fold f s l = Ok (fold_left g l s).
Proof.
  intros Hfg. induction l as [|x l IH]; intros s; simpl; [reflexivity|].
  rewrite Hfg. cbn [mbind result_bind]. apply IH.
Qed.

(** One turn of the loop: it raises at an object that cannot be printed
    and stores the cleaned value of any other. *)
Lemma clean_key_cases (metadata : gmap string pyobject) (acc : gmap string pyval)
    (key : string) :
  clean_key metadata acc key =
    match metadata !! key with
    | Some (Unprintable raised) => Raise raised
    | _ =>
        Ok match printable_part metadata !! key with
           | Some value => <[key := cleaned_value value]> acc
           | None => acc
           end
    end.
Proof.
  unfold clean_key, contains, getitem, cleaned_value, printable_part.
  rewrite lookup_omap.
  destruct (metadata !! key) as [[value|raised]|]; cbn [mbind result_bind option_bind];
    try reflexivity.
  now destruct value.
Qed.

(** The loop: it raises the exception of the first object that cannot be
    printed, and returns the cleaned mapping when there is none. *)
Lemma clean_fold_cases (metadata : gmap string pyobject) (keys : list string)
    (acc : gmap string pyval) :
  for_fold (clean_key metadata) acc keys =
    match first_unprintable metadata keys with
    | Some raised => Raise raised
    | None =>
        Ok (fold_left
              (fun acc key =>
                 match printable_part metadata !! key with
                 | Some value => <[key := cleaned_value value]> acc
                 | None => acc
                 end)
              keys acc)
    end.
Proof.
  revert acc. induction keys as [|key keys IH]; intros acc; [reflexivity|].
  cbn [for_fold first_unprintable fold_left]. rewrite clean_key_cases.
  destruct (metadata !! key) as [[value|raised]|]; cbn [mbind result_bind];
    try reflexivity; apply IH.
Qed.

Lemma clean_metadata_cases (metadata : gmap string pyobject) :
  clean_metadata metadata =
    match first_unprintable metadata keep_keys with
    | Some raised => Raise raised
    | None => Ok (cleaned (printable_part metadata))
    end.
Proof. apply clean_fold_cases. Qed.


Lemma first_unprintable_None (metadata : gmap string pyobject) (keys : list string) :
  first_unprintable metadata keys = None ↔
    ∀ key raised, key ∈ keys → metadata !! key ≠ Some (Unprintable raised).
Proof.
  induction keys as [|key keys IH]; cbn [first_unprintable].
  - split; [|reflexivity]. intros _ key raised Hin. now apply elem_of_nil in Hin.
  - split.
    + intros H key' raised Hin Hkey'. apply elem_of_cons in Hin as [->|Hin].
      * rewrite Hkey' in H. discriminate.
      * destruct (metadata !! key) as [[value|raised']|]; try discriminate;
          exact (proj1 IH H key' raised Hin Hkey').
    + intros H. destruct (metadata !! key) as [[value|raised]|] eqn:Hkey.
      * apply IH. intros key' raised Hin. apply H. now right.
      * exfalso. apply (H key raised); [now left | exact Hkey].
      * apply IH. intros key' raised Hin. apply H. now right.
Qed.

Lemma printable_part_objects (metadata : gmap string pyval) :
  printable_part (objects metadata) = metadata.
Proof.
  unfold printable_part, objects. apply map_eq. intros key.
  rewrite lookup_omap, lookup_fmap. now destruct (metadata !! key).
Qed.

(** On the metadata of a [Document], [clean_metadata] never raises. *)
Lemma clean_metadata_ok (metadata : gmap string pyval) :
  clean_metadata (objects metadata) = Ok (cleaned metadata).
Proof.
  rewrite clean_metadata_cases.
  replace (first_unprintable (objects metadata) keep_keys) with (@None exn).
  - now rewrite printable_part_objects.
  - symmetry. apply first_unprintable_None. intros key raised _.
    unfold objects. rewrite lookup_fmap. now destruct (metadata !! key).
Qed.

Lemma cleaned_fold_lookup (metadata : gmap string pyval) (keys : list string)
    (acc : gmap string pyval) (key : string) :
  fold_left
    (fun acc key =>
       match metadata !! key with
       | Some value => <[key := cleaned_value value]> acc
       | None => acc
       end) keys acc !! key =
  match (if decide (key ∈ keys) then metadata !! key else None) with
  | Some value => Some (cleaned_value value)
  | None => acc !! key
  end.
Proof.
  revert acc. induction keys as [|k keys IH]; intros acc; cbn [fold_left].
  - rewrite decide_False by apply not_elem_of_nil. reflexivity.
  - rewrite IH. destruct (decide (key ∈ keys)) as [Hin|Hnin].
    + rewrite decide_True by (now right).
      destruct (metadata !! key) as [value|] eqn:Hkey; [reflexivity|].
      destruct (decide (k = key)) as [->|Hne].
      * now rewrite Hkey.
      * destruct (metadata !! k); [|reflexivity]. now rewrite lookup_insert_ne.
    + destruct (decide (k = key)) as [->|Hne].
      * rewrite decide_True by (now left).
        destruct (metadata !! key) as [value|]; [|reflexivity].
        now rewrite lookup_insert_eq.
      * rewrite decide_False by (rewrite elem_of_cons; intros [?|?]; congruence).
        destruct (metadata !! k); [|reflexivity]. now rewrite lookup_insert_ne.
Qed.

Lemma cleaned_lookup (metadata : gmap string pyval) (key : string) :
  cleaned metadata !! key =
    if decide (key ∈ keep_keys) then cleaned_value <$> metadata !! key else None.
Proof.
  unfold cleaned. rewrite cleaned_fold_lookup.
  destruct (decide (key ∈ keep_keys)); [|reflexivity].
  now destruct (metadata !! key).
Qed.



End Normalizer.

(* ===================================================================== *)
(** ** The deterministic ID assigner *)
(* ===================================================================== *)

Module IdAssigner.
Import Py DocxLoader LoadData Props StringFacts.

(** *** The loop, on page identities *)

Lemma assign_ids_numbered (st : id_state) (chunks : list Document) :
  assigned_ids (assign_ids st chunks) =
    map id_value (numbered (last_page_id st) (current_chunk_index st) (page_ids chunks)).
Proof.
  revert st. induction chunks as [|chunk chunks IH]; intros st; [reflexivity|].
  cbn [assign_ids assign_id assigned_ids page_ids map numbered].
  f_equal.
  - cbn [with_metadata metadata]. rewrite lookup_insert_eq. reflexivity.
  - apply IH.
Qed.

Lemma calculate_chunk_ids_numbered (chunks : list Document) :
  assigned_ids (calculate_chunk_ids chunks) =
    map id_value (numbered None 0 (page_ids chunks)).
Proof. apply assign_ids_numbered. Qed.

Lemma numbered_fst (last : option string) (index : Z) (ids : list string) :
  map fst (numbered last index ids) = ids.
Proof.
  revert last index. induction ids as [|p ids IH]; intros last index; simpl;
    [reflexivity | now rewrite IH].
Qed.

(** The text of a chunk ID determines the page identity and the counter. *)
Lemma chunk_id_text_inj (p p' : string) (n n' : Z) :
  chunk_id_text p n = chunk_id_text p' n' → p = p' ∧ n = n'.
Proof.
  unfold chunk_id_text. intros H.
  change (p +:+ String ":" ("chunk_" +:+ str_int n) =
          p' +:+ String ":" ("chunk_" +:+ str_int n')) in H.
  apply split_at_last in H as [Hp Hn].
  - split; [exact Hp|]. injection Hn as Hn. now apply str_int_inj.
  - rewrite occurs_append, str_int_chars; [reflexivity | reflexivity | discriminate].
  - rewrite occurs_append, str_int_chars; [reflexivity | reflexivity | discriminate].
Qed.

#[local] Instance id_value_inj : Inj (=) (=) id_value.
Proof.
  intros [p n] [p' n'] H. unfold id_value in H. cbn [fst snd] in H.
  injection H as H. apply chunk_id_text_inj in H as [-> ->]. reflexivity.
Qed.

(** After a chunk of page identity [p] with counter [n], a later chunk of
    the same identity that only chunks of this identity separate from it
    has a larger counter. *)
Lemma numbered_counter_grows (p : string) (ids : list string) :
  (∀ l1 l2, ids = l1 ++ p :: l2 → Forall (eq p) l1) →
  ∀ n m, (p, m) ∈ numbered (Some p) n ids → n < m.
Proof.
  induction ids as [|q ids IH]; intros Hrun n m Hin.
  - now apply elem_of_nil in Hin.
  - cbn [numbered same_page] in Hin.
    apply elem_of_cons in Hin as [Heq | Hin].
    + injection Heq as <- ->. rewrite String.eqb_refl. lia.
    + destruct (String.eqb_spec q p) as [->|Hne].
      * assert (n + 1 < m); [|lia].
        apply IH; [|exact Hin].
        intros l1 l2 ->. specialize (Hrun (p :: l1) l2 eq_refl).
        now apply Forall_cons_1 in Hrun as [_ Hrun].
      * exfalso.
        assert (Hp : p ∈ ids).
        { rewrite <- (numbered_fst (Some q) 0 ids).
          apply list_elem_of_fmap. now exists (p, m). }
        apply list_elem_of_split in Hp as (l1 & l2 & ->).
        specialize (Hrun (q :: l1) l2 eq_refl).
        apply Forall_cons_1 in Hrun as [Hq _]. congruence.
Qed.

Lemma grouped_tail (p : string) (ids : list string) :
  grouped (p :: ids) → grouped ids.
Proof.
  intros H l1 q l2 l3 ->. exact (H (p :: l1) q l2 l3 eq_refl).
Qed.

(** When equal page identities are adjacent, no (identity, counter) pair is
    given twice. *)
Lemma numbered_NoDup (ids : list string) :
  grouped ids → ∀ last index, NoDup (numbered last index ids).
Proof.
  induction ids as [|p ids IH]; intros Hg last index; cbn [numbered].
  - constructor.
  - apply NoDup_cons. split.
    + intros Hin. apply numbered_counter_grows in Hin; [lia|].
      intros l1 l2 ->. exact (Hg [] p l1 l2 eq_refl).
    + apply IH. now apply grouped_tail in Hg.
Qed.

Lemma grouped_ids_distinct (chunks : list Document) :
  grouped (page_ids chunks) → NoDup (assigned_ids (calculate_chunk_ids chunks)).
Proof.
  intros Hg. rewrite calculate_chunk_ids_numbered.
  apply (NoDup_fmap_2 id_value). now apply numbered_NoDup.
Qed.

(** *** C3: the example of the specification *)

(** C3, as stated, fails: chunks whose metadata is exactly source, page and
    has_table have no file type, and the IDs carry [unknown] where the
    claim has [docx]. *)
Lemma example_ids_without_file_type :
  assigned_ids (calculate_chunk_ids (example_chunks "" "" "")) =
    [ Some (PStr "a.docx:unknown:page_0:chunk_0");
      Some (PStr "a.docx:unknown:page_0:chunk_1");
      Some (PStr "a.docx:unknown:page_1_table:chunk_0") ] ∧
  assigned_ids (calculate_chunk_ids (example_chunks "" "" "")) ≠
    [ Some (PStr "a.docx:docx:page_0:chunk_0");
      Some (PStr "a.docx:docx:page_0:chunk_1");
      Some (PStr "a.docx:docx:page_1_table:chunk_0") ].
Proof. split; [reflexivity | vm_compute; discriminate]. Qed.

(** C3, amended: for the three chunks of the example, whatever their texts,
    the IDs are a.docx:unknown:page_0:chunk_0, a.docx:unknown:page_0:chunk_1
    and a.docx:unknown:page_1_table:chunk_0, in that order; with the entry
    file_type = "docx" added to each chunk they are the IDs of the
    example. *)
Theorem example_ids (t1 t2 t3 : string) :
  assigned_ids (calculate_chunk_ids (example_chunks t1 t2 t3)) =
    [ Some (PStr "a.docx:unknown:page_0:chunk_0");
      Some (PStr "a.docx:unknown:page_0:chunk_1");
      Some (PStr "a.docx:unknown:page_1_table:chunk_0") ] ∧
  assigned_ids (calculate_chunk_ids (example_docx_chunks t1 t2 t3)) =
    [ Some (PStr "a.docx:docx:page_0:chunk_0");
      Some (PStr "a.docx:docx:page_0:chunk_1");
      Some (PStr "a.docx:docx:page_1_table:chunk_0") ].
Proof. split; reflexivity. Qed.

(** *** C4: when the counter resets *)

Lemma numbered_adjacent (p q : string) (ids2 ids1 : list string) :
  ∀ last index, 0 ≤ index →
  ∃ n, 0 ≤ n ∧
    numbered last index (ids1 ++ p :: q :: ids2) !! length ids1 = Some (p, n) ∧
    numbered last index (ids1 ++ p :: q :: ids2) !! S (length ids1) =
      Some (q, if (q =? p)%string then n + 1 else 0).
Proof.
  induction ids1 as [|r ids1 IH]; intros last index Hindex.
  - cbn [app numbered length same_page].
    exists (if same_page p last then index + 1 else 0).
    split; [destruct (same_page p last); lia|]. split; reflexivity.
  - cbn [app numbered length].
    destruct (IH (Some r) (if same_page r last then index + 1 else 0))
      as (n & Hn & H1 & H2); [destruct (same_page r last); lia|].
    exists n. split; [exact Hn|]. split; [exact H1 | exact H2].
Qed.

(** C4, as stated, fails: the two chunks of [colon_chunks] are sorted, their
    composite keys differ (in source and in file type), and the counter of
    the second is 1, not 0. *)
Lemma counter_not_reset_on_key_change :
  sorted_by_key colon_chunks = true ∧
  map (fun chunk => composite_key (metadata chunk)) colon_chunks =
    [ (PStr "a", PStr "b:c", PInt 0, PBool false, PBool false);
      (PStr "a:b", PStr "c", PInt 0, PBool false, PBool false) ] ∧
  (PStr "a", PStr "b:c", PInt 0, PBool false, PBool false)
    ≠ (PStr "a:b", PStr "c", PInt 0, PBool false, PBool false) ∧
  assigned_ids (calculate_chunk_ids colon_chunks) =
    [ Some (PStr "a:b:c:page_0:chunk_0"); Some (PStr "a:b:c:page_0:chunk_1") ].
Proof.
  split; [reflexivity|]. split; [reflexivity|]. split; [discriminate | reflexivity].
Qed.

(** C4, amended: for every input sequence and every two neighbouring chunks
    of it, the counter of the second is one more than the counter [n] of
    the first when their page identities, the strings
    <source>:<file_type>:page_<page>[_table][_ocr], are equal, and 0 when
    they differ; the first chunk of a sequence has counter 0. The page
    identity is a function of the composite key, so an unchanged key always
    increments; a changed key resets only when it prints differently. *)
Theorem counter_follows_page_identity
    (before : list Document) (previous current : Document) (after : list Document) :
  (∃ n : Z, 0 ≤ n ∧
     assigned_ids (calculate_chunk_ids (before ++ previous :: current :: after))
       !! length before
       = Some (Some (PStr (chunk_id_text (current_page_id (metadata previous)) n))) ∧
     assigned_ids (calculate_chunk_ids (before ++ previous :: current :: after))
       !! S (length before)
       = Some (Some (PStr (chunk_id_text (current_page_id (metadata current))
            (if (current_page_id (metadata current)
                   =? current_page_id (metadata previous))%string
             then n + 1 else 0))))) ∧
  assigned_ids (calculate_chunk_ids (current :: after)) !! 0%nat
    = Some (Some (PStr (chunk_id_text (current_page_id (metadata current)) 0))) ∧
  (∀ md, current_page_id md = key_page_id (composite_key md)).
Proof.
  split; [|split; [|reflexivity]].
  - rewrite calculate_chunk_ids_numbered.
    unfold page_ids. rewrite map_app. cbn [map].
    destruct (numbered_adjacent
                (current_page_id (metadata previous))
                (current_page_id (metadata current))
                (map (fun chunk => current_page_id (metadata chunk)) after)
                (map (fun chunk => current_page_id (metadata chunk)) before)
                None 0 ltac:(lia)) as (n & Hn & H1 & H2).
    rewrite length_map in H1, H2.
    exists n. split; [exact Hn|].
    rewrite !list_lookup_fmap, H1, H2. split; reflexivity.
  - rewrite calculate_chunk_ids_numbered. reflexivity.
Qed.

(** *** C1: distinct IDs *)

Lemma ltb_false_antisym (s1 s2 : string) :
  String.ltb s1 s2 = false → String.ltb s2 s1 = false → s1 = s2.
Proof.
  unfold String.ltb. rewrite (String.compare_antisym s1 s2).
  destruct (String.compare s2 s1) eqn:Hcmp; simpl; try discriminate.
  intros _ _. symmetry. now apply String.compare_eq_iff.
Qed.

(** A key that stands between two keys of one (source, page, has_table)
    has that source, page and has_table too. *)
Lemma key_between (sa sc : string) (pa pc : Z) (ta tc : bool) (oa oc ob : Z) :
  key_lt (PStr sc, pc, tc, oc) (PStr sa, pa, ta, oa) = Ok false →
  key_lt (PStr sa, pa, ta, ob) (PStr sc, pc, tc, oc) = Ok false →
  sc = sa ∧ pc = pa ∧ tc = ta.
Proof.
  unfold key_lt, equal, less. intros H1 H2.
  destruct (String.eqb_spec sc sa) as [->|Hs].
  - split; [reflexivity|]. rewrite String.eqb_refl in H2. cbn [negb] in H1, H2.
    destruct (Z.eqb_spec pc pa) as [->|Hp].
    + split; [reflexivity|]. rewrite Z.eqb_refl in H2. cbn [negb] in H1, H2.
      destruct tc, ta; cbn in H1, H2; try reflexivity; discriminate.
    + exfalso. cbn [negb] in H1.
      destruct (Z.eqb_spec pa pc) as [->|_]; [congruence|]. cbn [negb] in H2.
      injection H1 as H1. injection H2 as H2. lia.
  - exfalso. cbn [negb] in H1.
    destruct (String.eqb_spec sa sc) as [->|_]; [congruence|]. cbn [negb] in H2.
    injection H1 as H1. injection H2 as H2.
    apply Hs. now apply ltb_false_antisym.
Qed.

(** The sort key of a chunk whose source is a string and whose page is an
    integer. *)
Lemma typed_sort_key (chunk : Document) (key : pyval * Z * bool * Z) :
  id_typed chunk = true → sort_key chunk = Ok key →
  ∃ page start,
    key = (PStr (src (metadata chunk)), page, tbl (metadata chunk), start) ∧
    page_text (metadata chunk) = str_int page.
Proof.
  unfold id_typed, sort_key, src, page_text, tbl, get.
  intros Htyped Hkey. apply andb_prop in Htyped as [Hsource Hpage].
  destruct (metadata chunk !! "source") as [[| | | |source|]|]; try discriminate.
  destruct (metadata chunk !! "page") as [[| |page| | |]|]; try discriminate;
    cbn [int mbind result_bind] in Hkey.
  - destruct (if negb _ then _ else _) as [start|e]; [|discriminate].
    injection Hkey as <-. now exists page, start.
  - destruct (if negb _ then _ else _) as [start|e]; [|discriminate].
    injection Hkey as <-. now exists 0, start.
Qed.

Lemma sorted_by_key_precedes (l1 l2 : list Document) (a b : Document) :
  sorted_by_key (l1 ++ a :: l2) = true → b ∈ l2 → precedes a b = true.
Proof.
  induction l1 as [|c l1 IH]; cbn [app sorted_by_key]; intros H Hb;
    apply andb_prop in H as [Hhead Htail].
  - rewrite forallb_forall in Hhead. apply Hhead. now apply list_elem_of_In.
  - now apply IH.
Qed.

(** The page identity determines source, page and the two flags, among
    chunks of one file type whose page is an integer. *)
Lemma page_id_inj (md md' : gmap string pyval) (page page' : Z) :
  current_page_id md = current_page_id md' →
  ftype md = ftype md' →
  page_text md = str_int page → page_text md' = str_int page' →
  src md = src md' ∧ page = page' ∧ tbl md = tbl md' ∧ ocr md = ocr md'.
Proof.
  intros Hid Hft Hpage Hpage'.
  change (src md +:+ ":" +:+ ftype md +:+ ":page_" +:+ page_text md
            +:+ (if tbl md then "_table" else "") +:+ (if ocr md then "_ocr" else "")
          = src md' +:+ ":" +:+ ftype md' +:+ ":page_" +:+ page_text md'
            +:+ (if tbl md' then "_table" else "") +:+ (if ocr md' then "_ocr" else ""))
    in Hid.
  rewrite Hpage, Hpage', <- Hft in Hid.
  set (suffix := fun t o : bool =>
         (if t then "_table" else "") +:+ (if o then "_ocr" else "")) in *.
  assert (Hre : ∀ s f rest, s +:+ ":" +:+ f +:+ rest = (s +:+ ":" +:+ f) +:+ rest)
    by (intros; now rewrite !append_assoc).
  rewrite (Hre (src md)), (Hre (src md')) in Hid.
  change ((src md +:+ ":" +:+ ftype md) +:+
            String ":" ("page_" +:+ str_int page +:+ suffix (tbl md) (ocr md))
          = (src md' +:+ ":" +:+ ftype md) +:+
            String ":" ("page_" +:+ str_int page' +:+ suffix (tbl md') (ocr md')))
    in Hid.
  assert (Hcolon : ∀ z t o, occurs ":" ("page_" +:+ str_int z +:+ suffix t o) = false).
  { intros z t o. rewrite !occurs_append, str_int_chars;
      [now destruct t, o | reflexivity | discriminate]. }
  apply split_at_last in Hid as [Hsrc Hrest]; [|apply Hcolon|apply Hcolon].
  apply append_inj_r in Hsrc.
  injection Hrest as Hrest.
  apply (split_at_first "_" (str_int page) (str_int page')
           (suffix (tbl md) (ocr md)) (suffix (tbl md') (ocr md')))
    in Hrest as [Hnum Hsuffix].
  - apply str_int_inj in Hnum.
    split; [exact Hsrc|]. split; [exact Hnum|].
    destruct (tbl md), (tbl md'), (ocr md), (ocr md'); cbn in Hsuffix;
      try discriminate; now split.
  - apply str_int_chars; [reflexivity | discriminate].
  - apply str_int_chars; [reflexivity | discriminate].
  - destruct (tbl md), (ocr md); cbn; eauto.
  - destruct (tbl md'), (ocr md'); cbn; eauto.
Qed.

Lemma page_id_parts (md md' : gmap string pyval) :
  src md = src md' → ftype md = ftype md' → page_text md = page_text md' →
  tbl md = tbl md' → ocr md = ocr md' →
  current_page_id md = current_page_id md'.
Proof.
  intros Hsrc Hft Hpage Htbl Hocr.
  change (src md +:+ ":" +:+ ftype md +:+ ":page_" +:+ page_text md
            +:+ (if tbl md then "_table" else "") +:+ (if ocr md then "_ocr" else "")
          = src md' +:+ ":" +:+ ftype md' +:+ ":page_" +:+ page_text md'
            +:+ (if tbl md' then "_table" else "") +:+ (if ocr md' then "_ocr" else "")).
  now rewrite Hsrc, Hft, Hpage, Htbl, Hocr.
Qed.

(** Among chunks of one file type whose pages are integers, the page
    identity changes exactly when source, page, has_table (as a truth
    value) or used_ocr (as a truth value) changes. *)
Lemma typed_page_identity (md md' : gmap string pyval) (page page' : Z) :
  ftype md = ftype md' →
  page_text md = str_int page → page_text md' = str_int page' →
  current_page_id md = current_page_id md' ↔
    src md = src md' ∧ page = page' ∧ tbl md = tbl md' ∧ ocr md = ocr md'.
Proof.
  intros Hft Hpage Hpage'. split.
  - intros Hid. now apply page_id_inj.
  - intros (Hsrc & -> & Htbl & Hocr). apply page_id_parts; congruence.
Qed.

Lemma precedes_inv (a b : Document) :
  precedes a b = true →
  ∃ ka kb, sort_key a = Ok ka ∧ sort_key b = Ok kb ∧ key_lt kb ka = Ok false.
Proof.
  unfold precedes. intros H.
  destruct (sort_key a) as [ka|]; [|discriminate].
  destruct (sort_key b) as [kb|]; [|discriminate].
  destruct (key_lt kb ka) as [[|]|] eqn:Hlt; try discriminate.
  exists ka, kb. repeat split. exact Hlt.
Qed.

Lemma pairwise_true {A} (test : A → A → bool) (l : list A) (a b : A) :
  forallb (fun a => forallb (fun b => test a b) l) l = true →
  a ∈ l → b ∈ l → test a b = true.
Proof.
  intros H Ha Hb. rewrite forallb_forall in H.
  specialize (H a (proj1 (list_elem_of_In _ _) Ha)).
  rewrite forallb_forall in H. apply H. now apply list_elem_of_In.
Qed.

(** In a sorted list of chunks of one file type, with string sources and
    integer pages and with used_ocr fixed by the section, equal page
    identities are adjacent. *)
Lemma typed_sorted_grouped (chunks : list Document) :
  forallb id_typed chunks = true →
  sorted_by_key chunks = true →
  same_file_type chunks = true →
  ocr_by_section chunks = true →
  grouped (page_ids chunks).
Proof.
  intros Htyped Hsorted Hft Hocr l1 p l2 l3 Heq. unfold page_ids in Heq.
  apply fmap_app_inv in Heq as (L1 & R & -> & HR & ->).
  symmetry in HR. apply fmap_cons_inv in HR as (a & R' & -> & HR' & ->).
  symmetry in HR'. apply fmap_app_inv in HR' as (L2 & R2 & -> & HR2 & ->).
  symmetry in HR2. apply fmap_cons_inv in HR2 as (b & L3 & Hab & -> & ->).
  apply Forall_fmap, Forall_forall. intros c Hc. cbn [compose].
  set (chunks := L1 ++ a :: L2 ++ b :: L3) in *.
  assert (Ha : a ∈ chunks) by (unfold chunks; member).
  assert (Hb : b ∈ chunks) by (unfold chunks; member).
  assert (Hc' : c ∈ chunks) by (unfold chunks; member).
  assert (Hty : ∀ x, x ∈ chunks → id_typed x = true).
  { intros x Hx. rewrite forallb_forall in Htyped. apply Htyped.
    now apply list_elem_of_In. }
  assert (Hac : precedes a c = true).
  { apply (sorted_by_key_precedes L1 (L2 ++ b :: L3)); [exact Hsorted | member]. }
  assert (Hcb : precedes c b = true).
  { apply list_elem_of_split in Hc as (M1 & M2 & ->).
    apply (sorted_by_key_precedes (L1 ++ a :: M1) (M2 ++ b :: L3)); [|member].
    unfold chunks in Hsorted. now rewrite <- !app_assoc in *. }
  apply precedes_inv in Hac as (ka & kc & Hka & Hkc & Hlt1).
  apply precedes_inv in Hcb as (kc' & kb & Hkc' & Hkb & Hlt2).
  rewrite Hkc in Hkc'. injection Hkc' as <-.
  destruct (typed_sort_key a ka (Hty a Ha) Hka) as (pa & oa & -> & Hpa).
  destruct (typed_sort_key b kb (Hty b Hb) Hkb) as (pb & ob & -> & Hpb).
  destruct (typed_sort_key c kc (Hty c Hc') Hkc) as (pc & oc & -> & Hpc).
  assert (Hftab : ftype (metadata a) = ftype (metadata b)).
  { apply String.eqb_eq.
    exact (pairwise_true (fun a b => (ftype (metadata a) =? ftype (metadata b))%string)
             chunks a b Hft Ha Hb). }
  assert (Hftac : ftype (metadata a) = ftype (metadata c)).
  { apply String.eqb_eq.
    exact (pairwise_true (fun a b => (ftype (metadata a) =? ftype (metadata b))%string)
             chunks a c Hft Ha Hc'). }
  destruct (page_id_inj _ _ pa pb Hab Hftab Hpa Hpb) as (Hsrc & Hpage & Htbl & _).
  rewrite <- Hsrc, <- Hpage, <- Htbl in Hlt2.
  destruct (key_between _ _ _ _ _ _ _ _ _ Hlt1 Hlt2) as (Hs & Hp & Ht).
  assert (Hsame : same_section a c = true).
  { unfold same_section. rewrite Hs, Hpa, Hpc, Hp, Ht.
    now rewrite !String.eqb_refl, Bool.eqb_reflx. }
  pose proof (pairwise_true
                (fun a b => implb (same_section a b)
                              (Bool.eqb (ocr (metadata a)) (ocr (metadata b))))
                chunks a c Hocr Ha Hc') as Himp.
  cbn beta in Himp. rewrite Hsame in Himp. cbn [implb] in Himp.
  apply Bool.eqb_prop in Himp.
  apply page_id_parts; try congruence.
Qed.

(** C1, as stated, fails: the three chunks of [ocr_in_the_middle] are sorted
    by (source, page, has_table, start) and their (source, page, has_table,
    used_ocr, start) tuples are distinct, yet the first and the third get
    the same ID. *)
Lemma sorted_distinct_chunks_share_an_id :
  sorted_by_key ocr_in_the_middle = true ∧
  distinct_tuples ocr_in_the_middle = true ∧
  assigned_ids (calculate_chunk_ids ocr_in_the_middle) =
    [ Some (PStr "a.docx:docx:page_0:chunk_0");
      Some (PStr "a.docx:docx:page_0_ocr:chunk_0");
      Some (PStr "a.docx:docx:page_0:chunk_0") ] ∧
  ¬ NoDup (assigned_ids (calculate_chunk_ids ocr_in_the_middle)).
Proof.
  split; [reflexivity|]. split; [reflexivity|].
  assert (Hids : assigned_ids (calculate_chunk_ids ocr_in_the_middle) =
            [ Some (PStr "a.docx:docx:page_0:chunk_0");
              Some (PStr "a.docx:docx:page_0_ocr:chunk_0");
              Some (PStr "a.docx:docx:page_0:chunk_0") ]) by reflexivity.
  split; [exact Hids|]. rewrite Hids. intros Hnodup.
  apply NoDup_cons in Hnodup as [Hnotin _]. apply Hnotin. member.
Qed.

(** C1, amended: for every input sequence that is sorted ascending by
    (source, page, has_table, start), in which every chunk has a distinct
    (source, page, has_table, used_ocr, start) tuple, the sources are
    strings and the pages integers, and in which moreover all chunks have
    one file type and chunks of one (source, page, has_table) agree on
    used_ocr, the IDs assigned by [calculate_chunk_ids] are pairwise
    distinct. *)
Theorem sorted_chunks_get_distinct_ids (chunks : list Document)
    (Htyped : forallb id_typed chunks = true)
    (Hsorted : sorted_by_key chunks = true)
    (Hdistinct : distinct_tuples chunks = true)
    (Hfile_type : same_file_type chunks = true)
    (Hocr : ocr_by_section chunks = true) :
  NoDup (assigned_ids (calculate_chunk_ids chunks)).
Proof.
  apply grouped_ids_distinct. now apply typed_sorted_grouped.
Qed.

(** The chunks of two sections of one file. *)
Lemma sorted_chunks_get_distinct_ids_witness :
  forallb id_typed split_chunks = true ∧
  sorted_by_key split_chunks = true ∧
  distinct_tuples split_chunks = true ∧
  same_file_type split_chunks = true ∧
  ocr_by_section split_chunks = true ∧
  NoDup (assigned_ids (calculate_chunk_ids split_chunks)).
Proof.
  do 5 (split; [reflexivity|]).
  apply (sorted_chunks_get_distinct_ids split_chunks); reflexivity.
Defined.

End IdAssigner.

(* ===================================================================== *)
(** ** Facts about the stable sort *)
(* ===================================================================== *)

Module SortFacts.
Import Py Props.

Section StableSort.
Context {A K : Type}.
Variable key_lt : K → K → result bool.

(** The keys in play, on which [<] is a strict weak order: asymmetric, and
    with a transitive "not greater". *)
Variable P : K → Prop.
Hypothesis lt_asym : ∀ a b, P a → P b →
  ltb key_lt a b = true → ltb key_lt b a = false.
Hypothesis le_trans : ∀ a b c, P a → P b → P c →
  ltb key_lt b a = false → ltb key_lt c b = false → ltb key_lt c a = false.

Local Abbreviation tie := (Props.tie key_lt).

Lemma lt_irrefl (a : K) : P a → ltb key_lt a a = false.
Proof.
  intros Ha. destruct (ltb key_lt a a) eqn:E; [|reflexivity].
  rewrite <- E. now apply lt_asym.
Qed.

Lemma tie_refl (x : K * A) : P (fst x) → tie x x.
Proof. intros Hx. split; now apply lt_irrefl. Qed.

Lemma tie_sym (x y : K * A) : tie x y → tie y x.
Proof. intros [H1 H2]. now split. Qed.

Lemma tie_trans (x y z : K * A) :
  P (fst x) → P (fst y) → P (fst z) → tie x y → tie y z → tie x z.
Proof.
  intros Hx Hy Hz [Hxy Hyx] [Hyz Hzy]. split.
  - now apply (le_trans (fst z) (fst y) (fst x)).
  - now apply (le_trans (fst x) (fst y) (fst z)).
Qed.

(** Tied entries compare alike with everything. *)
Lemma lt_tie (x x' y y' : K * A) :
  P (fst x) → P (fst x') → P (fst y) → P (fst y') →
  tie x x' → tie y y' →
  ltb key_lt (fst y) (fst x) = ltb key_lt (fst y') (fst x').
Proof.
  intros Hx Hx' Hy Hy' [Hxx' Hx'x] [Hyy' Hy'y].
  destruct (ltb key_lt (fst y) (fst x)) eqn:E1,
           (ltb key_lt (fst y') (fst x')) eqn:E2; try reflexivity; exfalso.
  - assert (ltb key_lt (fst y) (fst x) = false); [|congruence].
    apply (le_trans (fst x) (fst x') (fst y)); try assumption.
    apply (le_trans (fst x') (fst y') (fst y)); assumption.
  - assert (ltb key_lt (fst y') (fst x') = false); [|congruence].
    apply (le_trans (fst x') (fst x) (fst y')); try assumption.
    apply (le_trans (fst x) (fst y) (fst y')); assumption.
Qed.

Lemma insert_by_Forall (Q : K * A → Prop) (x : K * A) (l : list (K * A)) :
  Q x → Forall Q l → Forall Q (insert_by key_lt x l).
Proof.
  intros Hx Hl. induction Hl as [|y l Hy Hl IH]; cbn [insert_by].
  - now repeat constructor.
  - destruct (ltb key_lt (fst y) (fst x)); repeat constructor; assumption.
Qed.

Lemma sort_by_Forall (Q : K * A → Prop) (l : list (K * A)) :
  Forall Q l → Forall Q (sort_by key_lt l).
Proof.
  intros Hl. induction Hl as [|x l Hx Hl IH]; cbn [sort_by]; [constructor|].
  now apply insert_by_Forall.
Qed.

Lemma Forall2_tie_refl (l : list (K * A)) :
  Forall (fun x => P (fst x)) l → Forall2 tie l l.
Proof.
  intros Hl. induction Hl as [|x l Hx Hl IH]; constructor;
    [now apply tie_refl | assumption].
Qed.

Lemma Forall2_tie_trans (l1 l2 l3 : list (K * A)) :
  Forall (fun x => P (fst x)) l1 → Forall (fun x => P (fst x)) l2 →
  Forall (fun x => P (fst x)) l3 →
  Forall2 tie l1 l2 → Forall2 tie l2 l3 → Forall2 tie l1 l3.
Proof.
  intros H1 H2 H3 H12. revert l3 H3.
  induction H12 as [|x y l1 l2 Hxy H12 IH]; intros l3 H3 H23.
  - inversion H23. constructor.
  - inversion H23 as [|y' z l2' l3' Hyz H23' E1 E2]; subst.
    apply Forall_cons_1 in H1 as [Hx H1].
    apply Forall_cons_1 in H2 as [Hy H2].
    apply Forall_cons_1 in H3 as [Hz H3].
    constructor; [now apply (tie_trans x y z) | now apply IH].
Qed.

(** Inserting tied entries into tied lists gives tied lists. *)
Lemma insert_by_tie (x x' : K * A) (l l' : list (K * A)) :
  P (fst x) → P (fst x') → tie x x' →
  Forall (fun x => P (fst x)) l → Forall (fun x => P (fst x)) l' →
  Forall2 tie l l' →
  Forall2 tie (insert_by key_lt x l) (insert_by key_lt x' l').
Proof.
  intros Hx Hx' Hxx' Hl Hl' Hll'.
  induction Hll' as [|y y' l l' Hyy' Hll' IH]; cbn [insert_by].
  - constructor; [exact Hxx' | constructor].
  - apply Forall_cons_1 in Hl as [Hy Hl]. apply Forall_cons_1 in Hl' as [Hy' Hl'].
    rewrite (lt_tie x x' y y') by assumption.
    destruct (ltb key_lt (fst y') (fst x')).
    + constructor; [assumption | now apply IH].
    + constructor; [exact Hxx'|]. constructor; assumption.
Qed.

(** The order in which two entries are inserted matters up to ties only. *)
Lemma insert_by_swap (x y : K * A) (l : list (K * A)) :
  P (fst x) → P (fst y) → Forall (fun x => P (fst x)) l →
  Forall2 tie (insert_by key_lt x (insert_by key_lt y l))
              (insert_by key_lt y (insert_by key_lt x l)).
Proof.
  intros Hx Hy Hl.
  assert (Hends : ∀ l, Forall (fun x => P (fst x)) l →
            Forall2 tie
              (if ltb key_lt (fst y) (fst x) then y :: x :: l else x :: y :: l)
              (if ltb key_lt (fst x) (fst y) then x :: y :: l else y :: x :: l)).
  { intros l0 Hl0.
    destruct (ltb key_lt (fst y) (fst x)) eqn:Eyx.
    - rewrite (lt_asym _ _ Hy Hx Eyx).
      apply Forall2_tie_refl. now repeat constructor.
    - destruct (ltb key_lt (fst x) (fst y)) eqn:Exy.
      + apply Forall2_tie_refl. now repeat constructor.
      + constructor; [now split|]. constructor; [now split|].
        now apply Forall2_tie_refl. }
  induction Hl as [|z l Hz Hl IH].
  - cbn [insert_by]. apply (Hends []). constructor.
  - cbn [insert_by].
    destruct (ltb key_lt (fst z) (fst y)) eqn:Ezy,
             (ltb key_lt (fst z) (fst x)) eqn:Ezx; cbn [insert_by];
      rewrite ?Ezy, ?Ezx.
    + constructor; [now apply tie_refl | exact IH].
    + (* x is not above z, and z is below y: x is below y *)
      assert (Exy : ltb key_lt (fst x) (fst y) = true).
      { destruct (ltb key_lt (fst x) (fst y)) eqn:E; [reflexivity|].
        assert (ltb key_lt (fst z) (fst y) = false); [|congruence].
        now apply (le_trans (fst y) (fst x) (fst z)). }
      rewrite Exy. cbn [insert_by]. rewrite ?Ezy.
      apply Forall2_tie_refl. repeat constructor; try assumption.
      now apply insert_by_Forall.
    + assert (Eyx : ltb key_lt (fst y) (fst x) = true).
      { destruct (ltb key_lt (fst y) (fst x)) eqn:E; [reflexivity|].
        assert (ltb key_lt (fst z) (fst x) = false); [|congruence].
        now apply (le_trans (fst x) (fst y) (fst z)). }
      rewrite Eyx. cbn [insert_by]. rewrite ?Ezx.
      apply Forall2_tie_refl. repeat constructor; try assumption.
      now apply insert_by_Forall.
    + apply (Hends (z :: l)). now constructor.
Qed.

(** The sort rearranges its input and leaves a sorted input as it is, ties
    included. *)
Lemma insert_by_perm (x : K * A) (l : list (K * A)) :
  insert_by key_lt x l ≡ₚ x :: l.
Proof.
  induction l as [|y l IH]; cbn [insert_by]; [reflexivity|].
  destruct (ltb key_lt (fst y) (fst x)); [|reflexivity].
  rewrite IH. apply perm_swap.
Qed.

Lemma sort_by_perm (l : list (K * A)) : sort_by key_lt l ≡ₚ l.
Proof.
  induction l as [|x l IH]; cbn [sort_by]; [reflexivity|].
  now rewrite insert_by_perm, IH.
Qed.

Lemma sort_by_sorted_input (l : list (K * A)) :
  StronglySorted (fun x y => ltb key_lt (fst y) (fst x) = false) l →
  sort_by key_lt l = l.
Proof.
  intros H. induction H as [|x l Hl IH Hx]; [reflexivity|].
  cbn [sort_by]. rewrite IH.
  destruct Hx as [|y l Hy _]; cbn [insert_by]; [reflexivity|].
  now rewrite Hy.
Qed.

(** Sorting two permutations of a list gives the same list up to ties. *)
Lemma sort_by_perm_tie (l1 l2 : list (K * A)) :
  l1 ≡ₚ l2 → Forall (fun x => P (fst x)) l1 →
  Forall2 tie (sort_by key_lt l1) (sort_by key_lt l2).
Proof.
  intros Hperm. induction Hperm as [|x l l' Hperm IH|x y l|l l' l'' H1 IH1 H2 IH2];
    intros HP.
  - constructor.
  - apply Forall_cons_1 in HP as [Hx Hl]. cbn [sort_by].
    assert (Hl' : Forall (fun x => P (fst x)) l') by now rewrite <- Hperm.
    apply insert_by_tie; try assumption.
    + now apply tie_refl.
    + now apply sort_by_Forall.
    + now apply sort_by_Forall.
    + now apply IH.
  - apply Forall_cons_1 in HP as [Hy HP]. apply Forall_cons_1 in HP as [Hx Hl].
    cbn [sort_by]. apply insert_by_swap; try assumption.
    now apply sort_by_Forall.
  - assert (HP' : Forall (fun x => P (fst x)) l') by now rewrite <- H1.
    assert (HP'' : Forall (fun x => P (fst x)) l'') by now rewrite <- H2.
    apply (Forall2_tie_trans _ (sort_by key_lt l')); try (now apply sort_by_Forall).
    + now apply IH1.
    + now apply IH2.
Qed.

End StableSort.

End SortFacts.

(* ===================================================================== *)
(** ** The order of the sort keys *)
(* ===================================================================== *)

Module KeyOrder.
Import Py LoadData Props.

Lemma lex_total_order {A B} (ca : A → A → comparison) (cb : B → B → comparison) :
  total_order ca → total_order cb → total_order (lex ca cb).
Proof.
  intros [ra ea oa ta] [rb eb ob tb]. split.
  - intros [a b]. unfold lex. cbn [fst snd]. now rewrite ra.
  - intros [a b] [a' b']. unfold lex. cbn [fst snd].
    destruct (ca a a') eqn:E; try discriminate.
    intros Hb. now rewrite (ea _ _ E), (eb _ _ Hb).
  - intros [a b] [a' b']. unfold lex. cbn [fst snd].
    rewrite (oa a a'). destruct (ca a a'); cbn [CompOpp]; [apply ob | reflexivity..].
  - intros [a b] [a' b'] [a'' b'']. unfold lex. cbn [fst snd].
    destruct (ca a a') eqn:E1; try discriminate;
      destruct (ca a' a'') eqn:E2; try discriminate; intros H1 H2.
    + apply ea in E1, E2. subst. rewrite ra. now apply (tb b b' b'').
    + apply ea in E1. subst. now rewrite E2.
    + apply ea in E2. subst. now rewrite E1.
    + now rewrite (ta _ _ _ E1 E2).
Qed.

Lemma string_compare_refl (s : string) : String.compare s s = Eq.
Proof.
  pose proof (String.compare_antisym s s) as H.
  destruct (String.compare s s); cbn in H; congruence.
Qed.

Lemma string_total_order : total_order String.compare.
Proof.
  split.
  - apply string_compare_refl.
  - apply String.compare_eq_iff.
  - intros a b. apply String.compare_antisym.
  - intros a b c H1 H2.
    apply OrderedTypeEx.String_as_OT.cmp_lt in H1, H2.
    apply OrderedTypeEx.String_as_OT.cmp_lt.
    now apply (OrderedTypeEx.String_as_OT.lt_trans a b c).
Qed.

Lemma Z_total_order : total_order Z.compare.
Proof.
  split.
  - apply Z.compare_refl.
  - apply Z.compare_eq.
  - intros a b. apply Z.compare_antisym.
  - intros a b c H1 H2. rewrite Z.compare_lt_iff in *. lia.
Qed.

Lemma bool_total_order : total_order Bool.compare.
Proof.
  split.
  - now intros [|].
  - now intros [|] [|].
  - now intros [|] [|].
  - now intros [|] [|] [|].
Qed.

Lemma key_total_order : total_order key_compare.
Proof.
  unfold key_compare. repeat apply lex_total_order;
    auto using string_total_order, Z_total_order, bool_total_order.
Qed.

(** On keys whose source is a string, [key_lt] never raises and is the
    strict part of [key_compare]. *)
Lemma key_lt_compare (s s' : string) (p p' : Z) (t t' : bool) (o o' : Z) :
  key_lt (PStr s, p, t, o) (PStr s', p', t', o') =
    Ok match key_compare (s, p, t, o) (s', p', t', o') with
       | Lt => true
       | _ => false
       end.
Proof.
  unfold key_lt, equal, less, key_compare, lex. cbn [fst snd].
  destruct (String.eqb_spec s s') as [->|Hs]; cbn [negb].
  - rewrite string_compare_refl.
    destruct (Z.eqb_spec p p') as [->|Hp]; cbn [negb].
    + rewrite Z.compare_refl.
      destruct t, t'; cbn; try reflexivity; unfold Z.ltb; now destruct (o ?= o').
    + unfold Z.ltb. destruct (p ?= p') eqn:E; try reflexivity.
      apply Z.compare_eq in E. congruence.
  - unfold String.ltb. destruct (String.compare s s') eqn:E; try reflexivity.
    apply String.compare_eq_iff in E. congruence.
Qed.

Lemma key_lt_asym (a b : pyval * Z * bool * Z) :
  string_keyed a → string_keyed b →
  ltb key_lt a b = true → ltb key_lt b a = false.
Proof.
  intros (s & p & t & o & ->) (s' & p' & t' & o' & ->). unfold ltb.
  rewrite !key_lt_compare.
  rewrite (cmp_opp _ key_total_order (s, p, t, o) (s', p', t', o')).
  now destruct (key_compare (s, p, t, o) (s', p', t', o')).
Qed.

Lemma key_le_trans (a b c : pyval * Z * bool * Z) :
  string_keyed a → string_keyed b → string_keyed c →
  ltb key_lt b a = false → ltb key_lt c b = false → ltb key_lt c a = false.
Proof.
  intros (s & p & t & o & ->) (s' & p' & t' & o' & ->) (s'' & p'' & t'' & o'' & ->).
  unfold ltb. rewrite !key_lt_compare.
  generalize (s, p, t, o) (s', p', t', o') (s'', p'', t'', o'').
  clear. intros a b c.
  pose proof key_total_order as [r e op tr].
  rewrite (op a b), (op b c), (op a c).
  destruct (key_compare a b) eqn:E1; cbn [CompOpp]; try discriminate;
    destruct (key_compare b c) eqn:E2; cbn [CompOpp]; try discriminate; intros _ _.
  - apply e in E1, E2. subst b c. now rewrite r.
  - apply e in E1. subst b. now rewrite E2.
  - apply e in E2. subst c. now rewrite E1.
  - now rewrite (tr _ _ _ E1 E2).
Qed.

End KeyOrder.

(* ===================================================================== *)
(** ** The order of the sort keys whose sources are of one kind *)
(* ===================================================================== *)

Module SourceOrder.
Import Py DocxLoader LoadData Props KeyOrder.

(** The kinds of values that [<] relates among themselves: numbers
    ([bool], [int] and [float] other than not-a-number) and strings;
    [None] is equal to itself only, and so is an object to the objects that
    print alike. *)
Inductive source_kind : Set := KNone | KNumber | KString | KObject (text : string).

Definition kind_of (v : pyval) : option source_kind :=
  match v with
  | PNone => Some KNone
  | PStr _ => Some KString
  | PObj text _ => Some (KObject text)
  | _ => match num_of v with
         | Some NNan | None => None
         | Some _ => Some KNumber
         end
  end.

(** A comparison of two numbers neither of which is not-a-number. *)
Definition num_cmp (a b : num) : comparison :=
  match num_compare a b with Some c => c | None => Eq end.

(** The comparison that [==] and [<] implement on values of one kind. *)
Definition source_cmp (a b : pyval) : comparison :=
  match a, b with
  | PStr s1, PStr s2 => String.compare s1 s2
  | _, _ =>
      match num_of a, num_of b with
      | Some x, Some y => num_cmp x y
      | _, _ => Eq
      end
  end.

(** The order of the sort keys. *)
Definition key_cmp (source_cmp : pyval → pyval → comparison)
  : pyval * Z * bool * Z → pyval * Z * bool * Z → comparison :=
  lex (lex (lex source_cmp Z.compare) Bool.compare) Z.compare.

(** A comparison function of a total preorder on the values that [D]
    holds of. *)
Record weak_order {A} (D : A → Prop) (cmp : A → A → comparison) : Prop := {
  wo_opp : ∀ a b, D a → D b → cmp b a = CompOpp (cmp a b);
  wo_lt : ∀ a b c, D a → D b → D c → cmp a b = Lt → cmp b c = Lt → cmp a c = Lt;
  wo_eq : ∀ a b c, D a → D b → D c → cmp a b = Eq → cmp a c = cmp b c
}.

Lemma weak_order_not_gt {A} (D : A → Prop) (cmp : A → A → comparison) :
  weak_order D cmp →
  ∀ a b c, D a → D b → D c → cmp a b ≠ Gt → cmp b c ≠ Gt → cmp a c ≠ Gt.
Proof.
  intros [opp lt eq] a b c Ha Hb Hc Hab Hbc.
  destruct (cmp a b) eqn:E1; [| |congruence].
  - now rewrite (eq a b c Ha Hb Hc E1).
  - destruct (cmp b c) eqn:E2; [| |congruence].
    + assert (Hcb : cmp c b = Eq) by (rewrite (opp b c Hb Hc), E2; reflexivity).
      pose proof (eq c b a Hc Hb Ha Hcb) as Hca.
      rewrite (opp a c Ha Hc), (opp a b Ha Hb), E1 in Hca. cbn in Hca.
      destruct (cmp a c); cbn in Hca; congruence.
    + rewrite (lt a b c Ha Hb Hc E1 E2). discriminate.
Qed.

Lemma lex_weak_order {A B} (DA : A → Prop) (DB : B → Prop)
    (ca : A → A → comparison) (cb : B → B → comparison) :
  weak_order DA ca → weak_order DB cb →
  weak_order (fun x => DA (fst x) ∧ DB (snd x)) (lex ca cb).
Proof.
  intros [oa la ea] [ob lb eb]. split.
  - intros [a b] [a' b'] [Ha Hb] [Ha' Hb']. unfold lex. cbn [fst snd] in *.
    rewrite (oa a a' Ha Ha'). destruct (ca a a'); cbn [CompOpp]; [now apply ob | reflexivity..].
  - intros [a b] [a' b'] [a'' b''] [Ha Hb] [Ha' Hb'] [Ha'' Hb'']. unfold lex.
    cbn [fst snd] in *.
    destruct (ca a a') eqn:E1; try discriminate;
      destruct (ca a' a'') eqn:E2; try discriminate; intros H1 H2.
    + rewrite (ea a a' a'' Ha Ha' Ha'' E1), E2. now apply (lb b b' b'').
    + now rewrite (ea a a' a'' Ha Ha' Ha'' E1), E2.
    + assert (E3 : ca a'' a' = Eq) by (rewrite (oa a' a'' Ha' Ha''), E2; reflexivity).
      pose proof (ea a'' a' a Ha'' Ha' Ha E3) as E4.
      rewrite (oa a a'' Ha Ha''), (oa a a' Ha Ha'), E1 in E4. cbn in E4.
      destruct (ca a a''); cbn in E4; congruence.
    + now rewrite (la a a' a'' Ha Ha' Ha'' E1 E2).
  - intros [a b] [a' b'] [a'' b''] [Ha Hb] [Ha' Hb'] [Ha'' Hb'']. unfold lex.
    cbn [fst snd] in *.
    destruct (ca a a') eqn:E1; try discriminate. intros H1.
    rewrite (ea a a' a'' Ha Ha' Ha'' E1).
    destruct (ca a' a''); [now apply eb | reflexivity..].
Qed.

Lemma total_weak_order {A} (cmp : A → A → comparison) :
  total_order cmp → weak_order (fun _ => True) cmp.
Proof.
  intros [r e o t]. split.
  - intros a b _ _. apply o.
  - intros a b c _ _ _. apply t.
  - intros a b c _ _ _ E. now rewrite (e a b E).
Qed.


(** *** Numbers *)

(** A number on a common scale: an infinity, or an integer. *)
Inductive scaled : Set := NegInf | Fin (z : Z) | PosInf.

Definition scaled_cmp (a b : scaled) : comparison :=
  match a, b with
  | NegInf, NegInf | PosInf, PosInf => Eq
  | NegInf, _ | _, PosInf => Lt
  | _, NegInf | PosInf, _ => Gt
  | Fin x, Fin y => x ?= y
  end.

(** The exponent of a finite number. *)
Definition exponent (a : num) : Z :=
  match a with NFin _ e => e | _ => 0 end.

(** The number in units of [2^E], for [E] not above its exponent. *)
Definition scale (E : Z) (a : num) : scaled :=
  match a with
  | NNan => Fin 0
  | NInf negative => if negative then NegInf else PosInf
  | NFin m e => Fin (m * 2 ^ (e - E))
  end.

Lemma scaled_weak_order : weak_order (fun _ => True) scaled_cmp.
Proof.
  split.
  - intros [| x |] [| y |] _ _; cbn; try reflexivity. apply Z.compare_antisym.
  - intros [| x |] [| y |] [| z |] _ _ _; cbn; try discriminate; try reflexivity.
    rewrite !Z.compare_lt_iff. lia.
  - intros [| x |] [| y |] [| z |] _ _ _; cbn; try discriminate; try reflexivity.
    intros E. apply Z.compare_eq in E. now subst.
Qed.

Lemma compare_scaled (m1 e1 m2 e2 E : Z) :
  E ≤ e1 → E ≤ e2 →
  (m1 * 2 ^ (e1 - Z.min e1 e2) ?= m2 * 2 ^ (e2 - Z.min e1 e2))
    = (m1 * 2 ^ (e1 - E) ?= m2 * 2 ^ (e2 - E)).
Proof.
  intros H1 H2. set (e := Z.min e1 e2).
  assert (He : E ≤ e) by (unfold e; lia).
  assert (He1 : e ≤ e1) by (unfold e; lia).
  assert (He2 : e ≤ e2) by (unfold e; lia).
  replace (e1 - E) with ((e1 - e) + (e - E)) by lia.
  replace (e2 - E) with ((e2 - e) + (e - E)) by lia.
  rewrite !Z.pow_add_r by lia. rewrite !Z.mul_assoc.
  apply Zmult_compare_compat_r. apply Z.lt_gt, Z.pow_pos_nonneg; lia.
Qed.

Lemma num_cmp_scaled (a b : num) (E : Z) :
  a ≠ NNan → b ≠ NNan → E ≤ exponent a → E ≤ exponent b →
  num_cmp a b = scaled_cmp (scale E a) (scale E b).
Proof.
  unfold num_cmp. destruct a as [|s1|m1 e1], b as [|s2|m2 e2]; try congruence;
    intros _ _ H1 H2; cbn [num_compare scale scaled_cmp exponent] in *.
  - now destruct s1, s2.
  - now destruct s1.
  - now destruct s2.
  - now apply compare_scaled.
Qed.

Lemma num_weak_order : weak_order (fun a => a ≠ NNan) num_cmp.
Proof.
  pose proof scaled_weak_order as [opp lt eq]. split.
  - intros a b Ha Hb.
    rewrite !(num_cmp_scaled _ _ (Z.min (exponent a) (exponent b))) by (assumption || lia).
    now apply opp.
  - intros a b c Ha Hb Hc.
    rewrite !(num_cmp_scaled _ _ (Z.min (exponent a) (Z.min (exponent b) (exponent c))))
      by (assumption || lia).
    now apply lt.
  - intros a b c Ha Hb Hc.
    rewrite !(num_cmp_scaled _ _ (Z.min (exponent a) (Z.min (exponent b) (exponent c))))
      by (assumption || lia).
    now apply eq.
Qed.

(** *** Sources of one kind *)

Lemma source_weak_order (kind : source_kind) :
  weak_order (fun v => kind_of v = Some kind) source_cmp.
Proof.
  pose proof num_weak_order as [nopp nlt neq].
  pose proof (total_weak_order _ string_total_order) as [sopp slt seq].
  assert (Hnum : ∀ v, kind_of v = Some KNumber →
            ∃ x, num_of v = Some x ∧ x ≠ NNan ∧ ∀ s, v ≠ PStr s).
  { intros v Hv. destruct v as [|b|z|f text|s|text truth]; try discriminate.
    - eexists. repeat split; [discriminate | discriminate].
    - eexists. repeat split; [discriminate | discriminate].
    - destruct f; try discriminate; eexists; repeat split; discriminate. }
  destruct kind as [| | |text].
  - split; intros a b; [|intros c|intros c];
      destruct a, b; try discriminate; try destruct c; try discriminate;
      try (destruct f; discriminate); reflexivity.
  - split.
    + intros a b Ha Hb.
      destruct (Hnum a Ha) as (x & Hx & Hxn & Hxs), (Hnum b Hb) as (y & Hy & Hyn & Hys).
      unfold source_cmp. rewrite Hx, Hy.
      destruct a, b; try (exfalso; eapply Hxs; reflexivity);
        try (exfalso; eapply Hys; reflexivity); now apply nopp.
    + intros a b c Ha Hb Hc.
      destruct (Hnum a Ha) as (x & Hx & Hxn & Hxs), (Hnum b Hb) as (y & Hy & Hyn & Hys),
        (Hnum c Hc) as (z & Hz & Hzn & Hzs).
      unfold source_cmp. rewrite Hx, Hy, Hz.
      destruct a, b, c; try (exfalso; eapply Hxs; reflexivity);
        try (exfalso; eapply Hys; reflexivity);
        try (exfalso; eapply Hzs; reflexivity); now apply nlt.
    + intros a b c Ha Hb Hc.
      destruct (Hnum a Ha) as (x & Hx & Hxn & Hxs), (Hnum b Hb) as (y & Hy & Hyn & Hys),
        (Hnum c Hc) as (z & Hz & Hzn & Hzs).
      unfold source_cmp. rewrite Hx, Hy, Hz.
      destruct a, b, c; try (exfalso; eapply Hxs; reflexivity);
        try (exfalso; eapply Hys; reflexivity);
        try (exfalso; eapply Hzs; reflexivity); now apply neq.
  - split.
    + intros a b Ha Hb. destruct a, b; try discriminate;
        try (destruct f; discriminate). now apply sopp.
    + intros a b c Ha Hb Hc. destruct a, b, c; try discriminate;
        try (destruct f; discriminate). now apply slt.
    + intros a b c Ha Hb Hc. destruct a, b, c; try discriminate;
        try (destruct f; discriminate). now apply seq.
  - split; intros a b; [|intros c|intros c];
      destruct a, b; try discriminate; try destruct c; try discriminate;
      try (destruct f; discriminate); reflexivity.
Qed.


Lemma comparable_kind (a b : pyval) :
  comparable_sources a b = true →
  ∃ kind, kind_of a = Some kind ∧ kind_of b = Some kind.
Proof.
  unfold comparable_sources, equal, less.
  destruct a as [|b1|z1|f1 t1|s1|t1 r1], b as [|b2|z2|f2 t2|s2|t2 r2];
    cbn [num_of orb]; try discriminate;
    try (intros _; now exists KNone);
    try (intros _; now exists KString);
    try (intros H; exists (KObject t1);
         rewrite orb_false_r in H; apply String.eqb_eq in H; now subst);
    try (intros _; now exists KNumber);
    try (destruct f1; cbn; try discriminate; intros _; now exists KNumber);
    try (destruct f2; cbn; try discriminate; intros _; now exists KNumber).
  destruct f1, f2; cbn; try discriminate; intros _; now exists KNumber.
Qed.

Lemma equal_numbers (a b : pyval) (x y : num) :
  num_of a = Some x → num_of b = Some y →
  equal a b = match num_compare x y with Some Eq => true | _ => false end ∧
  less a b = Ok match num_compare x y with Some Lt => true | _ => false end ∧
  source_cmp a b = num_cmp x y.
Proof.
  intros Ha Hb. unfold equal, less, source_cmp.
  destruct a, b; try discriminate; rewrite ?Ha, ?Hb; now repeat split.
Qed.

Lemma number_not_nan (v : pyval) :
  kind_of v = Some KNumber → ∃ x, num_of v = Some x ∧ x ≠ NNan.
Proof.
  destruct v as [|b|z|f text|s|text truth]; try discriminate; intros Hv.
  - eexists. split; [reflexivity | discriminate].
  - eexists. split; [reflexivity | discriminate].
  - destruct f; try discriminate; eexists; (split; [reflexivity | discriminate]).
Qed.

Lemma num_compare_defined (x y : num) :
  x ≠ NNan → y ≠ NNan → num_compare x y = Some (num_cmp x y).
Proof.
  unfold num_cmp. destruct x, y; try congruence; reflexivity.
Qed.

(** [==] and [<] on two sources of one kind. *)
Lemma source_cmp_spec (kind : source_kind) (s s' : pyval) :
  kind_of s = Some kind → kind_of s' = Some kind →
  (equal s s' = true ∧ source_cmp s s' = Eq) ∨
  (equal s s' = false ∧
   less s s' = Ok match source_cmp s s' with Lt => true | _ => false end ∧
   source_cmp s s' ≠ Eq).
Proof.
  intros Hs Hs'. destruct kind as [| | |text].
  - destruct s, s'; try discriminate; try (destruct f; discriminate).
    left. now split.
  - destruct (number_not_nan s Hs) as (x & Hx & Hxn).
    destruct (number_not_nan s' Hs') as (y & Hy & Hyn).
    destruct (equal_numbers s s' x y Hx Hy) as (-> & -> & ->).
    rewrite (num_compare_defined x y Hxn Hyn).
    destruct (num_cmp x y); [left; now split | right; now repeat split..].
  - destruct s as [| | | |s1|], s' as [| | | |s2|]; try discriminate;
      try (destruct f; discriminate).
    unfold equal, less, source_cmp.
    destruct (String.eqb_spec s1 s2) as [->|Hne].
    + left. split; [reflexivity | apply string_compare_refl].
    + right. split; [reflexivity|]. unfold String.ltb.
      destruct (String.compare s1 s2) eqn:E; repeat split; try congruence.
      apply String.compare_eq_iff in E. congruence.
  - destruct s as [| | | | |t1 r1], s' as [| | | | |t2 r2]; try discriminate;
      try (destruct f; discriminate).
    injection Hs as ->. injection Hs' as ->. left.
    unfold equal, source_cmp. cbn [num_of]. now rewrite String.eqb_refl.
Qed.

(** On keys whose sources are of one kind, [key_lt] never raises and is
    the strict part of [key_cmp]. *)
Lemma key_lt_cmp (kind : source_kind) (a b : pyval * Z * bool * Z) :
  kind_of (fst (fst (fst a))) = Some kind →
  kind_of (fst (fst (fst b))) = Some kind →
  key_lt a b = Ok match key_cmp source_cmp a b with Lt => true | _ => false end.
Proof.
  destruct a as [[[s p] t] o], b as [[[s' p'] t'] o']. cbn [fst].
  intros Hs Hs'.
  unfold key_lt, key_cmp, lex. cbn [fst snd].
  destruct (source_cmp_spec kind s s' Hs Hs') as [[-> ->]|(-> & -> & Hne)]; cbn [negb].
  - destruct (Z.eqb_spec p p') as [->|Hp]; cbn [negb].
    + rewrite Z.compare_refl.
      destruct t, t'; cbn; try reflexivity; unfold Z.ltb; now destruct (o ?= o').
    + unfold Z.ltb. destruct (p ?= p') eqn:E; try reflexivity.
      apply Z.compare_eq in E. congruence.
  - now destruct (source_cmp s s').
Qed.

Lemma key_weak_order (kind : source_kind) :
  weak_order (fun key : pyval * Z * bool * Z => kind_of (fst (fst (fst key))) = Some kind)
             (key_cmp source_cmp).
Proof.
  pose proof (lex_weak_order _ _ _ _
                (lex_weak_order _ _ _ _
                   (lex_weak_order _ _ _ _ (source_weak_order kind)
                      (total_weak_order _ Z_total_order))
                   (total_weak_order _ bool_total_order))
                (total_weak_order _ Z_total_order)) as [opp lt eq].
  split.
  - intros a b Ha Hb. apply opp; cbn; tauto.
  - intros a b c Ha Hb Hc. apply lt; cbn; tauto.
  - intros a b c Ha Hb Hc. apply eq; cbn; tauto.
Qed.

Lemma kind_lt_asym (kind : source_kind) (a b : pyval * Z * bool * Z) :
  kind_of (fst (fst (fst a))) = Some kind →
  kind_of (fst (fst (fst b))) = Some kind →
  ltb key_lt a b = true → ltb key_lt b a = false.
Proof.
  intros Ha Hb. unfold ltb. rewrite (key_lt_cmp kind a b), (key_lt_cmp kind b a) by assumption.
  rewrite (wo_opp _ _ (key_weak_order kind) a b Ha Hb).
  now destruct (key_cmp source_cmp a b).
Qed.

Lemma kind_le_trans (kind : source_kind) (a b c : pyval * Z * bool * Z) :
  kind_of (fst (fst (fst a))) = Some kind →
  kind_of (fst (fst (fst b))) = Some kind →
  kind_of (fst (fst (fst c))) = Some kind →
  ltb key_lt b a = false → ltb key_lt c b = false → ltb key_lt c a = false.
Proof.
  intros Ha Hb Hc. unfold ltb.
  rewrite (key_lt_cmp kind b a), (key_lt_cmp kind c b), (key_lt_cmp kind c a)
    by assumption.
  pose proof (key_weak_order kind) as Hwo.
  rewrite (wo_opp _ _ Hwo a b Ha Hb), (wo_opp _ _ Hwo b c Hb Hc),
    (wo_opp _ _ Hwo a c Ha Hc).
  pose proof (weak_order_not_gt _ _ Hwo a b c Ha Hb Hc) as Htrans.
  destruct (key_cmp source_cmp a b); cbn [CompOpp]; try discriminate;
    destruct (key_cmp source_cmp b c); cbn [CompOpp]; try discriminate;
    intros _ _; destruct (key_cmp source_cmp a c); cbn [CompOpp]; try reflexivity;
    exfalso; apply Htrans; congruence.
Qed.

End SourceOrder.

(* ===================================================================== *)
(** ** The incremental store writer *)
(* ===================================================================== *)

Module StoreWriter.
Import Py DocxLoader LoadData Props StringFacts Normalizer IdAssigner SortFacts KeyOrder.
Import SourceOrder.

(** *** What [save_to_chroma] sorts and numbers *)

Lemma is_ok_inv {A} (c : result A) : is_ok c = true → ∃ a, c = Ok a.
Proof. destruct c as [a|]; [now exists a | discriminate]. Qed.

Lemma for_each_ok {A B} (f : A → result B) (g : A → B) (l : list A) :
  Forall (fun x => f x = Ok (g x)) l → for_each f l = Ok (map g l).
Proof.
  intros H. induction H as [|x l Hx Hl IH]; [reflexivity|].
  cbn [for_each map]. rewrite Hx, IH. reflexivity.
Qed.

Lemma for_each_map {A B C} (f : B → result C) (h : A → B) (l : list A) :
  for_each f (map h l) = for_each (fun x => f (h x)) l.
Proof.
  induction l as [|x l IH]; [reflexivity|].
  cbn [for_each map]. now rewrite IH.
Qed.

Lemma chunks_with_ids_sorted (chunks : list Document) :
  chunks_with_ids chunks =
    (chunks_sorted ← sorted_by key_lt sort_key (map prepared chunks);
     Ok (calculate_chunk_ids chunks_sorted)).
Proof.
  unfold chunks_with_ids, filter_complex_metadata.
  rewrite for_each_map.
  rewrite (for_each_ok _ prepared); [reflexivity|].
  apply Forall_forall. intros chunk _.
  cbn [with_metadata metadata page_content].
  now rewrite clean_metadata_ok.
Qed.

Lemma sort_key_source (chunk : Document) (key : pyval * Z * bool * Z) :
  sort_key chunk = Ok key →
  fst (fst (fst key)) = get (metadata chunk) "source" PNone.
Proof.
  unfold sort_key. intros H.
  destruct (int (get (metadata chunk) "page" (PInt 0))) as [page|];
    cbn [mbind result_bind] in H; [|discriminate].
  destruct (if negb _ then _ else _) as [start|];
    cbn [mbind result_bind] in H; [|discriminate].
  now injection H as <-.
Qed.

Lemma sortable_key (chunk : Document) :
  sortable chunk = true →
  sort_key (prepared chunk) = Ok (key_of chunk) ∧ string_keyed (key_of chunk).
Proof.
  unfold sortable, key_of. intros H. apply andb_prop in H as [Hsource Hkey].
  destruct (sort_key (prepared chunk)) as [key|] eqn:E; [|discriminate].
  split; [reflexivity|].
  apply sort_key_source in E. unfold get in E.
  destruct (metadata (prepared chunk) !! "source") as [[| | | |source|]|];
    try discriminate.
  destruct key as [[[s p] t] o]. cbn [fst] in E. subst s.
  now exists source, p, t, o.
Qed.

Lemma keyed_string_keyed (chunks : list Document) :
  forallb sortable chunks = true →
  Forall (fun entry => string_keyed (fst entry)) (keyed chunks).
Proof.
  intros H. unfold keyed. apply Forall_fmap, Forall_forall. intros chunk Hin.
  rewrite forallb_forall in H.
  now apply sortable_key, H, list_elem_of_In.
Qed.

Lemma keyed_comparable (chunks : list Document) :
  forallb sortable chunks = true → comparable key_lt (keyed chunks) = true.
Proof.
  intros H. apply keyed_string_keyed in H. rewrite Forall_forall in H.
  unfold comparable. rewrite forallb_forall. intros a Ha.
  rewrite forallb_forall. intros b Hb.
  destruct (H a (proj2 (list_elem_of_In _ _) Ha)) as (s & p & t & o & ->).
  destruct (H b (proj2 (list_elem_of_In _ _) Hb)) as (s' & p' & t' & o' & ->).
  now rewrite key_lt_compare.
Qed.

(** For chunks whose keys can be computed and compared, [save_to_chroma]
    numbers the stable sort of the prepared chunks. *)
Lemma ids_assigned_by_save_sortable (chunks : list Document) :
  forallb sortable chunks = true →
  ids_assigned_by_save chunks =
    Ok (map id_value
          (numbered None 0 (page_ids (map snd (sort_by key_lt (keyed chunks)))))).
Proof.
  intros H. unfold ids_assigned_by_save.
  rewrite chunks_with_ids_sorted. unfold sorted_by.
  rewrite for_each_map.
  rewrite (for_each_ok _ (fun chunk => (key_of chunk, prepared chunk))).
  - cbn [mbind result_bind]. fold (keyed chunks).
    rewrite (keyed_comparable _ H). cbn [mbind result_bind].
    now rewrite calculate_chunk_ids_numbered.
  - apply Forall_forall. intros chunk Hin. rewrite forallb_forall in H.
    destruct (sortable_key chunk (H _ (proj1 (list_elem_of_In _ _) Hin))) as [-> _].
    reflexivity.
Qed.

(** *** C9: permutations of the input *)

Lemma tied_map_eq {A B} (R : A → A → Prop) (Q : A → Prop) (f : A → B)
    (l1 l2 : list A) :
  (∀ x y, Q x → Q y → R x y → f x = f y) →
  Forall Q l1 → Forall Q l2 → Forall2 R l1 l2 → map f l1 = map f l2.
Proof.
  intros Hf H1 H2 H12. induction H12 as [|x y l1 l2 Hxy H12 IH]; [reflexivity|].
  apply Forall_cons_1 in H1 as [Hx H1]. apply Forall_cons_1 in H2 as [Hy H2].
  cbn [map]. rewrite (Hf x y Hx Hy Hxy). f_equal. now apply IH.
Qed.

(** C9, as stated, fails: [ocr_in_the_middle] and [ocr_at_the_end] are
    permutations of each other, with integer pages and one source; all
    their chunks have the same sort key, the sort leaves each list as it
    is, and the IDs assigned are not the same multiset: only the second
    list gets a chunk_1. *)
Lemma permuted_input_gets_other_ids :
  ocr_in_the_middle ≡ₚ ocr_at_the_end ∧
  ids_assigned_by_save ocr_in_the_middle =
    Ok [ Some (PStr "a.docx:docx:page_0:chunk_0");
         Some (PStr "a.docx:docx:page_0_ocr:chunk_0");
         Some (PStr "a.docx:docx:page_0:chunk_0") ] ∧
  ids_assigned_by_save ocr_at_the_end =
    Ok [ Some (PStr "a.docx:docx:page_0:chunk_0");
         Some (PStr "a.docx:docx:page_0:chunk_1");
         Some (PStr "a.docx:docx:page_0_ocr:chunk_0") ] ∧
  ¬ ([ Some (PStr "a.docx:docx:page_0:chunk_0");
       Some (PStr "a.docx:docx:page_0_ocr:chunk_0");
       Some (PStr "a.docx:docx:page_0:chunk_0") ]
     ≡ₚ [ Some (PStr "a.docx:docx:page_0:chunk_0");
          Some (PStr "a.docx:docx:page_0:chunk_1");
          Some (PStr "a.docx:docx:page_0_ocr:chunk_0") ]).
Proof.
  split; [apply perm_skip, perm_swap|].
  split; [vm_compute; reflexivity|]. split; [vm_compute; reflexivity|].
  intros Hperm.
  assert (Hin : Some (PStr "a.docx:docx:page_0:chunk_1")
                  ∈ [ Some (PStr "a.docx:docx:page_0:chunk_0");
                      Some (PStr "a.docx:docx:page_0_ocr:chunk_0");
                      Some (PStr "a.docx:docx:page_0:chunk_0") ]).
  { rewrite Hperm. member. }
  repeat (apply elem_of_cons in Hin as [Hin|Hin]; [discriminate|]).
  now apply elem_of_nil in Hin.
Qed.

Lemma convertible_key (chunk : Document) :
  int_convertible chunk = true →
  sort_key (prepared chunk) = Ok (key_of chunk) ∧
  fst (fst (fst (key_of chunk))) = source_of chunk.
Proof.
  unfold int_convertible, key_of, source_of.
  destruct (sort_key (prepared chunk)) as [key|] eqn:E; [|discriminate].
  intros _. split; [reflexivity|]. now apply sort_key_source.
Qed.

(** The chunks of a list with mutually comparable sources have sources of
    one kind. *)
Lemma comparable_one_kind (chunks : list Document) :
  mutually_comparable chunks = true →
  ∃ kind, ∀ chunk, chunk ∈ chunks → kind_of (source_of chunk) = Some kind.
Proof.
  intros Hall. destruct chunks as [|first chunks'] eqn:E.
  - exists KNone. intros chunk Hin. now apply elem_of_nil in Hin.
  - rewrite <- E in *.
    assert (Hfirst : first ∈ chunks) by (rewrite E; now left).
    destruct (comparable_kind _ _
                (pairwise_true (fun a b => comparable_sources (source_of a) (source_of b))
                   chunks first first Hall Hfirst Hfirst)) as (kind & Hkind & _).
    exists kind. intros chunk Hin.
    destruct (comparable_kind _ _
                (pairwise_true (fun a b => comparable_sources (source_of a) (source_of b))
                   chunks first chunk Hall Hfirst Hin)) as (kind' & Hkind' & Hchunk).
    congruence.
Qed.

Lemma keyed_one_kind (chunks : list Document) (kind : source_kind) :
  forallb int_convertible chunks = true →
  (∀ chunk, chunk ∈ chunks → kind_of (source_of chunk) = Some kind) →
  Forall (fun entry : (pyval * Z * bool * Z) * Document =>
            kind_of (fst (fst (fst (fst entry)))) = Some kind) (keyed chunks).
Proof.
  intros Hint Hkind. unfold keyed. apply Forall_fmap, Forall_forall. intros chunk Hin.
  cbn [compose fst]. rewrite forallb_forall in Hint.
  destruct (convertible_key chunk (Hint _ (proj1 (list_elem_of_In _ _) Hin))) as [_ ->].
  now apply Hkind.
Qed.

Lemma keyed_kind_comparable (chunks : list Document) (kind : source_kind) :
  Forall (fun entry : (pyval * Z * bool * Z) * Document =>
            kind_of (fst (fst (fst (fst entry)))) = Some kind) (keyed chunks) →
  comparable key_lt (keyed chunks) = true.
Proof.
  intros H. rewrite Forall_forall in H.
  unfold comparable. rewrite forallb_forall. intros a Ha.
  rewrite forallb_forall. intros b Hb.
  rewrite (key_lt_cmp kind); [reflexivity | |]; apply H; now apply list_elem_of_In.
Qed.

(** For chunks whose keys can be computed and compared, [save_to_chroma]
    numbers the stable sort of the prepared chunks. *)
Lemma ids_assigned_by_save_keyed (chunks : list Document) :
  forallb int_convertible chunks = true →
  comparable key_lt (keyed chunks) = true →
  ids_assigned_by_save chunks =
    Ok (map id_value
          (numbered None 0 (page_ids (map snd (sort_by key_lt (keyed chunks)))))).
Proof.
  intros Hint Hcmp. unfold ids_assigned_by_save.
  rewrite chunks_with_ids_sorted. unfold sorted_by.
  rewrite for_each_map.
  rewrite (for_each_ok _ (fun chunk => (key_of chunk, prepared chunk))).
  - cbn [mbind result_bind]. fold (keyed chunks).
    rewrite Hcmp. cbn [mbind result_bind].
    now rewrite calculate_chunk_ids_numbered.
  - apply Forall_forall. intros chunk Hin. rewrite forallb_forall in Hint.
    destruct (convertible_key chunk (Hint _ (proj1 (list_elem_of_In _ _) Hin))) as [-> _].
    reflexivity.
Qed.

(** C9, amended: [save_to_chroma] re-sorts its input by (source, int(page),
    bool(has_table), int(start)) before assigning IDs, so for every two
    input chunk lists that are permutations of each other, with the page
    int-convertible and all sources mutually comparable as the sort reads
    them (any two are equal, or [<] is defined on them and puts one before
    the other: all strings, or all numbers, or all absent), and in which
    chunks that the sort key does not tell apart have the same page
    identity (the same file type, used_ocr and printed source and page),
    the list of IDs it assigns, and so their multiset, is identical.
    Nothing is asked of start: the cleaning has removed it before the
    sort. *)
Theorem permuted_input_gets_same_ids (chunks1 chunks2 : list Document)
    (Hperm : chunks1 ≡ₚ chunks2)
    (Hint : forallb int_convertible chunks1 = true)
    (Hsources : mutually_comparable chunks1 = true)
    (Hidentity : identity_by_sort_key chunks1 = true) :
  ∃ ids, ids_assigned_by_save chunks1 = Ok ids ∧
         ids_assigned_by_save chunks2 = Ok ids.
Proof.
  destruct (comparable_one_kind chunks1 Hsources) as [kind Hkind].
  assert (Hint2 : forallb int_convertible chunks2 = true).
  { rewrite forallb_forall in *. intros chunk Hin. apply Hint.
    apply list_elem_of_In. rewrite Hperm. now apply list_elem_of_In. }
  assert (Hkind2 : ∀ chunk, chunk ∈ chunks2 → kind_of (source_of chunk) = Some kind).
  { intros chunk Hin. apply Hkind. now rewrite Hperm. }
  pose proof (keyed_one_kind chunks1 kind Hint Hkind) as Hkeyed1.
  pose proof (keyed_one_kind chunks2 kind Hint2 Hkind2) as Hkeyed2.
  rewrite !ids_assigned_by_save_keyed by (assumption || now apply (keyed_kind_comparable _ kind)).
  eexists. split; [reflexivity|]. do 3 f_equal. unfold page_ids.
  rewrite !map_map. symmetry.
  set (P := fun key : pyval * Z * bool * Z => kind_of (fst (fst (fst key))) = Some kind).
  set (Q := fun entry : (pyval * Z * bool * Z) * Document =>
              P (fst entry) ∧ entry ∈ keyed chunks1).
  assert (HQ1 : Forall Q (keyed chunks1)).
  { apply Forall_forall. intros entry Hin. split; [|exact Hin].
    rewrite Forall_forall in Hkeyed1. now apply Hkeyed1. }
  assert (HQ2 : Forall Q (keyed chunks2)).
  { assert (Hk : keyed chunks2 ≡ₚ keyed chunks1)
      by (unfold keyed; now rewrite Hperm).
    now rewrite Hk. }
  apply (tied_map_eq (tie key_lt) Q).
  - intros x y [_ Hx] [_ Hy] [Hxy Hyx].
    unfold keyed in Hx, Hy.
    apply list_elem_of_fmap in Hx as (a & -> & Ha).
    apply list_elem_of_fmap in Hy as (b & -> & Hb).
    cbn [fst snd] in *.
    pose proof (pairwise_true
                  (fun a b => implb (same_sort_key a b)
                     (current_page_id (metadata (prepared a))
                        =? current_page_id (metadata (prepared b)))%string)
                  chunks1 a b Hidentity Ha Hb) as Himp.
    cbn beta in Himp.
    assert (Hsame : same_sort_key a b = true).
    { unfold same_sort_key. rewrite forallb_forall in Hint.
      destruct (convertible_key a (Hint _ (proj1 (list_elem_of_In _ _) Ha))) as [-> _].
      destruct (convertible_key b (Hint _ (proj1 (list_elem_of_In _ _) Hb))) as [-> _].
      now rewrite Hxy, Hyx. }
    rewrite Hsame in Himp. now apply String.eqb_eq in Himp.
  - now apply sort_by_Forall.
  - now apply sort_by_Forall.
  - apply (sort_by_perm_tie key_lt P (kind_lt_asym kind) (kind_le_trans kind)).
    + unfold keyed. now rewrite Hperm.
    + exact Hkeyed1.
Qed.

(** The chunks of two files in their order and from the last to the first;
    the second list is not sorted. *)
Lemma permuted_input_gets_same_ids_witness :
  library_chunks ≡ₚ library_chunks_reversed ∧
  forallb int_convertible library_chunks = true ∧
  mutually_comparable library_chunks = true ∧
  identity_by_sort_key library_chunks = true ∧
  sorted_by_key (map prepared library_chunks_reversed) = false ∧
  ∃ ids, ids_assigned_by_save library_chunks = Ok ids ∧
         ids_assigned_by_save library_chunks_reversed = Ok ids.
Proof.
  assert (Hperm : library_chunks ≡ₚ library_chunks_reversed)
    by apply Permutation_rev.
  assert (Hint : forallb int_convertible library_chunks = true) by (vm_compute; reflexivity).
  assert (Hsources : mutually_comparable library_chunks = true) by (vm_compute; reflexivity).
  assert (Hidentity : identity_by_sort_key library_chunks = true) by (vm_compute; reflexivity).
  split; [exact Hperm|]. split; [exact Hint|]. split; [exact Hsources|].
  split; [exact Hidentity|]. split; [vm_compute; reflexivity|].
  exact (permuted_input_gets_same_ids _ _ Hperm Hint Hsources Hidentity).
Defined.

(** *** C2: the second run *)

Lemma assign_ids_has_id (st : id_state) (chunks : list Document) :
  Forall has_id (assign_ids st chunks).
Proof.
  revert st. induction chunks as [|chunk chunks IH]; intros st; [constructor|].
  cbn [assign_ids assign_id]. constructor; [|apply IH].
  eexists. cbn [with_metadata metadata]. apply lookup_insert_eq.
Qed.

Lemma chunks_with_ids_has_id (chunks with_ids : list Document) :
  chunks_with_ids chunks = Ok with_ids → Forall has_id with_ids.
Proof.
  rewrite chunks_with_ids_sorted.
  destruct (sorted_by key_lt sort_key (map prepared chunks)) as [sorted|];
    cbn [mbind result_bind]; [|discriminate].
  intros [= <-]. apply assign_ids_has_id.
Qed.

Lemma chunk_id_ok (chunk : Document) :
  has_id chunk → chunk_id chunk = Ok (id_text chunk).
Proof.
  intros [s Hs]. unfold chunk_id, getitem, id_text. now rewrite Hs.
Qed.

Lemma chunk_ids_ok (chunks : list Document) :
  Forall has_id chunks → for_each chunk_id chunks = Ok (map id_text chunks).
Proof.
  intros H. apply for_each_ok. eapply Forall_impl; [exact H|].
  intros chunk. apply chunk_id_ok.
Qed.

Lemma filter_each_ok {A} (test : A → result bool) (f : A → bool) (l : list A) :
  Forall (fun x => test x = Ok (f x)) l → filter_each test l = Ok (List.filter f l).
Proof.
  intros H. induction H as [|x l Hx Hl IH]; [reflexivity|].
  cbn [filter_each List.filter]. rewrite Hx, IH. reflexivity.
Qed.

(** The new chunks are those whose ID the index does not have. *)
Lemma new_chunks_ok (existing_ids : gset string) (with_ids : list Document) :
  Forall has_id with_ids →
  new_chunks existing_ids with_ids =
    Ok (List.filter (fun chunk => negb (bool_decide (id_text chunk ∈ existing_ids)))
                    with_ids).
Proof.
  intros H. unfold new_chunks. apply filter_each_ok.
  eapply Forall_impl; [exact H|]. intros chunk Hid. cbn beta.
  now rewrite (chunk_id_ok _ Hid).
Qed.

Lemma filter_none {A} (f : A → bool) (l : list A) :
  Forall (fun x => f x = false) l → List.filter f l = [].
Proof.
  intros H. induction H as [|x l Hx Hl IH]; [reflexivity|].
  cbn [List.filter]. now rewrite Hx.
Qed.

Lemma upsert_lookup_other (db : gmap string Document) (documents : list Document)
    (ids : list string) (id : string) :
  id ∉ ids → upsert db documents ids !! id = db !! id.
Proof.
  unfold upsert. revert db documents.
  induction ids as [|i ids IH]; intros db documents Hnotin; [reflexivity|].
  destruct documents as [|doc documents]; [reflexivity|].
  cbn [combine fold_left fst snd].
  rewrite IH by (intros Hin; apply Hnotin; now right).
  apply lookup_insert_ne. intros ->. apply Hnotin. now left.
Qed.

Lemma upsert_dom (db : gmap string Document) (documents : list Document)
    (ids : list string) :
  length ids = length documents →
  dom (upsert db documents ids) = dom db ∪ list_to_set ids.
Proof.
  unfold upsert. revert db documents.
  induction ids as [|i ids IH]; intros db [|doc documents] Hlen;
    try discriminate.
  - cbn [combine fold_left list_to_set]. now rewrite union_empty_r_L.
  - cbn [combine fold_left fst snd].
    rewrite IH by (simpl in Hlen; lia).
    rewrite dom_insert_L. cbn [list_to_set].
    rewrite (union_comm_L {[i]} (dom db)). now rewrite union_assoc_L.
Qed.

(** C2: when a run of [save_to_chroma] on a chunk set has succeeded,
    whether it found an index or created one, a second run on the same
    chunk set with the index the first run left succeeds too, leaves the
    index as it is and makes no insert call: the ID of every chunk is in
    the existing ID set and the list of new chunks is empty. A run on an
    existing index leaves every entry of that index as it was. *)
Theorem second_run_inserts_nothing (chunks : list Document)
    (db : option (gmap string Document)) (db1 : gmap string Document)
    (calls : list store_call)
    (Hfirst : save_to_chroma chunks db = Ok (db1, calls)) :
  save_to_chroma chunks (Some db1) = Ok (db1, []) ∧
  (∃ with_ids,
     chunks_with_ids chunks = Ok with_ids ∧
     Forall (fun chunk => ∃ id, chunk_id chunk = Ok id ∧ id ∈ dom db1) with_ids ∧
     new_chunks (dom db1) with_ids = Ok []) ∧
  match db with
  | Some db0 => ∀ id doc, db0 !! id = Some doc → db1 !! id = Some doc
  | None => True
  end.
Proof.
  unfold save_to_chroma in Hfirst.
  destruct (chunks_with_ids chunks) as [with_ids|] eqn:Hids;
    cbn [mbind result_bind] in Hfirst; [|discriminate].
  pose proof (chunks_with_ids_has_id _ _ Hids) as Hhas.
  (* every ID is in the index the first run leaves *)
  assert (Hdom : Forall (fun chunk => id_text chunk ∈ dom db1) with_ids
                 ∧ match db with
                   | Some db0 => ∀ id doc, db0 !! id = Some doc → db1 !! id = Some doc
                   | None => True
                   end).
  { destruct db as [db0|].
    - rewrite (new_chunks_ok _ _ Hhas) in Hfirst. cbn [mbind result_bind] in Hfirst.
      set (new := List.filter _ with_ids) in *.
      assert (Hnew : ∀ chunk, chunk ∈ with_ids →
                id_text chunk ∈ dom db0 ∨ chunk ∈ new).
      { intros chunk Hin. destruct (decide (id_text chunk ∈ dom db0)) as [|Hout];
          [now left | right].
        apply list_elem_of_In, filter_In. split; [now apply list_elem_of_In|].
        now rewrite bool_decide_eq_false_2. }
      assert (Hfresh : ∀ chunk, chunk ∈ new → id_text chunk ∉ dom db0).
      { intros chunk Hin. apply list_elem_of_In, filter_In in Hin as [_ Hin].
        apply negb_true_iff, bool_decide_eq_false in Hin. exact Hin. }
      destruct new as [|chunk new'] eqn:Enew.
      + injection Hfirst as <- <-. split; [|auto].
        apply Forall_forall. intros chunk Hin.
        destruct (Hnew chunk Hin) as [?|Hempty]; [assumption|].
        now apply elem_of_nil in Hempty.
      + rewrite <- Enew in *. clear Enew chunk new'.
        assert (Hhas_new : Forall has_id new).
        { apply Forall_forall. intros chunk Hin. rewrite Forall_forall in Hhas.
          apply Hhas. apply list_elem_of_In in Hin. apply filter_In in Hin as [Hin _].
          now apply list_elem_of_In. }
        rewrite (chunk_ids_ok _ Hhas_new) in Hfirst.
        cbn [mbind result_bind] in Hfirst.
        rewrite (for_each_ok _ (fun chunk => with_metadata chunk (cleaned (metadata chunk))))
          in Hfirst.
        2:{ apply Forall_forall. intros chunk _. now rewrite clean_metadata_ok. }
        cbn [mbind result_bind] in Hfirst. injection Hfirst as <- <-. split.
        * apply Forall_forall. intros chunk Hin.
          rewrite upsert_dom by now rewrite !length_map.
          destruct (Hnew chunk Hin) as [?|Hin']; [now apply elem_of_union_l|].
          apply elem_of_union_r, elem_of_list_to_set, list_elem_of_fmap.
          now exists chunk.
        * intros id doc Hdoc. rewrite upsert_lookup_other; [exact Hdoc|].
          intros Hin. apply list_elem_of_fmap in Hin as (chunk & -> & Hin).
          apply (Hfresh chunk Hin). apply elem_of_dom. now exists doc.
    - rewrite (chunk_ids_ok _ Hhas) in Hfirst. cbn [mbind result_bind] in Hfirst.
      injection Hfirst as <- <-. split; [|exact I].
      apply Forall_forall. intros chunk Hin.
      rewrite upsert_dom by now rewrite length_map.
      apply elem_of_union_r, elem_of_list_to_set, list_elem_of_fmap.
      now exists chunk. }
  destruct Hdom as [Hdom Hkept].
  assert (Hnone : new_chunks (dom db1) with_ids = Ok []).
  { rewrite (new_chunks_ok _ _ Hhas). f_equal. apply filter_none.
    eapply Forall_impl; [exact Hdom|]. intros chunk Hin. cbn beta.
    now rewrite bool_decide_eq_true_2. }
  split; [|split; [|exact Hkept]].
  - unfold save_to_chroma. rewrite Hids. cbn [mbind result_bind].
    now rewrite Hnone.
  - exists with_ids. split; [reflexivity|]. split; [|exact Hnone].
    rewrite Forall_forall in *. intros chunk Hin.
    exists (id_text chunk). split; [apply chunk_id_ok, Hhas, Hin | apply Hdom, Hin].
Qed.

(** A first run that creates the index, and the run after it. *)
Lemma second_run_inserts_nothing_witness :
  ∃ db1 calls,
    save_to_chroma split_chunks None = Ok (db1, calls) ∧
    save_to_chroma split_chunks (Some db1) = Ok (db1, []).
Proof.
  assert (Hok : is_ok (save_to_chroma split_chunks None) = true)
    by (vm_compute; reflexivity).
  destruct (is_ok_inv _ Hok) as [[db1 calls] Hfirst].
  exists db1, calls. split; [exact Hfirst|].
  exact (proj1 (second_run_inserts_nothing _ _ _ _ Hfirst)).
Defined.

End StoreWriter.

(* ===================================================================== *)
(** ** Further vocabulary *)
(* ===================================================================== *)

Module MoreProps.
Import Py DocxLoader LoadData Props.

(** The cleaning loop of [save_to_chroma] and of [main], over a list of
    chunks. *)
Definition clean_all (chunks : list Document) : result (list Document) :=
  for_each
    (fun chunk => md ← clean_metadata (objects (metadata chunk)); Ok (with_metadata chunk md))
    chunks.

(** A mapping without its [None] entries. *)
Definition without_none (md : gmap string pyval) : gmap string pyval :=
  filter (fun kv => is_none (snd kv) = false) md.

(** A chunk whose page is a list, as a loader might leave it. *)
Definition chunk_with_list_page : Document :=
  chunk_of "text" [("source", PStr "a.docx"); ("page", PObj "[1, 2]" true);
                   ("type", PNone); ("start_index", PInt 40)].

(** The stripped texts of the readable, non-blank paragraphs of a body, in
    document order. *)
Fixpoint paragraph_texts (body : list body_element) : list string :=
  match body with
  | [] => []
  | CT_P (Ok raw) :: body' =>
      if negb (strip raw =? "")%string then strip raw :: paragraph_texts body'
      else paragraph_texts body'
  | _ :: body' => paragraph_texts body'
  end.

(** The markdown of the tables of a body that are not dropped, in document
    order. *)
Fixpoint table_markdowns (body : list body_element) : list string :=
  match body with
  | [] => []
  | CT_Tbl table :: body' =>
      if negb (extract_docx_table table =? "")%string
      then extract_docx_table table :: table_markdowns body'
      else table_markdowns body'
  | _ :: body' => table_markdowns body'
  end.

(** The contents of the parts of one kind, in order. *)
Definition contents_of (kind : part_type) (parts : list content_part) : list string :=
  map part_content
    (List.filter
       (fun part =>
          match part_kind part, kind with
          | text_part, text_part | table_part, table_part => true
          | _, _ => false
          end)
       parts).

(** The parts an extraction builds its documents from. *)
Definition parts_of (body : list body_element) : result (list content_part) :=
  st ← walk walk_init body; Ok (add_remaining_text st).

End MoreProps.

(* ===================================================================== *)
(** ** More on the metadata normalizer *)
(* ===================================================================== *)

Module NormalizerMore.
Import Py DocxLoader LoadData Props MoreProps Normalizer.

Lemma cleaned_value_simple (value : pyval) : is_simple (cleaned_value value) = true.
Proof. now destruct value. Qed.

Lemma cleaned_value_fixed (value : pyval) :
  is_simple value = true → cleaned_value value = value.
Proof. unfold cleaned_value. now intros ->. Qed.

Lemma cleaned_twice (metadata : gmap string pyval) :
  cleaned (cleaned metadata) = cleaned metadata.
Proof.
  apply map_eq. intros key. rewrite !cleaned_lookup.
  destruct (decide (key ∈ keep_keys)); [|reflexivity].
  destruct (metadata !! key) as [value|]; [|reflexivity].
  cbn [fmap option_fmap option_map].
  now rewrite cleaned_value_fixed by apply cleaned_value_simple.
Qed.

(** X1: normalizing is idempotent: when [clean_metadata] returns a
    mapping, [clean_metadata] applied to that mapping returns it
    unchanged. *)
Theorem clean_metadata_idempotent
    (metadata : gmap string pyobject) (once : gmap string pyval)
    (Honce : clean_metadata metadata = Ok once) :
  clean_metadata (objects once) = Ok once.
Proof.
  rewrite clean_metadata_cases in Honce.
  destruct (first_unprintable metadata keep_keys); [discriminate|].
  injection Honce as <-. rewrite clean_metadata_ok. now rewrite cleaned_twice.
Qed.

(** The metadata of a chunk whose page is a list. *)
Lemma clean_metadata_idempotent_witness :
  ∃ once,
    clean_metadata (objects (metadata chunk_with_list_page)) = Ok once ∧
    once !! "page" = Some (PStr "[1, 2]") ∧
    clean_metadata (objects once) = Ok once.
Proof.
  exists (cleaned (metadata chunk_with_list_page)).
  split; [apply clean_metadata_ok|]. split; [vm_compute; reflexivity|].
  exact (clean_metadata_idempotent _ _ (clean_metadata_ok _)).
Defined.

End NormalizerMore.

(* ===================================================================== *)
(** ** The chunks [save_to_chroma] sorts *)
(* ===================================================================== *)

Module StorePrep.
Import Py DocxLoader LoadData Props MoreProps Normalizer NormalizerMore StoreWriter.

Lemma not_kept (key : string) :
  forallb (fun kept => negb (kept =? key)%string) keep_keys = true → key ∉ keep_keys.
Proof.
  intros Hall Hin. apply list_elem_of_In in Hin.
  rewrite forallb_forall in Hall. specialize (Hall _ Hin).
  now rewrite String.eqb_refl in Hall.
Qed.

Lemma clean_all_ok (chunks : list Document) :
  clean_all chunks =
    Ok (map (fun chunk => with_metadata chunk (cleaned (metadata chunk))) chunks).
Proof.
  unfold clean_all. apply for_each_ok. apply Forall_forall. intros chunk _.
  now rewrite clean_metadata_ok.
Qed.

Lemma prepare_ok (chunks : list Document) :
  clean_all (filter_complex_metadata chunks) = Ok (map prepared chunks).
Proof.
  rewrite clean_all_ok. unfold filter_complex_metadata. now rewrite map_map.
Qed.

Lemma prepared_lookup (chunk : Document) (key : string) (value : pyval) :
  metadata (prepared chunk) !! key = Some value ↔
    key ∈ keep_keys ∧ metadata chunk !! key = Some value ∧ is_scalar value = true.
Proof.
  unfold prepared. cbn [metadata with_metadata]. rewrite cleaned_lookup.
  destruct (decide (key ∈ keep_keys)) as [Hin|Hout]; [|split; [discriminate|tauto]].
  rewrite fmap_Some. split.
  - intros (v & Hv & ->). apply map_lookup_filter_Some in Hv as [Hv Hs].
    cbn [snd] in Hs. rewrite cleaned_value_fixed by now destruct v. tauto.
  - intros (_ & Hv & Hs). exists value. split.
    + now apply map_lookup_filter_Some.
    + symmetry. apply cleaned_value_fixed. now destruct value.
Qed.

Lemma prepared_start (chunk : Document) (key : pyval * Z * bool * Z) :
  sort_key (prepared chunk) = Ok key → snd key = 0.
Proof.
  assert (Hstart : metadata (prepared chunk) !! "start" = None).
  { destruct (metadata (prepared chunk) !! "start") as [v|] eqn:E; [|reflexivity].
    apply prepared_lookup in E as [Hin _]. exfalso. revert Hin. now apply not_kept. }
  unfold sort_key, get. rewrite Hstart.
  cbn [negb is_none].
  destruct (int _); cbn [mbind result_bind]; [|discriminate].
  now intros [= <-].
Qed.

(** X2: whatever the chunks carry, the chunks [save_to_chroma] sorts have
    neither a [start] nor a [start_index] entry left (the filter and the
    cleaning loop never raise and drop both), so the fourth component of
    every sort key is 0. *)
Theorem sort_never_sees_start (chunks : list Document) :
  ∃ ready,
    clean_all (filter_complex_metadata chunks) = Ok ready ∧
    chunks_with_ids chunks =
      (chunks_sorted ← sorted_by key_lt sort_key ready;
       Ok (calculate_chunk_ids chunks_sorted)) ∧
    length ready = length chunks ∧
    Forall (fun chunk =>
              metadata chunk !! "start" = None ∧
              metadata chunk !! "start_index" = None ∧
              ∀ key, sort_key chunk = Ok key → snd key = 0) ready.
Proof.
  exists (map prepared chunks).
  split; [apply prepare_ok|]. split; [apply chunks_with_ids_sorted|].
  split; [now rewrite length_map|].
  apply Forall_forall. intros ready Hin. apply list_elem_of_fmap in Hin as (chunk & -> & _).
  split; [|split].
  - destruct (metadata (prepared chunk) !! "start") as [v|] eqn:E; [|reflexivity].
    apply prepared_lookup in E as [Hin _]. exfalso. revert Hin. now apply not_kept.
  - destruct (metadata (prepared chunk) !! "start_index") as [v|] eqn:E; [|reflexivity].
    apply prepared_lookup in E as [Hin _]. exfalso. revert Hin. now apply not_kept.
  - apply prepared_start.
Qed.


Lemma cleaned_key (md : gmap string pyval) (key : string) (value : pyval) :
  cleaned md !! key = Some value →
  key ∈ keep_keys ∧ is_simple value = true ∧
  ∃ original, md !! key = Some original ∧ value = cleaned_value original.
Proof.
  rewrite cleaned_lookup. destruct (decide (key ∈ keep_keys)); [|discriminate].
  rewrite fmap_Some. intros (original & Ho & ->).
  split; [assumption|]. split; [apply cleaned_value_simple|]. now exists original.
Qed.

Lemma prepared_cleaned (md : gmap string pyval) :
  cleaned (filter (fun kv => is_scalar (snd kv) = true) (cleaned md))
    = without_none (cleaned md).
Proof.
  apply map_eq. intros key. apply option_eq. intros value.
  pose proof (prepared_lookup (mkDocument "" (cleaned md)) key value) as Hp.
  unfold prepared in Hp. cbn [metadata with_metadata] in Hp. rewrite Hp. clear Hp.
  unfold without_none. rewrite map_lookup_filter_Some. cbn [snd]. split.
  - intros (_ & Hv & Hs). split; [assumption|]. now destruct value.
  - intros (Hv & Hn). destruct (cleaned_key _ _ _ Hv) as (Hin & Hsimple & _).
    repeat split; try assumption. now destruct value.
Qed.

(** X3: a value that is not of a simple type (and can be printed), under
    a key that is kept, reaches the sort of [save_to_chroma] as its [str]
    text when the chunk has gone through the cleaning loop of [main]
    first; [save_to_chroma] alone drops the entry, since its filter runs
    before its cleaning. *)
Theorem complex_value_survives_only_through_main
    (chunk : Document) (key : string) (value : pyval)
    (Hkey : key ∈ keep_keys)
    (Hvalue : metadata chunk !! key = Some value)
    (Hcomplex : is_simple value = false) :
  (∃ direct,
     clean_all (filter_complex_metadata [chunk]) = Ok [direct] ∧
     metadata direct !! key = None) ∧
  (∃ once via,
     clean_all [chunk] = Ok [once] ∧
     clean_all (filter_complex_metadata [once]) = Ok [via] ∧
     metadata via !! key = Some (PStr (str value))).
Proof.
  split.
  - exists (prepared chunk). split; [apply (prepare_ok [chunk])|].
    destruct (metadata (prepared chunk) !! key) as [v|] eqn:E; [|reflexivity].
    apply prepared_lookup in E as (_ & Hv & Hs).
    rewrite Hvalue in Hv. injection Hv as <-. now destruct value.
  - exists (with_metadata chunk (cleaned (metadata chunk))).
    exists (prepared (with_metadata chunk (cleaned (metadata chunk)))).
    split; [apply (clean_all_ok [chunk])|]. split; [apply (prepare_ok [_])|].
    apply prepared_lookup. cbn [metadata with_metadata].
    split; [assumption|]. split; [|reflexivity].
    rewrite cleaned_lookup. rewrite decide_True by assumption.
    rewrite Hvalue. cbn [fmap option_fmap option_map]. unfold cleaned_value.
    now rewrite Hcomplex.
Qed.

(** A page given as a list. *)
Lemma complex_value_survives_only_through_main_witness :
  "page" ∈ keep_keys ∧
  metadata chunk_with_list_page !! "page" = Some (PObj "[1, 2]" true) ∧
  (∃ direct,
     clean_all (filter_complex_metadata [chunk_with_list_page]) = Ok [direct] ∧
     metadata direct !! "page" = None) ∧
  (∃ once via,
     clean_all [chunk_with_list_page] = Ok [once] ∧
     clean_all (filter_complex_metadata [once]) = Ok [via] ∧
     metadata via !! "page" = Some (PStr "[1, 2]")).
Proof.
  assert (Hkey : "page" ∈ keep_keys) by (unfold keep_keys; member).
  assert (Hvalue : metadata chunk_with_list_page !! "page" = Some (PObj "[1, 2]" true))
    by reflexivity.
  split; [exact Hkey|]. split; [exact Hvalue|].
  exact (complex_value_survives_only_through_main
           chunk_with_list_page "page" (PObj "[1, 2]" true) Hkey Hvalue eq_refl).
Defined.

(** X4: a chunk that has gone through the cleaning loop of [main] is sorted
    by [save_to_chroma] with exactly the cleaned metadata minus its [None]
    entries. *)
Theorem cleaned_chunk_loses_only_none (chunk : Document) :
  ∃ once via,
    clean_all [chunk] = Ok [once] ∧
    clean_all (filter_complex_metadata [once]) = Ok [via] ∧
    page_content via = page_content chunk ∧
    metadata via = without_none (metadata once) ∧
    ∀ key, metadata via !! key =
             match metadata once !! key with
             | Some PNone => None
             | other => other
             end.
Proof.
  exists (with_metadata chunk (cleaned (metadata chunk))).
  exists (prepared (with_metadata chunk (cleaned (metadata chunk)))).
  split; [apply (clean_all_ok [chunk])|]. split; [apply (prepare_ok [_])|].
  split; [reflexivity|].
  unfold prepared. cbn [metadata with_metadata]. rewrite prepared_cleaned.
  split; [reflexivity|]. intros key. unfold without_none.
  rewrite map_lookup_filter.
  destruct (cleaned (metadata chunk) !! key) as [[]|]; reflexivity.
Qed.

End StorePrep.

(* ===================================================================== *)
(** ** More on the store writer *)
(* ===================================================================== *)

Module StoreWriterMore.
Import Py DocxLoader LoadData Props MoreProps Normalizer NormalizerMore StorePrep.
Import IdAssigner SortFacts KeyOrder StoreWriter.

(** Every entry is under a kept key and holds a [str], [bool], [int] or
    [float]. *)
Definition store_ready (chunk : Document) : Prop :=
  ∀ key value, metadata chunk !! key = Some value →
    key ∈ keep_keys ∧ is_scalar value = true.

(** The documents and the IDs a call hands to the store. *)
Definition written (call : store_call) : list Document :=
  match call with
  | from_documents documents _ | add_documents documents _ => documents
  end.
Definition written_ids (call : store_call) : list string :=
  match call with
  | from_documents _ ids | add_documents _ ids => ids
  end.

(** The entries of the index a run finds; none when there is no index. *)
Definition entries_of (db : option (gmap string Document)) : gmap string Document :=
  match db with Some entries => entries | None => ∅ end.

(** The chunks of a run whose ID the index does not hold yet. *)
Definition missing_from (db : gmap string Document) (with_ids : list Document)
  : list Document :=
  List.filter (fun chunk => negb (bool_decide (id_text chunk ∈ dom db))) with_ids.

Lemma store_ready_cleaned (chunk : Document) :
  store_ready chunk → with_metadata chunk (cleaned (metadata chunk)) = chunk.
Proof.
  intros Hready. destruct chunk as [text md]. unfold with_metadata.
  cbn [page_content metadata] in *. f_equal.
  apply map_eq. intros key. rewrite cleaned_lookup.
  destruct (md !! key) as [value|] eqn:E.
  - destruct (Hready key value E) as [Hin Hs].
    rewrite decide_True by assumption. cbn [fmap option_fmap option_map].
    f_equal. apply cleaned_value_fixed. now destruct value.
  - now destruct (decide _).
Qed.

Lemma prepared_ready (chunk : Document) : store_ready (prepared chunk).
Proof.
  intros key value Hv. apply prepared_lookup in Hv. tauto.
Qed.

Lemma for_each_keyed {A K} (key : A → result K) (l : list A) (keyed : list (K * A)) :
  for_each (fun x => k ← key x; Ok (k, x)) l = Ok keyed → map snd keyed = l.
Proof.
  revert keyed. induction l as [|x l IH]; intros keyed; cbn [for_each].
  - now intros [= <-].
  - destruct (key x) as [k|]; cbn [mbind result_bind]; [|discriminate].
    destruct (for_each _ l) as [rest|]; cbn [mbind result_bind]; [|discriminate].
    intros [= <-]. cbn [map snd]. now rewrite (IH rest).
Qed.

Lemma sorted_by_perm {A K} (lt : K → K → result bool) (key : A → result K)
    (l sorted : list A) :
  sorted_by lt key l = Ok sorted → sorted ≡ₚ l.
Proof.
  unfold sorted_by.
  destruct (for_each _ l) as [keyed|] eqn:E; cbn [mbind result_bind]; [|discriminate].
  destruct (comparable lt keyed); [|discriminate]. intros [= <-].
  rewrite <- (for_each_keyed _ _ _ E). apply Permutation_map, sort_by_perm.
Qed.

Lemma assign_ids_ready (st : id_state) (chunks : list Document) :
  Forall store_ready chunks → Forall store_ready (assign_ids st chunks).
Proof.
  intros H. revert st. induction H as [|chunk chunks Hc _ IH]; intros st; [constructor|].
  cbn [assign_ids assign_id]. constructor; [|apply IH].
  intros key value. cbn [metadata with_metadata]. rewrite lookup_insert_Some.
  intros [[<- <-]|[_ Hv]]; [|now apply Hc].
  split; [unfold keep_keys; member | reflexivity].
Qed.

Lemma chunks_with_ids_ready (chunks with_ids : list Document) :
  chunks_with_ids chunks = Ok with_ids → Forall store_ready with_ids.
Proof.
  rewrite chunks_with_ids_sorted.
  destruct (sorted_by key_lt sort_key (map prepared chunks)) as [sorted|] eqn:E;
    cbn [mbind result_bind]; [|discriminate].
  intros [= <-]. apply assign_ids_ready.
  apply sorted_by_perm in E. rewrite E.
  apply Forall_forall. intros ready Hin.
  apply list_elem_of_fmap in Hin as (chunk & -> & _). apply prepared_ready.
Qed.

Lemma filter_Forall {A} (P : A → Prop) (f : A → bool) (l : list A) :
  Forall P l → Forall P (List.filter f l).
Proof.
  intros H. induction H as [|x l Hx _ IH]; [constructor|].
  cbn [List.filter]. destruct (f x); [constructor|]; assumption.
Qed.

(** [save_to_chroma] without the steps that cannot fail. *)
Lemma save_to_chroma_steps (chunks : list Document) (db : option (gmap string Document)) :
  save_to_chroma chunks db =
    (with_ids ← chunks_with_ids chunks;
     match db with
     | Some db =>
         let new := missing_from db with_ids in
         match new with
         | _ :: _ => Ok (upsert db new (map id_text new),
                         [add_documents new (map id_text new)])
         | [] => Ok (db, [])
         end
     | None => Ok (upsert ∅ with_ids (map id_text with_ids),
                   [from_documents with_ids (map id_text with_ids)])
     end).
Proof.
  unfold save_to_chroma.
  destruct (chunks_with_ids chunks) as [with_ids|] eqn:Hids;
    cbn [mbind result_bind]; [|reflexivity].
  pose proof (chunks_with_ids_has_id _ _ Hids) as Hhas.
  pose proof (chunks_with_ids_ready _ _ Hids) as Hready.
  destruct db as [db|].
  - rewrite (new_chunks_ok _ _ Hhas). cbn [mbind result_bind].
    fold (missing_from db with_ids).
    assert (Hhas_new : Forall has_id (missing_from db with_ids))
      by now apply filter_Forall.
    assert (Hready_new : Forall store_ready (missing_from db with_ids))
      by now apply filter_Forall.
    destruct (missing_from db with_ids) as [|chunk new] eqn:Enew; [reflexivity|].
    rewrite <- Enew in *. rewrite (chunk_ids_ok _ Hhas_new). cbn [mbind result_bind].
    rewrite (for_each_ok _ (fun chunk => chunk)).
    + cbn [mbind result_bind]. now rewrite map_id.
    + eapply Forall_impl; [exact Hready_new|]. intros c Hc. cbn beta.
      rewrite clean_metadata_ok. cbn [mbind result_bind].
      now rewrite store_ready_cleaned.
  - now rewrite (chunk_ids_ok _ Hhas).
Qed.


Lemma upsert_lookup (db : gmap string Document) (documents : list Document)
    (id : string) (doc : Document) :
  upsert db documents (map id_text documents) !! id = Some doc →
  db !! id = Some doc ∨ (doc ∈ documents ∧ id_text doc = id).
Proof.
  unfold upsert. revert db.
  induction documents as [|d documents IH]; intros db; [now left|].
  cbn [map combine fold_left fst snd]. intros H.
  destruct (IH _ H) as [Hdb|[Hin Hid]].
  - apply lookup_insert_Some in Hdb as [[Hid ->]|[_ Hdb]]; [right | now left].
    split; [now left | exact Hid].
  - right. split; [now right | exact Hid].
Qed.

Lemma missing_from_fresh (db : gmap string Document) (with_ids : list Document)
    (chunk : Document) :
  chunk ∈ missing_from db with_ids → chunk ∈ with_ids ∧ id_text chunk ∉ dom db.
Proof.
  intros Hin. apply list_elem_of_In, filter_In in Hin as [Hin Hout].
  split; [now apply list_elem_of_In|].
  now apply negb_true_iff, bool_decide_eq_false in Hout.
Qed.

Lemma missing_from_ids (db : gmap string Document) (with_ids : list Document) :
  dom db ∪ list_to_set (map id_text (missing_from db with_ids))
    = dom db ∪ list_to_set (map id_text with_ids).
Proof.
  apply set_eq. intros id. rewrite !elem_of_union, !elem_of_list_to_set.
  rewrite !list_elem_of_fmap. split.
  - intros [?|(chunk & -> & Hin)]; [now left | right].
    exists chunk. split; [reflexivity|]. now apply missing_from_fresh in Hin.
  - intros [?|(chunk & -> & Hin)]; [now left|].
    destruct (decide (id_text chunk ∈ dom db)) as [|Hout]; [now left | right].
    exists chunk. split; [reflexivity|].
    apply list_elem_of_In, filter_In. split; [now apply list_elem_of_In|].
    now rewrite bool_decide_eq_false_2.
Qed.

(** X5: whatever a successful run of [save_to_chroma] hands to the store
    has only kept keys with [str], [bool], [int] or [float] values, carries
    a string ID, and comes with the list of exactly these IDs, in the same
    order; a run makes at most one call, and never calls [add_documents]
    with an empty batch. *)
Theorem store_receives_clean_chunks_with_their_ids
    (chunks : list Document) (db : option (gmap string Document))
    (db' : gmap string Document) (calls : list store_call)
    (Hrun : save_to_chroma chunks db = Ok (db', calls)) :
  (length calls ≤ 1)%nat ∧
  Forall (fun call =>
            Forall (fun chunk => store_ready chunk ∧ has_id chunk) (written call) ∧
            written_ids call = map id_text (written call))
         calls ∧
  ∀ documents ids, add_documents documents ids ∈ calls → documents ≠ [].
Proof.
  rewrite save_to_chroma_steps in Hrun.
  destruct (chunks_with_ids chunks) as [with_ids|] eqn:Hids;
    cbn [mbind result_bind] in Hrun; [|discriminate].
  pose proof (chunks_with_ids_has_id _ _ Hids) as Hhas.
  pose proof (chunks_with_ids_ready _ _ Hids) as Hready.
  assert (Hboth : Forall (fun chunk => store_ready chunk ∧ has_id chunk) with_ids).
  { rewrite Forall_forall in *. intros chunk Hin. split; [apply Hready | apply Hhas]; exact Hin. }
  destruct db as [db|].
  - cbn zeta in Hrun.
    destruct (missing_from db with_ids) as [|chunk new] eqn:Enew.
    + injection Hrun as <- <-. split; [cbn; lia|]. split; [constructor|].
      intros documents ids Hin. now apply elem_of_nil in Hin.
    + injection Hrun as <- <-. split; [cbn; lia|]. split.
      * constructor; [|constructor]. cbn [written written_ids]. split; [|reflexivity].
        rewrite <- Enew. now apply filter_Forall.
      * intros documents ids Hin. apply list_elem_of_singleton in Hin.
        injection Hin as -> _. discriminate.
  - injection Hrun as <- <-. split; [cbn; lia|]. split.
    + constructor; [|constructor]. cbn [written written_ids]. now split.
    + intros documents ids Hin. apply list_elem_of_singleton in Hin. discriminate.
Qed.

(** The chunks the splitter cuts, saved into a fresh index. *)
Lemma store_receives_clean_chunks_with_their_ids_witness :
  ∃ db' calls,
    save_to_chroma split_chunks None = Ok (db', calls) ∧
    (length calls ≤ 1)%nat ∧
    Forall (fun call =>
              Forall (fun chunk => store_ready chunk ∧ has_id chunk) (written call) ∧
              written_ids call = map id_text (written call))
           calls ∧
    ∀ documents ids, add_documents documents ids ∈ calls → documents ≠ [].
Proof.
  assert (Hok : is_ok (save_to_chroma split_chunks None) = true)
    by (vm_compute; reflexivity).
  destruct (is_ok_inv _ Hok) as [[db' calls] Hrun].
  exists db', calls. split; [exact Hrun|].
  exact (store_receives_clean_chunks_with_their_ids split_chunks None db' calls Hrun).
Defined.

(** X6: after a successful run the index holds the IDs it held before and
    the IDs of the chunks of this run, and nothing else; an entry it held
    before is unchanged, and every other entry is a chunk of this run,
    stored under the ID its metadata carries. *)
Theorem index_after_run
    (chunks : list Document) (db : option (gmap string Document))
    (db' : gmap string Document) (calls : list store_call)
    (Hrun : save_to_chroma chunks db = Ok (db', calls)) :
  ∃ with_ids,
    chunks_with_ids chunks = Ok with_ids ∧
    dom db' = dom (entries_of db) ∪ list_to_set (map id_text with_ids) ∧
    ∀ id doc, db' !! id = Some doc →
      match entries_of db !! id with
      | Some old => doc = old
      | None => doc ∈ with_ids ∧ id_text doc = id
      end.
Proof.
  rewrite save_to_chroma_steps in Hrun.
  destruct (chunks_with_ids chunks) as [with_ids|] eqn:Hids;
    cbn [mbind result_bind] in Hrun; [|discriminate].
  exists with_ids. split; [reflexivity|].
  destruct db as [db|]; cbn [entries_of].
  - cbn zeta in Hrun.
    destruct (missing_from db with_ids) as [|chunk new] eqn:Enew.
    + injection Hrun as <- <-. split.
      * rewrite <- missing_from_ids, Enew. cbn [map list_to_set].
        now rewrite union_empty_r_L.
      * intros id doc Hdoc. rewrite Hdoc. reflexivity.
    + rewrite <- Enew in *. injection Hrun as <- <-. split.
      * rewrite upsert_dom by now rewrite length_map. apply missing_from_ids.
      * intros id doc Hdoc.
        destruct (db !! id) as [old|] eqn:Hold.
        -- rewrite upsert_lookup_other in Hdoc; [congruence|].
           intros Hin. apply list_elem_of_fmap in Hin as (c & -> & Hin).
           apply missing_from_fresh in Hin as [_ Hout]. apply Hout.
           apply elem_of_dom. now exists old.
        -- apply upsert_lookup in Hdoc as [Hdoc|[Hin Hid]]; [congruence|].
           split; [|exact Hid]. now apply missing_from_fresh in Hin.
  - injection Hrun as <- <-. split.
    + rewrite upsert_dom by now rewrite length_map. reflexivity.
    + intros id doc Hdoc. rewrite lookup_empty.
      apply upsert_lookup in Hdoc as [Hdoc|Hdoc]; [|exact Hdoc].
      now rewrite lookup_empty in Hdoc.
Qed.

(** A run on an index that holds one of the three IDs already. *)
Lemma index_after_run_witness :
  ∃ db' calls with_ids,
    save_to_chroma split_chunks
      (Some {["a.docx:docx:page_0:chunk_1" := mkDocument "old" ∅]}) = Ok (db', calls) ∧
    chunks_with_ids split_chunks = Ok with_ids ∧
    dom db' = {["a.docx:docx:page_0:chunk_1"]} ∪ list_to_set (map id_text with_ids) ∧
    db' !! "a.docx:docx:page_0:chunk_1" = Some (mkDocument "old" ∅).
Proof.
  set (db := {["a.docx:docx:page_0:chunk_1" := mkDocument "old" ∅]} : gmap string Document).
  assert (Hok : is_ok (save_to_chroma split_chunks (Some db)) = true)
    by (vm_compute; reflexivity).
  destruct (is_ok_inv _ Hok) as [[db' calls] Hrun].
  destruct (index_after_run split_chunks (Some db) db' calls Hrun)
    as (with_ids & Hids & Hdom & Hentries).
  exists db', calls, with_ids. split; [exact Hrun|]. split; [exact Hids|].
  split.
  - rewrite Hdom. cbn [entries_of]. unfold db. now rewrite dom_singleton_L.
  - assert (Hin : "a.docx:docx:page_0:chunk_1" ∈ dom db').
    { rewrite Hdom. apply elem_of_union_l. cbn [entries_of]. unfold db.
      rewrite dom_singleton_L. now apply elem_of_singleton. }
    apply elem_of_dom in Hin as [doc Hdoc]. rewrite Hdoc. f_equal.
    exact (Hentries _ _ Hdoc).
Defined.



Lemma for_each_elem {A B} (f : A → result B) (l : list A) (ys : list B) (x : A) :
  for_each f l = Ok ys → x ∈ l → ∃ y, f x = Ok y ∧ y ∈ ys.
Proof.
  revert ys. induction l as [|a l IH]; intros ys Hys Hin.
  - now apply elem_of_nil in Hin.
  - cbn [for_each] in Hys.
    destruct (f a) as [y|] eqn:Ey; cbn [mbind result_bind] in Hys; [|discriminate].
    destruct (for_each f l) as [rest|]; cbn [mbind result_bind] in Hys; [|discriminate].
    injection Hys as <-. apply elem_of_cons in Hin as [->|Hin].
    + exists y. split; [exact Ey | now left].
    + destruct (IH rest eq_refl Hin) as (y' & Hy' & Hin'). exists y'.
      split; [exact Hy' | now right].
Qed.

Lemma keyed_entry (ready : list Document) (keyed : list ((pyval * Z * bool * Z) * Document))
    (chunk : Document) :
  for_each (fun x => k ← sort_key x; Ok (k, x)) ready = Ok keyed →
  chunk ∈ ready →
  ∃ key, sort_key chunk = Ok key ∧ (key, chunk) ∈ keyed.
Proof.
  intros Hkeyed Hin. destruct (for_each_elem _ _ _ _ Hkeyed Hin) as (y & Hy & Hin').
  destruct (sort_key chunk) as [key|]; cbn [mbind result_bind] in Hy; [|discriminate].
  injection Hy as <-. now exists key.
Qed.

(** X8: when one chunk has no source and another has a string as its
    source, [save_to_chroma] raises, whether it finds an index or not: the
    sort cannot compare [None] with a string. *)
Theorem missing_source_fails_the_run
    (chunks : list Document) (db : option (gmap string Document))
    (a b : Document) (source : string)
    (Ha : a ∈ chunks) (Hb : b ∈ chunks)
    (Hnone : metadata a !! "source" = None)
    (Hsource : metadata b !! "source" = Some (PStr source)) :
  ∃ e, save_to_chroma chunks db = Raise e.
Proof.
  rewrite save_to_chroma_steps, chunks_with_ids_sorted. unfold sorted_by.
  destruct (for_each _ (map prepared chunks)) as [keyed|e] eqn:Hkeyed;
    cbn [mbind result_bind]; [|now exists e].
  destruct (comparable key_lt keyed) eqn:Hcmp;
    cbn [mbind result_bind]; [exfalso | now exists TypeError].
  destruct (keyed_entry _ _ (prepared a) Hkeyed) as (ka & Hka & Hina).
  { apply list_elem_of_fmap. now exists a. }
  destruct (keyed_entry _ _ (prepared b) Hkeyed) as (kb & Hkb & Hinb).
  { apply list_elem_of_fmap. now exists b. }
  pose proof (pairwise_true (fun x y => is_ok (key_lt (fst x) (fst y)))
                keyed _ _ Hcmp Hina Hinb) as Hok.
  cbn [fst] in Hok.
  apply sort_key_source in Hka, Hkb. unfold get in Hka, Hkb.
  assert (Ea : metadata (prepared a) !! "source" = None).
  { destruct (metadata (prepared a) !! "source") as [v|] eqn:E; [|reflexivity].
    apply prepared_lookup in E as (_ & E & _). congruence. }
  assert (Eb : metadata (prepared b) !! "source" = Some (PStr source)).
  { apply prepared_lookup. split; [unfold keep_keys; member | now split]. }
  rewrite Ea in Hka. rewrite Eb in Hkb.
  destruct ka as [[[sa pa] ta] oa], kb as [[[sb pb] tb] ob].
  cbn [fst] in Hka, Hkb. subst sa sb. discriminate Hok.
Qed.

(** A chunk without a source beside one with a source. *)
Lemma missing_source_fails_the_run_witness :
  ∃ e, save_to_chroma
         [chunk_of "x" [("page", PInt 0)]; chunk_of "y" [("source", PStr "a.docx")]]
         None = Raise e.
Proof.
  apply (missing_source_fails_the_run _ None
           (chunk_of "x" [("page", PInt 0)])
           (chunk_of "y" [("source", PStr "a.docx")]) "a.docx").
  - member.
  - member.
  - reflexivity.
  - reflexivity.
Defined.


(** *** The sort puts the chunks in order *)

Section SortedOutput.
Context {A K : Type}.
Variable key_lt : K → K → result bool.
Variable P : K → Prop.
Hypothesis lt_asym : ∀ a b, P a → P b →
  ltb key_lt a b = true → ltb key_lt b a = false.
Hypothesis le_trans : ∀ a b c, P a → P b → P c →
  ltb key_lt b a = false → ltb key_lt c b = false → ltb key_lt c a = false.

(** [y] may follow [x]: its key is not smaller. *)
Local Abbreviation may_follow := (fun x y : K * A => ltb key_lt (fst y) (fst x) = false).

Lemma insert_by_sorted (x : K * A) (l : list (K * A)) :
  P (fst x) → Forall (fun y => P (fst y)) l →
  StronglySorted may_follow l → StronglySorted may_follow (insert_by key_lt x l).
Proof.
  intros Hx Hl Hsorted. induction Hsorted as [|y l Hsorted IH Hy]; cbn [insert_by].
  - repeat constructor.
  - apply Forall_cons in Hl as [HPy Hl].
    destruct (ltb key_lt (fst y) (fst x)) eqn:Hyx.
    + constructor; [now apply IH|].
      apply (insert_by_Forall key_lt (fun z => ltb key_lt (fst z) (fst y) = false));
        [|exact Hy].
      now apply lt_asym.
    + constructor; [now constructor|].
      constructor; [exact Hyx|].
      rewrite Forall_forall in *. intros z Hz.
      apply (le_trans _ (fst y)); auto.
Qed.

Lemma sort_by_sorted (l : list (K * A)) :
  Forall (fun y => P (fst y)) l → StronglySorted may_follow (sort_by key_lt l).
Proof.
  intros Hl. induction Hl as [|x l Hx Hl IH]; cbn [sort_by]; [constructor|].
  apply insert_by_sorted; [exact Hx | | exact IH].
  now apply sort_by_Forall, Forall_forall; rewrite Forall_forall in Hl.
Qed.
End SortedOutput.

Lemma sorted_entries_by_key (entries : list ((pyval * Z * bool * Z) * Document)) :
  Forall (fun entry => sort_key (snd entry) = Ok (fst entry) ∧ string_keyed (fst entry))
         entries →
  StronglySorted (fun x y => ltb key_lt (fst y) (fst x) = false) entries →
  sorted_by_key (map snd entries) = true.
Proof.
  intros Hall Hsorted. induction Hsorted as [|x l Hsorted IH Hx]; [reflexivity|].
  apply Forall_cons in Hall as [[Hkx Hsx] Hall].
  cbn [map sorted_by_key]. apply andb_true_intro. split; [|now apply IH].
  apply forallb_forall. intros b Hb. apply in_map_iff in Hb as (y & <- & Hy).
  rewrite Forall_forall in Hx, Hall. apply list_elem_of_In in Hy.
  specialize (Hx y Hy). destruct (Hall y Hy) as [Hky Hsy].
  unfold precedes. rewrite Hkx, Hky.
  destruct Hsx as (s & p & t & o & Ex), Hsy as (s' & p' & t' & o' & Ey).
  rewrite Ex, Ey in *. unfold ltb in Hx. rewrite key_lt_compare in Hx |- *.
  now rewrite Hx.
Qed.

Lemma pairwise_perm {A} (test : A → A → bool) (l l' : list A) :
  l' ≡ₚ l →
  forallb (fun a => forallb (fun b => test a b) l) l = true →
  forallb (fun a => forallb (fun b => test a b) l') l' = true.
Proof.
  intros Hperm H. apply forallb_forall. intros a Ha.
  apply forallb_forall. intros b Hb.
  apply (pairwise_true test l); [exact H | |]; apply list_elem_of_In;
    eapply Permutation_in; eauto.
Qed.

Lemma typed_sortable (chunk : Document) :
  id_typed (prepared chunk) = true → sortable chunk = true.
Proof.
  unfold id_typed, sortable. intros H. apply andb_prop in H as [Hsource Hpage].
  apply andb_true_intro. split; [exact Hsource|].
  assert (Hstart : metadata (prepared chunk) !! "start" = None).
  { destruct (metadata (prepared chunk) !! "start") as [v|] eqn:E; [|reflexivity].
    apply prepared_lookup in E as [Hin _]. exfalso. revert Hin. now apply not_kept. }
  unfold sort_key, get. rewrite Hstart.
  now destruct (metadata (prepared chunk) !! "page") as [[]|].
Qed.

Lemma has_id_assigned (chunks : list Document) :
  Forall has_id chunks →
  assigned_ids chunks = map (fun id => Some (PStr id)) (map id_text chunks).
Proof.
  intros H. unfold assigned_ids.
  induction H as [|chunk chunks [s Hs] _ IH]; [reflexivity|].
  cbn [map]. f_equal; [|exact IH]. unfold id_text. now rewrite Hs.
Qed.

(** Chunks of the shape the loader gives are sorted into groups of one
    page identity. *)
Lemma sorted_typed_chunks (chunks : list Document) :
  forallb id_typed (map prepared chunks) = true →
  same_file_type (map prepared chunks) = true →
  ocr_by_section (map prepared chunks) = true →
  ∃ sorted,
    sorted_by key_lt sort_key (map prepared chunks) = Ok sorted ∧
    sorted ≡ₚ map prepared chunks ∧
    grouped (page_ids sorted).
Proof.
  intros Htyped Hfile_type Hocr.
  assert (Hsortable : forallb sortable chunks = true).
  { apply forallb_forall. intros chunk Hin. apply typed_sortable.
    rewrite forallb_forall in Htyped. apply Htyped. now apply in_map. }
  set (sorted := map snd (sort_by key_lt (keyed chunks))).
  assert (Hsorted_by : sorted_by key_lt sort_key (map prepared chunks) = Ok sorted).
  { unfold sorted_by. rewrite for_each_map.
    rewrite (for_each_ok _ (fun chunk => (key_of chunk, prepared chunk))).
    - cbn [mbind result_bind]. fold (keyed chunks).
      now rewrite (keyed_comparable _ Hsortable).
    - apply Forall_forall. intros chunk Hin. rewrite forallb_forall in Hsortable.
      destruct (sortable_key chunk (Hsortable _ (proj1 (list_elem_of_In _ _) Hin)))
        as [-> _].
      reflexivity. }
  assert (Hperm : sorted ≡ₚ map prepared chunks)
    by exact (sorted_by_perm _ _ _ _ Hsorted_by).
  assert (Hkeyed : Forall (fun entry => sort_key (snd entry) = Ok (fst entry)
                                        ∧ string_keyed (fst entry)) (keyed chunks)).
  { unfold keyed. apply Forall_fmap, Forall_forall. intros chunk Hin.
    rewrite forallb_forall in Hsortable.
    now apply sortable_key, Hsortable, list_elem_of_In. }
  exists sorted. split; [exact Hsorted_by|]. split; [exact Hperm|].
  apply typed_sorted_grouped.
  - apply forallb_forall. intros chunk Hin.
    rewrite forallb_forall in Htyped. apply Htyped.
    eapply Permutation_in; [exact Hperm | exact Hin].
  - apply sorted_entries_by_key.
    + now apply sort_by_Forall.
    + apply (sort_by_sorted key_lt string_keyed key_lt_asym key_le_trans).
      eapply Forall_impl; [exact Hkeyed|]. now intros entry [_ ?].
  - unfold same_file_type in *. now apply (pairwise_perm _ _ _ Hperm).
  - unfold ocr_by_section in *. now apply (pairwise_perm _ _ _ Hperm).
Qed.

(** A run on a fresh index whose sorted chunks are grouped by page
    identity. *)
Lemma fresh_index_of_grouped (chunks sorted : list Document) :
  sorted_by key_lt sort_key (map prepared chunks) = Ok sorted →
  sorted ≡ₚ map prepared chunks →
  grouped (page_ids sorted) →
  ∃ db' with_ids,
    save_to_chroma chunks None =
      Ok (db', [from_documents with_ids (map id_text with_ids)]) ∧
    NoDup (map id_text with_ids) ∧
    length with_ids = length chunks ∧
    size db' = length chunks.
Proof.
  intros Hsorted_by Hperm Hgrouped.
  assert (Hids : chunks_with_ids chunks = Ok (calculate_chunk_ids sorted)).
  { rewrite chunks_with_ids_sorted, Hsorted_by. reflexivity. }
  pose proof (chunks_with_ids_has_id _ _ Hids) as Hhas.
  assert (Hnodup : NoDup (map id_text (calculate_chunk_ids sorted))).
  { apply (NoDup_fmap_1 (fun id => Some (PStr id))).
    change (NoDup (map (fun id => Some (PStr id))
                     (map id_text (calculate_chunk_ids sorted)))).
    rewrite <- (has_id_assigned _ Hhas). now apply grouped_ids_distinct. }
  assert (Hlen : length (calculate_chunk_ids sorted) = length chunks).
  { transitivity (length (assigned_ids (calculate_chunk_ids sorted)));
      [unfold assigned_ids; now rewrite length_map|].
    rewrite calculate_chunk_ids_numbered, length_map.
    rewrite <- (length_map fst), numbered_fst. unfold page_ids. rewrite length_map.
    rewrite (Permutation_length Hperm). now rewrite length_map. }
  eexists _, (calculate_chunk_ids sorted).
  split; [|split; [exact Hnodup|split; [exact Hlen|]]].
  - rewrite save_to_chroma_steps, Hids. reflexivity.
  - rewrite <- size_dom, upsert_dom by now rewrite length_map.
    rewrite dom_empty_L, union_empty_l_L.
    rewrite size_list_to_set by exact Hnodup. now rewrite length_map.
Qed.



(** *** The sort is stable *)

Section Stable.
Context {A K : Type}.
Variable key_lt : K → K → result bool.
Variable P : K → Prop.
Hypothesis le_trans : ∀ a b c, P a → P b → P c →
  ltb key_lt b a = false → ltb key_lt c b = false → ltb key_lt c a = false.

(** The sort does not tell the key [k] and the key of [entry] apart. *)
Definition tied_to (k : K) (entry : K * A) : bool :=
  negb (ltb key_lt k (fst entry)) && negb (ltb key_lt (fst entry) k).

Lemma tied_to_tie (k : K) (x : K * A) :
  tied_to k x = true ↔ tie key_lt (k, snd x) x.
Proof.
  unfold tied_to, tie. cbn [fst]. rewrite andb_true_iff, !negb_true_iff. tauto.
Qed.

Lemma insert_by_class (k : K) (x : K * A) (l : list (K * A)) :
  P k → P (fst x) → Forall (fun y => P (fst y)) l →
  List.filter (tied_to k) (insert_by key_lt x l) = List.filter (tied_to k) (x :: l).
Proof.
  intros Hk Hx Hl. induction Hl as [|y l Hy _ IH]; [reflexivity|].
  cbn [insert_by]. destruct (ltb key_lt (fst y) (fst x)) eqn:Hyx; [|reflexivity].
  cbn [List.filter] in *. rewrite IH.
  destruct (tied_to k y) eqn:Ty, (tied_to k x) eqn:Tx; try reflexivity.
  exfalso. apply tied_to_tie in Ty, Tx.
  assert (Hxy : tie key_lt x y).
  { apply (tie_trans key_lt P le_trans x (k, snd x) y); try assumption.
    now apply tie_sym. }
  destruct Hxy as [_ Hxy]. congruence.
Qed.

Lemma sort_by_class (k : K) (l : list (K * A)) :
  P k → Forall (fun y => P (fst y)) l →
  List.filter (tied_to k) (sort_by key_lt l) = List.filter (tied_to k) l.
Proof.
  intros Hk Hl. induction Hl as [|x l Hx Hl IH]; [reflexivity|].
  cbn [sort_by]. rewrite insert_by_class; try assumption.
  - cbn [List.filter]. now rewrite IH.
  - apply sort_by_Forall. exact Hl.
Qed.
End Stable.

(** The sort of [save_to_chroma] does not tell the two chunks apart: their
    keys can be computed and neither is smaller. *)
Definition tied_chunks (a b : Document) : bool :=
  match sort_key a, sort_key b with
  | Ok ka, Ok kb => negb (ltb key_lt ka kb) && negb (ltb key_lt kb ka)
  | _, _ => false
  end.

Lemma filter_map_snd {A K} (f : A → bool) (g : K * A → bool) (l : list (K * A)) :
  Forall (fun entry => f (snd entry) = g entry) l →
  List.filter f (map snd l) = map snd (List.filter g l).
Proof.
  intros H. induction H as [|x l Hx _ IH]; [reflexivity|].
  cbn [map List.filter]. rewrite Hx, IH. now destruct (g x).
Qed.

(** X25: the sort of [save_to_chroma] is stable: when every chunk has a
    string as its source and a key that can be computed, the chunks that
    the sort does not tell apart from a given chunk (the key has no start
    offset left, so: those of its source, page and has_table) stand in the
    sorted list in the order they had in the input. *)
Theorem sort_keeps_input_order_within_a_section
    (chunks : list Document) (chunk : Document)
    (Hsortable : forallb sortable chunks = true)
    (Hchunk : chunk ∈ chunks) :
  ∃ sorted,
    sorted_by key_lt sort_key (map prepared chunks) = Ok sorted ∧
    List.filter (tied_chunks (prepared chunk)) sorted =
      List.filter (tied_chunks (prepared chunk)) (map prepared chunks).
Proof.
  exists (map snd (sort_by key_lt (keyed chunks))). split.
  { unfold sorted_by. rewrite for_each_map.
    rewrite (for_each_ok _ (fun chunk => (key_of chunk, prepared chunk))).
    - cbn [mbind result_bind]. fold (keyed chunks).
      now rewrite (keyed_comparable _ Hsortable).
    - apply Forall_forall. intros c Hin. rewrite forallb_forall in Hsortable.
      destruct (sortable_key c (Hsortable _ (proj1 (list_elem_of_In _ _) Hin)))
        as [-> _].
      reflexivity. }
  assert (Hkeyed : Forall (fun entry => sort_key (snd entry) = Ok (fst entry)
                                        ∧ string_keyed (fst entry)) (keyed chunks)).
  { unfold keyed. apply Forall_fmap, Forall_forall. intros c Hin.
    rewrite forallb_forall in Hsortable.
    now apply sortable_key, Hsortable, list_elem_of_In. }
  assert (Hkey : sort_key (prepared chunk) = Ok (key_of chunk)
                 ∧ string_keyed (key_of chunk)).
  { rewrite forallb_forall in Hsortable. now apply sortable_key, Hsortable, list_elem_of_In. }
  destruct Hkey as [Hkey Hstring].
  assert (Htied : ∀ entries : list ((pyval * Z * bool * Z) * Document),
            Forall (fun entry => sort_key (snd entry) = Ok (fst entry)
                                 ∧ string_keyed (fst entry)) entries →
            List.filter (tied_chunks (prepared chunk)) (map snd entries) =
              map snd (List.filter (tied_to key_lt (key_of chunk)) entries)).
  { intros entries Hentries. apply filter_map_snd.
    eapply Forall_impl; [exact Hentries|]. intros entry [He _].
    unfold tied_chunks, tied_to. now rewrite Hkey, He. }
  rewrite Htied by now apply sort_by_Forall.
  rewrite (sort_by_class key_lt string_keyed key_le_trans);
    [| exact Hstring | eapply Forall_impl; [exact Hkeyed|]; now intros entry [_ ?]].
  rewrite <- Htied by exact Hkeyed.
  unfold keyed. rewrite map_map. reflexivity.
Qed.

(** The chunks of two files from the last to the first: the two chunks of
    the first section of a.docx stay in the order they come in, "second"
    before "first". *)
Lemma sort_keeps_input_order_within_a_section_witness :
  let second := nth 2 library_chunks_reversed (mkDocument "" ∅) in
  ∃ sorted,
    sorted_by key_lt sort_key (map prepared library_chunks_reversed) = Ok sorted ∧
    List.filter (tied_chunks (prepared second)) sorted =
      List.filter (tied_chunks (prepared second)) (map prepared library_chunks_reversed) ∧
    map page_content (List.filter (tied_chunks (prepared second)) sorted)
      = ["second"; "first"].
Proof.
  intros second.
  assert (Hin : second ∈ library_chunks_reversed)
    by (apply list_elem_of_lookup; now exists 2%nat).
  destruct (sort_keeps_input_order_within_a_section library_chunks_reversed second)
    as (sorted & Hsorted & Horder); [vm_compute; reflexivity | exact Hin |].
  exists sorted. split; [exact Hsorted|]. split; [exact Horder|].
  rewrite Horder. vm_compute. reflexivity.
Defined.

End StoreWriterMore.

(* ===================================================================== *)
(** ** More on the ID assigner *)
(* ===================================================================== *)

Module IdAssignerMore.
Import Py DocxLoader LoadData Props MoreProps StringFacts IdAssigner StoreWriter.

(** The loop variables of [calculate_chunk_ids] after the page identities
    [ids]. *)
Definition after_ids (last : option string) (index : Z) (ids : list string)
  : option string * Z :=
  fold_left
    (fun st page_id =>
       (Some page_id, if same_page page_id (fst st) then snd st + 1 else 0))
    ids (last, index).

(** A chunk with another value stored as its ID. *)
Definition with_id (value : pyval) (chunk : Document) : Document :=
  with_metadata chunk (<["id" := value]> (metadata chunk)).

Lemma page_id_ignores_id (md : gmap string pyval) (value : pyval) :
  current_page_id (<["id" := value]> md) = current_page_id md.
Proof.
  unfold current_page_id, get. now rewrite !lookup_insert_ne by discriminate.
Qed.

Lemma assign_ids_ignores_id (stale : Document → pyval) (st : id_state)
    (chunks : list Document) :
  assign_ids st (map (fun chunk => with_id (stale chunk) chunk) chunks)
    = assign_ids st chunks.
Proof.
  revert st. induction chunks as [|chunk chunks IH]; intros st; [reflexivity|].
  cbn [map assign_ids assign_id]. unfold with_id at 1 2 3 4 5 6.
  cbn [metadata with_metadata page_content].
  rewrite page_id_ignores_id, IH. unfold with_metadata.
  cbn [metadata page_content]. now rewrite insert_insert_eq.
Qed.

Lemma assign_ids_again (st : id_state) (chunks : list Document) :
  assign_ids st (assign_ids st chunks) = assign_ids st chunks.
Proof.
  revert st. induction chunks as [|chunk chunks IH]; intros st; [reflexivity|].
  cbn [assign_ids assign_id metadata with_metadata page_content].
  rewrite page_id_ignores_id. unfold with_metadata at 1.
  cbn [metadata page_content]. rewrite insert_insert_eq.
  f_equal. apply IH.
Qed.

(** X10: [calculate_chunk_ids] changes nothing but the [id] entry: the
    texts and every other metadata entry are as before, in the same order,
    and every chunk has a string as its ID afterwards. *)
Theorem calculate_chunk_ids_changes_only_id (chunks : list Document) :
  map page_content (calculate_chunk_ids chunks) = map page_content chunks ∧
  map (fun chunk => delete "id" (metadata chunk)) (calculate_chunk_ids chunks)
    = map (fun chunk => delete "id" (metadata chunk)) chunks ∧
  Forall has_id (calculate_chunk_ids chunks).
Proof.
  unfold calculate_chunk_ids. generalize id_init.
  induction chunks as [|chunk chunks IH]; intros st; [repeat split; constructor|].
  cbn [assign_ids assign_id map metadata with_metadata page_content].
  destruct (IH {| last_page_id := Some (current_page_id (metadata chunk));
                  current_chunk_index :=
                    if same_page (current_page_id (metadata chunk)) (last_page_id st)
                    then current_chunk_index st + 1 else 0 |}) as (Htext & Hmd & Hid).
  split; [|split].
  - now rewrite Htext.
  - rewrite delete_insert_eq. now rewrite Hmd.
  - constructor; [|exact Hid]. eexists. apply lookup_insert_eq.
Qed.

(** X11: the IDs the chunks already carry play no part: whatever is stored
    under [id] before, [calculate_chunk_ids] returns the same chunks with
    the same IDs; in particular, running it on its own result changes
    nothing. *)
Theorem calculate_chunk_ids_overwrites_ids
    (stale : Document → pyval) (chunks : list Document) :
  calculate_chunk_ids (map (fun chunk => with_id (stale chunk) chunk) chunks)
    = calculate_chunk_ids chunks ∧
  calculate_chunk_ids (calculate_chunk_ids chunks) = calculate_chunk_ids chunks.
Proof.
  split; [apply assign_ids_ignores_id | apply assign_ids_again].
Qed.

(** *** Distinct IDs *)

Lemma numbered_app (ids1 ids2 : list string) (last : option string) (index : Z) :
  numbered last index (ids1 ++ ids2) =
    numbered last index ids1 ++
    numbered (fst (after_ids last index ids1)) (snd (after_ids last index ids1)) ids2.
Proof.
  revert last index. induction ids1 as [|p ids1 IH]; intros last index; [reflexivity|].
  cbn [app numbered]. rewrite IH. reflexivity.
Qed.

Lemma after_ids_last (ids : list string) (p : string) (last : option string)
    (index : Z) :
  fst (after_ids last index (ids ++ [p])) = Some p.
Proof.
  unfold after_ids. now rewrite fold_left_app.
Qed.

Lemma first_of_run (p : string) (ids : list string) :
  p ∈ ids → ∀ last index, last ≠ Some p → (p, 0) ∈ numbered last index ids.
Proof.
  induction ids as [|q ids IH]; intros Hin last index Hlast.
  - now apply elem_of_nil in Hin.
  - cbn [numbered]. destruct (decide (q = p)) as [->|Hne].
    + replace (same_page p last) with false; [now left|].
      destruct last as [previous|]; [|reflexivity]. cbn [same_page].
      symmetry. apply String.eqb_neq. congruence.
    + right. apply IH; [|congruence].
      apply elem_of_cons in Hin as [Heq|Hin]; [congruence | exact Hin].
Qed.

Lemma distinct_numbers_grouped (ids : list string) :
  NoDup (numbered None 0 ids) → grouped ids.
Proof.
  intros Hnodup l1 p l2 l3 ->. apply Forall_forall. intros q Hq.
  destruct (decide (p = q)) as [|Hne]; [assumption | exfalso].
  apply list_elem_of_split in Hq as (m1 & m2 & ->).
  replace (l1 ++ p :: (m1 ++ q :: m2) ++ p :: l3)
    with ((l1 ++ p :: m1 ++ [q]) ++ (m2 ++ p :: l3)) in Hnodup.
  2:{ rewrite <- !app_assoc. cbn [app]. rewrite <- !app_assoc. reflexivity. }
  rewrite numbered_app in Hnodup. apply NoDup_app in Hnodup as (_ & Hdisjoint & _).
  apply (Hdisjoint (p, 0)).
  - apply first_of_run; [member | discriminate].
  - apply first_of_run; [member|].
    replace (l1 ++ p :: m1 ++ [q]) with ((l1 ++ p :: m1) ++ [q])
      by now rewrite <- app_assoc.
    rewrite after_ids_last. congruence.
Qed.

(** X12: the IDs [calculate_chunk_ids] assigns are pairwise distinct
    exactly when chunks of one page identity stand next to each other in
    its input. *)
Theorem ids_distinct_iff_grouped (chunks : list Document) :
  NoDup (assigned_ids (calculate_chunk_ids chunks)) ↔ grouped (page_ids chunks).
Proof.
  split; [|apply grouped_ids_distinct].
  rewrite calculate_chunk_ids_numbered. intros Hnodup.
  apply distinct_numbers_grouped. exact (NoDup_fmap_1 _ _ Hnodup).
Qed.

(** *** The numbers of a run *)

Lemma run_numbered (p : string) (run rest : list string) :
  Forall (eq p) run →
  ∀ (index : Z) (i : nat), (i < length run)%nat →
    numbered (Some p) index (run ++ rest) !! i = Some (p, index + 1 + Z.of_nat i).
Proof.
  intros Hrun. induction Hrun as [|q run <- _ IH]; intros index i Hi; [simpl in Hi; lia|].
  cbn [app numbered same_page]. rewrite String.eqb_refl.
  destruct i as [|i]; cbn [lookup list_lookup].
  - f_equal. f_equal. lia.
  - rewrite IH by (simpl in Hi; lia). f_equal. f_equal. lia.
Qed.

Lemma fresh_run_numbered (p : string) (run rest : list string) (last : option string)
    (index : Z) (i : nat) :
  Forall (eq p) run → last ≠ Some p → (i < length run)%nat →
  numbered last index (run ++ rest) !! i = Some (p, Z.of_nat i).
Proof.
  intros Hrun Hlast Hi. destruct Hrun as [|q run <- Hrun]; [simpl in Hi; lia|].
  cbn [app numbered].
  replace (same_page p last) with false.
  2:{ destruct last as [previous|]; [|reflexivity]. cbn [same_page].
      symmetry. apply String.eqb_neq. congruence. }
  destruct i as [|i]; cbn [lookup list_lookup]; [reflexivity|].
  rewrite (run_numbered p run rest Hrun) by (simpl in Hi; lia).
  f_equal. f_equal. lia.
Qed.

Lemma after_ids_fst (ids : list string) (previous : option string) (index : Z) :
  fst (after_ids previous index ids) =
    match list.last ids with
    | Some p => Some p
    | None => previous
    end.
Proof.
  induction ids as [|p ids _] using rev_ind; [reflexivity|].
  now rewrite after_ids_last, last_snoc.
Qed.

Lemma numbered_length (ids : list string) (previous : option string) (index : Z) :
  length (numbered previous index ids) = length ids.
Proof.
  rewrite <- (length_map fst). now rewrite numbered_fst.
Qed.

(** X13: chunks of one page identity that stand together, after a chunk of
    another page identity or at the head of the list, are numbered 0, 1,
    2, ... in their order: the chunk at position [i] of the run gets the ID
    [<page identity>:chunk_<i>]. *)
Theorem run_is_numbered_from_zero
    (before run after : list Document) (p : string) (i : nat)
    (Hrun : Forall (fun chunk => current_page_id (metadata chunk) = p) run)
    (Hbefore : list.last (page_ids before) ≠ Some p)
    (Hi : (i < length run)%nat) :
  assigned_ids (calculate_chunk_ids (before ++ run ++ after))
    !! (length before + i)%nat
    = Some (Some (PStr (chunk_id_text p (Z.of_nat i)))).
Proof.
  rewrite calculate_chunk_ids_numbered. unfold page_ids. rewrite !map_app.
  fold (page_ids before) (page_ids run) (page_ids after).
  assert (Hlen : length (page_ids before) = length before)
    by (unfold page_ids; now rewrite length_map).
  rewrite numbered_app, list_lookup_fmap.
  rewrite lookup_app_r by (rewrite numbered_length; lia).
  rewrite numbered_length, Hlen.
  replace (length before + i - length before)%nat with i by lia.
  rewrite (fresh_run_numbered p).
  - reflexivity.
  - unfold page_ids. apply Forall_fmap. eapply Forall_impl; [exact Hrun|].
    intros chunk Hp. cbn [compose]. now symmetry.
  - rewrite after_ids_fst. destruct (list.last (page_ids before)); congruence.
  - unfold page_ids. now rewrite length_map.
Qed.

(** The second chunk of the first section of the specification's example. *)
Lemma run_is_numbered_from_zero_witness :
  assigned_ids
    (calculate_chunk_ids
       ([] ++ firstn 2 (example_docx_chunks "" "" "")
           ++ skipn 2 (example_docx_chunks "" "" "")))
    !! (length (@nil Document) + 1)%nat
    = Some (Some (PStr (chunk_id_text "a.docx:docx:page_0" 1))).
Proof.
  apply (run_is_numbered_from_zero [] (firstn 2 (example_docx_chunks "" "" ""))
           (skipn 2 (example_docx_chunks "" "" "")) "a.docx:docx:page_0" 1).
  - repeat constructor.
  - discriminate.
  - simpl. lia.
Defined.

End IdAssignerMore.

(* ===================================================================== *)
(** ** More on the extractor *)
(* ===================================================================== *)

Module ExtractorMore.
Import Py DocxLoader LoadData Props MoreProps StringFacts Extractor.

(** No text of the list is empty. *)
Definition nonblank (texts : list string) : Prop := Forall (fun t => t ≠ "") texts.

(** The text part that "Save accumulated text before table" and "Add
    remaining text" append for the paragraphs collected so far. *)
Definition flushed (st : walk_state) : list content_part :=
  match current_section st with
  | [] => []
  | _ :: _ =>
      [ {| part_kind := text_part;
           part_content := join (nl +:+ nl) (current_section st);
           part_section := section_num st |} ]
  end.

(** The table part appended for a table whose markdown is [markdown], after
    the pending text has been saved. *)
Definition tabled (st : walk_state) (markdown : string) : list content_part :=
  if negb (markdown =? "")%string then
    [ {| part_kind := table_part;
         part_content := table_caption (table_count st + 1) markdown;
         part_section := section_num st + Z.of_nat (length (flushed st)) |} ]
  else [].

(** The captions of the tables, numbered from [count + 1]. *)
Fixpoint captions (count : Z) (markdowns : list string) : list string :=
  match markdowns with
  | [] => []
  | markdown :: markdowns' =>
      table_caption (count + 1) markdown :: captions (count + 1) markdowns'
  end.

Lemma join_nonblank (sep : string) (texts : list string) :
  texts ≠ [] → nonblank texts → join sep texts ≠ "".
Proof.
  intros Hne Hall. destruct texts as [|t texts]; [congruence|].
  apply Forall_cons in Hall as [Ht _].
  destruct t as [|c t]; [congruence|].
  destruct texts; cbn [join String.concat]; [discriminate|].
  rewrite append_cons. discriminate.
Qed.

Lemma pending_text_nonblank (st : walk_state) :
  nonblank (current_section st) →
  match pending_text st with Some part => [part] | None => [] end = flushed st.
Proof.
  intros Hall. unfold pending_text, flushed.
  destruct (current_section st) as [|t texts] eqn:E; [reflexivity|].
  rewrite <- E in *.
  assert (Hjoin : join (nl +:+ nl) (current_section st) ≠ "").
  { apply join_nonblank; [rewrite E; discriminate | exact Hall]. }
  apply String.eqb_neq in Hjoin. now rewrite Hjoin.
Qed.

Lemma add_remaining_text_flushed (st : walk_state) :
  nonblank (current_section st) →
  add_remaining_text st = content_parts st ++ flushed st.
Proof.
  intros Hall. unfold add_remaining_text.
  rewrite <- (pending_text_nonblank st Hall).
  destruct (pending_text st); [reflexivity | now rewrite app_nil_r].
Qed.

Lemma save_text_flushed (st : walk_state) :
  nonblank (current_section st) →
  save_text_before_table st =
    {| content_parts := content_parts st ++ flushed st;
       current_section := [];
       section_num := section_num st + Z.of_nat (length (flushed st));
       table_count := table_count st |}.
Proof.
  intros Hall. unfold save_text_before_table.
  pose proof (pending_text_nonblank st Hall) as Hp. unfold flushed in *.
  destruct st as [parts texts num count]. cbn [current_section content_parts
    section_num table_count] in *.
  destruct texts as [|t texts].
  - cbn [length]. rewrite app_nil_r. f_equal. lia.
  - destruct (pending_text _) as [part|]; [|discriminate].
    injection Hp as ->. reflexivity.
Qed.

Lemma table_step (st : walk_state) (table : Table) :
  nonblank (current_section st) →
  walk_step st (CT_Tbl table) =
    Ok {| content_parts :=
            content_parts st ++ flushed st ++ tabled st (extract_docx_table table);
          current_section := [];
          section_num :=
            section_num st
              + Z.of_nat (length (flushed st ++ tabled st (extract_docx_table table)));
          table_count :=
            table_count st + Z.of_nat (length (tabled st (extract_docx_table table))) |}.
Proof.
  intros Hall. cbn [walk_step]. rewrite (save_text_flushed st Hall).
  cbn [content_parts current_section section_num table_count]. unfold tabled.
  destruct (negb _).
  - rewrite length_app. cbn [length]. rewrite <- app_assoc.
    f_equal. f_equal; lia.
  - rewrite !app_nil_r. cbn [length]. f_equal. f_equal. lia.
Qed.

Lemma contents_of_app (kind : part_type) (parts1 parts2 : list content_part) :
  contents_of kind (parts1 ++ parts2) = contents_of kind parts1 ++ contents_of kind parts2.
Proof.
  unfold contents_of. now rewrite List.filter_app, map_app.
Qed.

Lemma texts_of_flushed (st : walk_state) :
  contents_of text_part (flushed st) =
    match current_section st with
    | [] => []
    | _ :: _ => [join (nl +:+ nl) (current_section st)]
    end.
Proof. unfold flushed. now destruct (current_section st). Qed.

Lemma tables_of_flushed (st : walk_state) : contents_of table_part (flushed st) = [].
Proof. unfold flushed. now destruct (current_section st). Qed.

Lemma texts_of_tabled (st : walk_state) (markdown : string) :
  contents_of text_part (tabled st markdown) = [].
Proof. unfold tabled. now destruct (negb _). Qed.

Lemma tables_of_tabled (st : walk_state) (markdown : string) :
  contents_of table_part (tabled st markdown) =
    if negb (markdown =? "")%string then [table_caption (table_count st + 1) markdown]
    else [].
Proof. unfold tabled. now destruct (negb _). Qed.

(** *** What the walk keeps of the paragraphs *)

Lemma walk_texts (body : list body_element) :
  ∀ st st', nonblank (current_section st) → walk st body = Ok st' →
    nonblank (current_section st') ∧
    ∃ groups,
      contents_of text_part (content_parts st') =
        contents_of text_part (content_parts st) ++ map (join (nl +:+ nl)) groups ∧
      concat groups ++ current_section st' = current_section st ++ paragraph_texts body ∧
      Forall (fun group => group ≠ []) groups.
Proof.
  induction body as [|element body IH]; intros st st' Hall Hwalk.
  - injection Hwalk as <-. split; [exact Hall|]. exists [].
    cbn [map concat paragraph_texts]. now rewrite !app_nil_r.
  - unfold walk in Hwalk. cbn [for_fold] in Hwalk.
    destruct element as [[raw|e]|table|].
    + rewrite paragraph_step in Hwalk. cbn [mbind result_bind] in Hwalk.
      cbn [paragraph_texts].
      destruct (negb (strip raw =? "")%string) eqn:Hblank.
      * apply IH in Hwalk as (Hall' & groups & Htexts & Hconcat & Hgroups).
        -- split; [exact Hall'|]. exists groups.
           cbn [content_parts current_section] in *.
           split; [exact Htexts|]. split; [|exact Hgroups].
           rewrite Hconcat. now rewrite <- app_assoc.
        -- cbn [current_section]. apply Forall_app. split; [exact Hall|].
           constructor; [|constructor].
           apply negb_true_iff in Hblank. now apply String.eqb_neq.
      * now apply IH in Hwalk.
    + discriminate.
    + rewrite (table_step st table Hall) in Hwalk. cbn [mbind result_bind] in Hwalk.
      apply IH in Hwalk as (Hall' & groups & Htexts & Hconcat & Hgroups);
        [|constructor].
      split; [exact Hall'|]. cbn [content_parts current_section] in *.
      cbn [paragraph_texts].
      rewrite !contents_of_app, texts_of_flushed, texts_of_tabled, app_nil_r in Htexts.
      destruct (current_section st) as [|t texts] eqn:E.
      * exists groups. rewrite app_nil_r in Htexts. now repeat split.
      * exists ((t :: texts) :: groups). cbn [map concat].
        rewrite <- app_assoc in Htexts. split; [exact Htexts|].
        split; [|constructor; [discriminate | exact Hgroups]].
        rewrite <- app_assoc. now rewrite Hconcat.
    + cbn [walk_step mbind result_bind] in Hwalk. cbn [paragraph_texts].
      now apply IH in Hwalk.
Qed.

Lemma walk_nonblank (body : list body_element) (st : walk_state) :
  walk walk_init body = Ok st → nonblank (current_section st).
Proof.
  intros Hwalk. now apply walk_texts in Hwalk as [? _]; [|constructor].
Qed.

(** X14: the paragraphs reach the text sections complete and in order: the
    text sections are the joins, with a blank line between, of consecutive
    non-empty groups of the stripped non-blank paragraph texts, and the
    groups together are all of these texts in document order. *)
Theorem text_sections_keep_the_paragraphs
    (body : list body_element) (parts : list content_part)
    (Hparts : parts_of body = Ok parts) :
  ∃ groups,
    contents_of text_part parts = map (join (nl +:+ nl)) groups ∧
    concat groups = paragraph_texts body ∧
    Forall (fun group => group ≠ []) groups.
Proof.
  unfold parts_of in Hparts.
  destruct (walk walk_init body) as [st|] eqn:Hwalk;
    cbn [mbind result_bind] in Hparts; [|discriminate].
  injection Hparts as <-.
  destruct (walk_texts body walk_init st) as (Hall & groups & Htexts & Hconcat & Hgroups);
    [constructor | exact Hwalk |].
  cbn [walk_init content_parts current_section contents_of List.filter map app]
    in Htexts, Hconcat.
  rewrite (add_remaining_text_flushed st Hall), contents_of_app, texts_of_flushed, Htexts.
  destruct (current_section st) as [|t texts] eqn:E.
  - exists groups. rewrite !app_nil_r in *. now repeat split.
  - exists (groups ++ [t :: texts]). rewrite map_app, concat_app. cbn [map concat].
    rewrite app_nil_r. split; [reflexivity|]. split; [exact Hconcat|].
    apply Forall_app. split; [exact Hgroups|]. now repeat constructor.
Qed.


(** The two paragraphs around the dropped table. *)
Lemma text_sections_keep_the_paragraphs_witness :
  ∃ parts groups,
    parts_of body_with_short_table = Ok parts ∧
    contents_of text_part parts = map (join (nl +:+ nl)) groups ∧
    concat groups = ["A"; "B"].
Proof.
  destruct (parts_of body_with_short_table) as [parts|] eqn:Hparts;
    [|vm_compute in Hparts; discriminate].
  destruct (text_sections_keep_the_paragraphs body_with_short_table parts Hparts)
    as (groups & Htexts & Hconcat & _).
  exists parts, groups. split; [reflexivity|]. split; [exact Htexts|].
  rewrite Hconcat. vm_compute. reflexivity.
Defined.

(** *** What the walk keeps of the tables *)

Lemma walk_tables (body : list body_element) :
  ∀ st st', nonblank (current_section st) → walk st body = Ok st' →
    contents_of table_part (content_parts st') =
      contents_of table_part (content_parts st)
        ++ captions (table_count st) (table_markdowns body) ∧
    table_count st' = table_count st + Z.of_nat (length (table_markdowns body)).
Proof.
  induction body as [|element body IH]; intros st st' Hall Hwalk.
  - injection Hwalk as <-. cbn [table_markdowns captions length].
    rewrite app_nil_r. split; [reflexivity | lia].
  - unfold walk in Hwalk. cbn [for_fold] in Hwalk.
    destruct element as [[raw|e]|table|].
    + rewrite paragraph_step in Hwalk. cbn [mbind result_bind] in Hwalk.
      cbn [table_markdowns].
      destruct (negb (strip raw =? "")%string) eqn:Hblank; [|now apply IH in Hwalk].
      apply IH in Hwalk; [exact Hwalk|].
      cbn [current_section]. apply Forall_app. split; [exact Hall|].
      constructor; [|constructor].
      apply negb_true_iff in Hblank. now apply String.eqb_neq.
    + discriminate.
    + rewrite (table_step st table Hall) in Hwalk. cbn [mbind result_bind] in Hwalk.
      apply IH in Hwalk as [Htables Hcount]; [|constructor].
      cbn [content_parts table_count] in *.
      rewrite !contents_of_app, tables_of_flushed, tables_of_tabled in Htables.
      cbn [app] in Htables. cbn [table_markdowns]. unfold tabled in *.
      destruct (negb (extract_docx_table table =? "")%string).
      * cbn [length captions] in *. rewrite Htables, Hcount.
        rewrite <- app_assoc. cbn [app].
        replace (table_count st + Z.of_nat 1) with (table_count st + 1) by lia.
        split; [reflexivity | lia].
      * cbn [length] in *. rewrite app_nil_r in Htables.
        replace (table_count st + Z.of_nat 0) with (table_count st) in * by lia.
        now split.
    + cbn [walk_step mbind result_bind] in Hwalk. cbn [table_markdowns].
      now apply IH in Hwalk.
Qed.

Lemma captions_lookup (markdowns : list string) (count : Z) (i : nat) :
  captions count markdowns !! i =
    table_caption (count + Z.of_nat i + 1) <$> markdowns !! i.
Proof.
  revert count i. induction markdowns as [|markdown markdowns IH]; intros count i.
  - now destruct i.
  - destruct i as [|i]; cbn [captions lookup list_lookup].
    + cbn [fmap option_fmap option_map]. do 2 f_equal. lia.
    + rewrite IH. destruct (markdowns !! i); cbn [fmap option_fmap option_map];
        [|reflexivity].
      do 2 f_equal. lia.
Qed.

Lemma captions_length (markdowns : list string) (count : Z) :
  length (captions count markdowns) = length markdowns.
Proof.
  revert count. induction markdowns as [|m markdowns IH]; intros count; [reflexivity|].
  cbn [captions length]. now rewrite IH.
Qed.

(** X15: the table sections are the tables of the body that are not
    dropped, in document order, each under the caption "Bảng n" with
    n = 1, 2, 3, ... counting only the tables that are kept. *)
Theorem table_sections_are_numbered
    (body : list body_element) (parts : list content_part)
    (Hparts : parts_of body = Ok parts) :
  length (contents_of table_part parts) = length (table_markdowns body) ∧
  ∀ i : nat,
    contents_of table_part parts !! i =
      table_caption (Z.of_nat i + 1) <$> table_markdowns body !! i.
Proof.
  unfold parts_of in Hparts.
  destruct (walk walk_init body) as [st|] eqn:Hwalk;
    cbn [mbind result_bind] in Hparts; [|discriminate].
  injection Hparts as <-.
  pose proof (walk_nonblank body st Hwalk) as Hall.
  destruct (walk_tables body walk_init st) as [Htables _]; [constructor | exact Hwalk |].
  cbn [walk_init content_parts table_count contents_of List.filter map app] in Htables.
  rewrite (add_remaining_text_flushed st Hall), contents_of_app, tables_of_flushed.
  rewrite app_nil_r, Htables. split; [apply captions_length|].
  intros i. rewrite captions_lookup. destruct (table_markdowns body !! i); [|reflexivity].
  cbn [fmap option_fmap option_map]. do 2 f_equal.
Qed.

(** A dropped table between two kept ones. *)
Lemma table_sections_are_numbered_witness :
  ∃ parts,
    parts_of [ CT_Tbl [Ok ["h"]; Ok ["x"]]; CT_Tbl [Ok ["only"]];
               CT_Tbl [Ok ["k"]; Ok ["y"]] ] = Ok parts ∧
    contents_of table_part parts !! 1%nat =
      Some (table_caption 2 ("| k |" +:+ nl +:+ "| --- |" +:+ nl +:+ "| y |")).
Proof.
  set (body := [ CT_Tbl [Ok ["h"]; Ok ["x"]]; CT_Tbl [Ok ["only"]];
                 CT_Tbl [Ok ["k"]; Ok ["y"]] ]).
  destruct (parts_of body) as [parts|] eqn:Hparts; [|vm_compute in Hparts; discriminate].
  exists parts. split; [reflexivity|].
  destruct (table_sections_are_numbered body parts Hparts) as [_ Hcaption].
  rewrite Hcaption. vm_compute. reflexivity.
Defined.


(** *** Section numbers and contents *)

(** Every part has the number [first + its position] and a content that
    is not empty. *)
Definition numbered_from (first : Z) (parts : list content_part) : Prop :=
  ∀ (i : nat) part, parts !! i = Some part →
    part_section part = first + Z.of_nat i ∧ part_content part ≠ "".

Lemma numbered_from_app (first : Z) (parts1 parts2 : list content_part) :
  numbered_from first parts1 →
  numbered_from (first + Z.of_nat (length parts1)) parts2 →
  numbered_from first (parts1 ++ parts2).
Proof.
  intros H1 H2 i part Hpart. apply lookup_app_Some in Hpart as [Hpart|[Hlen Hpart]].
  - now apply H1.
  - destruct (H2 _ _ Hpart) as [Hnum Hcontent]. split; [|exact Hcontent].
    rewrite Hnum. lia.
Qed.

Lemma flushed_numbered (st : walk_state) :
  nonblank (current_section st) → numbered_from (section_num st) (flushed st).
Proof.
  intros Hall i part Hpart.
  assert (Hjoin : current_section st ≠ [] → join (nl +:+ nl) (current_section st) ≠ "")
    by (intros Hne; now apply join_nonblank).
  unfold flushed in Hpart. revert Hpart Hjoin. generalize (current_section st).
  intros [|t texts] Hpart Hjoin; [now destruct i|].
  destruct i as [|[|i]]; try discriminate. injection Hpart as <-.
  cbn [part_section part_content]. split; [lia|]. now apply Hjoin.
Qed.

Lemma tabled_numbered (st : walk_state) (markdown : string) :
  numbered_from (section_num st + Z.of_nat (length (flushed st))) (tabled st markdown).
Proof.
  intros i part Hpart. unfold tabled in Hpart.
  destruct (negb _); [|now destruct i].
  destruct i as [|[|i]]; try discriminate. injection Hpart as <-.
  cbn [part_section part_content]. split; [lia|].
  unfold table_caption, nl. rewrite append_cons. discriminate.
Qed.

Lemma walk_sections (body : list body_element) :
  ∀ st st', nonblank (current_section st) →
    section_num st = Z.of_nat (length (content_parts st)) →
    numbered_from 0 (content_parts st) →
    walk st body = Ok st' →
    section_num st' = Z.of_nat (length (content_parts st')) ∧
    numbered_from 0 (content_parts st').
Proof.
  induction body as [|element body IH]; intros st st' Hall Hnum Hparts Hwalk.
  - injection Hwalk as <-. now split.
  - unfold walk in Hwalk. cbn [for_fold] in Hwalk.
    destruct element as [[raw|e]|table|].
    + rewrite paragraph_step in Hwalk. cbn [mbind result_bind] in Hwalk.
      destruct (negb (strip raw =? "")%string) eqn:Hblank;
        [|now apply IH in Hwalk].
      apply IH in Hwalk; try assumption.
      cbn [current_section]. apply Forall_app. split; [exact Hall|].
      constructor; [|constructor].
      apply negb_true_iff in Hblank. now apply String.eqb_neq.
    + discriminate.
    + rewrite (table_step st table Hall) in Hwalk. cbn [mbind result_bind] in Hwalk.
      apply IH in Hwalk; [exact Hwalk | constructor | |];
        cbn [content_parts section_num].
      * rewrite Hnum, !length_app. lia.
      * apply numbered_from_app; [exact Hparts|].
        apply numbered_from_app; cbn [Z.add]; rewrite <- Hnum.
        -- now apply flushed_numbered.
        -- apply tabled_numbered.
    + cbn [walk_step mbind result_bind] in Hwalk. now apply IH in Hwalk.
Qed.

Lemma parts_numbered (body : list body_element) (parts : list content_part) :
  parts_of body = Ok parts → numbered_from 0 parts.
Proof.
  unfold parts_of. intros Hparts.
  destruct (walk walk_init body) as [st|] eqn:Hwalk;
    cbn [mbind result_bind] in Hparts; [|discriminate].
  injection Hparts as <-.
  pose proof (walk_nonblank body st Hwalk) as Hall.
  destruct (walk_sections body walk_init st) as [Hnum Hnumbered];
    [constructor | reflexivity | now intros [|i] | exact Hwalk |].
  rewrite (add_remaining_text_flushed st Hall).
  apply numbered_from_app; [exact Hnumbered|].
  cbn [Z.add]. rewrite <- Hnum. now apply flushed_numbered.
Qed.

Lemma extraction_parts (file_path : string) (opened : result (list body_element)) :
  extract_content_from_docx file_path opened =
    match body ← opened; parts_of body with
    | Ok parts =>
        map (fun ip => make_document (basename file_path) (Z.of_nat (length parts))
                         (fst ip) (snd ip))
            (enumerate_from 0 parts)
    | Raise _ => []
    end.
Proof.
  unfold extract_content_from_docx, parts_of.
  destruct opened as [body|]; cbn [mbind result_bind]; [|reflexivity].
  now destruct (walk walk_init body).
Qed.

Lemma enumerate_from_lookup {A} (l : list A) (first : Z) (i : nat) :
  enumerate_from first l !! i = (fun x => (first + Z.of_nat i, x)) <$> l !! i.
Proof.
  revert first i. induction l as [|x l IH]; intros first i; [now destruct i|].
  destruct i as [|i]; cbn [enumerate_from lookup list_lookup].
  - cbn [fmap option_fmap option_map]. do 2 f_equal. lia.
  - rewrite IH. destruct (l !! i); cbn [fmap option_fmap option_map]; [|reflexivity].
    do 2 f_equal. lia.
Qed.

Lemma enumerate_from_length {A} (l : list A) (first : Z) :
  length (enumerate_from first l) = length l.
Proof.
  revert first. induction l as [|x l IH]; intros first; [reflexivity|].
  cbn [enumerate_from length]. now rewrite IH.
Qed.

(** The documents of an extraction, by position. *)
Lemma extraction_lookup (file_path : string) (opened : result (list body_element))
    (i : nat) (doc : Document) :
  extract_content_from_docx file_path opened !! i = Some doc →
  ∃ body parts part,
    opened = Ok body ∧ parts_of body = Ok parts ∧ parts !! i = Some part ∧
    length (extract_content_from_docx file_path opened) = length parts ∧
    doc = make_document (basename file_path) (Z.of_nat (length parts)) (Z.of_nat i) part.
Proof.
  rewrite extraction_parts.
  destruct opened as [body|]; cbn [mbind result_bind]; [|now destruct i].
  destruct (parts_of body) as [parts|] eqn:Hparts; [|now destruct i].
  rewrite list_lookup_fmap, enumerate_from_lookup, length_map, enumerate_from_length.
  destruct (parts !! i) as [part|] eqn:Hpart; [|discriminate].
  cbn [fmap option_fmap option_map fst snd]. intros [= <-].
  exists body, parts, part. repeat split; try reflexivity; assumption.
Qed.

(** X16: no section an extraction returns has an empty text. *)
Theorem sections_are_never_empty (file_path : string)
    (opened : result (list body_element)) :
  Forall (fun doc => page_content doc ≠ "") (extract_content_from_docx file_path opened).
Proof.
  apply Forall_lookup. intros i doc Hdoc.
  apply extraction_lookup in Hdoc as (body & parts & part & _ & Hparts & Hpart & _ & ->).
  cbn [make_document page_content].
  now destruct (parts_numbered body parts Hparts i part Hpart).
Qed.

(** X17: the metadata of the section at position [i] of an extraction has
    exactly six entries: the base name of the path as [source], [i] as
    [page], the number of sections returned as [total_pages], the file type
    ["docx"], and a flag [has_table] with the matching [type]; so its page
    identity in [calculate_chunk_ids] is
    [<base name>:docx:page_<i>], with [_table] appended for a table. *)
Theorem section_metadata (file_path : string) (opened : result (list body_element))
    (i : nat) (doc : Document)
    (Hdoc : extract_content_from_docx file_path opened !! i = Some doc) :
  ∃ has_table : bool,
    metadata doc =
      list_to_map
        [ ("source", PStr (basename file_path));
          ("page", PInt (Z.of_nat i));
          ("total_pages",
            PInt (Z.of_nat (length (extract_content_from_docx file_path opened))));
          ("type", PStr (if has_table then "docx_table" else "docx_text"));
          ("has_table", PBool has_table);
          ("file_type", PStr "docx") ] ∧
    current_page_id (metadata doc) =
      basename file_path +:+ ":docx:page_" +:+ str_int (Z.of_nat i)
        +:+ (if has_table then "_table" else "").
Proof.
  apply extraction_lookup in Hdoc as (body & parts & part & _ & _ & _ & -> & ->).
  exists (match part_kind part with table_part => true | text_part => false end).
  split; [reflexivity|].
  unfold current_page_id, get, make_document. cbn [metadata].
  rewrite !lookup_insert_eq.
  repeat (rewrite lookup_insert_ne by discriminate; rewrite ?lookup_insert_eq).
  rewrite lookup_empty. cbn [str truthy].
  destruct (part_kind part); now rewrite ?append_nil_r.
Qed.

(** The table of a document with a paragraph before it. *)
Lemma section_metadata_witness :
  ∃ doc has_table,
    extract_content_from_docx "/kb/a.docx"
      (Ok [CT_P (Ok "A"); CT_Tbl [Ok ["h"]; Ok ["x"]]]) !! 1%nat = Some doc ∧
    metadata doc !! "page" = Some (PInt 1) ∧
    current_page_id (metadata doc) =
      "a.docx" +:+ ":docx:page_" +:+ str_int 1 +:+ (if has_table : bool then "_table" else "").
Proof.
  set (opened := Ok [CT_P (Ok "A"); CT_Tbl [Ok ["h"]; Ok ["x"]]]).
  destruct (extract_content_from_docx "/kb/a.docx" opened !! 1%nat) as [doc|] eqn:Hdoc;
    [|vm_compute in Hdoc; discriminate].
  destruct (section_metadata "/kb/a.docx" opened 1 doc Hdoc) as (has_table & Hmd & Hid).
  exists doc, has_table. split; [reflexivity|]. split.
  - rewrite Hmd. reflexivity.
  - exact Hid.
Defined.

(** X18: the section number recorded in every content part is its position
    in the list of parts, which is the [page] its document gets. *)
Theorem section_number_is_position
    (body : list body_element) (parts : list content_part)
    (i : nat) (part : content_part)
    (Hparts : parts_of body = Ok parts)
    (Hpart : parts !! i = Some part) :
  part_section part = Z.of_nat i ∧
  ∀ file_path,
    (λ doc, metadata doc !! "page") <$> extract_content_from_docx file_path (Ok body) !! i
      = Some (Some (PInt (part_section part))).
Proof.
  destruct (parts_numbered body parts Hparts i part Hpart) as [Hnum _].
  split; [rewrite Hnum; lia|]. intros file_path.
  rewrite extraction_parts. cbn [mbind result_bind]. rewrite Hparts.
  rewrite list_lookup_fmap, enumerate_from_lookup, Hpart.
  cbn [fmap option_fmap option_map fst snd make_document metadata].
  rewrite lookup_insert_ne by discriminate. rewrite lookup_insert_eq.
  rewrite Hnum. do 3 f_equal.
Qed.


(** The first paragraph of a body of two sections. *)
Lemma section_number_is_position_witness :
  ∃ parts part,
    parts_of [CT_P (Ok "A"); CT_Tbl [Ok ["h"]; Ok ["x"]]] = Ok parts ∧
    parts !! 1%nat = Some part ∧
    part_section part = 1.
Proof.
  set (body := [CT_P (Ok "A"); CT_Tbl [Ok ["h"]; Ok ["x"]]]).
  destruct (parts_of body) as [parts|] eqn:Hparts; [|vm_compute in Hparts; discriminate].
  destruct (parts !! 1%nat) as [part|] eqn:Hpart.
  2:{ vm_compute in Hparts. injection Hparts as <-. discriminate Hpart. }
  exists parts, part. split; [reflexivity|]. split; [exact Hpart|].
  exact (proj1 (section_number_is_position body parts 1 part Hparts Hpart)).
Defined.

(** *** When a table is dropped *)

Lemma for_each_all_ok {A B} (f : A → result B) (l : list A) :
  Forall (fun x => is_ok (f x) = true) l → ∃ ys, for_each f l = Ok ys.
Proof.
  intros H. induction H as [|x l Hx _ [ys IH]]; [now exists []|].
  cbn [for_each]. destruct (f x) as [y|]; [|discriminate].
  rewrite IH. now exists (y :: ys).
Qed.

Lemma table_to_markdown_nonempty (table_data : list (list pyval)) :
  (2 <= length table_data)%nat → table_to_markdown table_data ≠ "".
Proof.
  intros Hlen. destruct (two_rows_inv _ Hlen) as (headers & rows & -> & Hrows).
  rewrite (table_to_markdown_rows _ _ Hrows), join_cons2.
  unfold render_row. rewrite !append_cons. discriminate.
Qed.

(** X19: a table yields no markdown, and so no section, exactly when it
    has fewer than two rows or one of its rows cannot be read. *)
Theorem table_is_dropped_iff (table : Table) :
  extract_docx_table table = "" ↔
    (length table < 2)%nat ∨ Exists (fun row => bad_row row = true) table.
Proof.
  split.
  - intros Hempty.
    destruct (decide (length table < 2)%nat) as [|Hlong]; [now left | right].
    destruct (decide (Exists (fun row => bad_row row = true) table)) as [|Hgood];
      [assumption | exfalso].
    apply not_Exists_Forall in Hgood; [|intros row; apply _].
    destruct (for_each_all_ok
                (fun row : result (list string) =>
                   cells ← row; Ok (map (fun text => PStr (strip text)) cells)) table)
      as [table_data Hdata].
    { eapply Forall_impl; [exact Hgood|]. intros [cells|e] Hrow; [reflexivity|].
      now contradiction Hrow. }
    unfold extract_docx_table in Hempty. rewrite Hdata in Hempty.
    cbn [mbind result_bind] in Hempty.
    pose proof (for_each_length _ _ _ Hdata) as Hlen.
    replace (2 <=? length table_data)%nat with true in Hempty
      by (symmetry; apply Nat.leb_le; lia).
    revert Hempty. apply table_to_markdown_nonempty. lia.
  - intros [Hshort|Hbad]; [now apply extract_docx_table_short|].
    destruct (for_each_one_raises
                (fun row : result (list string) =>
                   cells ← row; Ok (map (fun text => PStr (strip text)) cells)) table)
      as [e He].
    { eapply Exists_impl; [exact Hbad|]. now intros [cells|e']. }
    unfold extract_docx_table. now rewrite He.
Qed.

(** *** When an extraction raises, and when it returns nothing *)

Lemma contents_nil (parts : list content_part) :
  contents_of text_part parts = [] → contents_of table_part parts = [] → parts = [].
Proof.
  destruct parts as [|[[] content section] parts]; [reflexivity| |]; discriminate.
Qed.

Lemma groups_nil {A} (groups : list (list A)) :
  Forall (fun group => group ≠ []) groups → concat groups = [] → groups = [].
Proof.
  intros Hall Hconcat. destruct groups as [|group groups]; [reflexivity|].
  apply Forall_cons in Hall as [Hne _]. cbn [concat] in Hconcat.
  now apply app_eq_nil in Hconcat as [-> _].
Qed.

Lemma parts_nil_iff (body : list body_element) (parts : list content_part) :
  parts_of body = Ok parts →
  parts = [] ↔ paragraph_texts body = [] ∧ table_markdowns body = [].
Proof.
  unfold parts_of. intros Hparts.
  destruct (walk walk_init body) as [st|] eqn:Hwalk;
    cbn [mbind result_bind] in Hparts; [|discriminate].
  injection Hparts as <-.
  destruct (walk_texts body walk_init st) as (Hall & groups & Htexts & Hconcat & Hgroups);
    [constructor | exact Hwalk |].
  destruct (walk_tables body walk_init st) as [Htables _]; [constructor | exact Hwalk |].
  cbn [walk_init content_parts current_section table_count contents_of
       List.filter map app] in Htexts, Hconcat, Htables.
  rewrite (add_remaining_text_flushed st Hall). split.
  - intros Hnil. apply app_eq_nil in Hnil as [Hparts Hflushed].
    rewrite Hparts in Htexts, Htables. cbn [contents_of List.filter map] in Htexts, Htables.
    symmetry in Htexts. apply map_eq_nil in Htexts. subst groups.
    unfold flushed in Hflushed.
    destruct (current_section st); [|discriminate]. split; [now symmetry|].
    destruct (table_markdowns body); [reflexivity | discriminate].
  - intros [Hno_text Hno_table]. rewrite Hno_text in Hconcat.
    apply app_eq_nil in Hconcat as [Hconcat Hcurrent].
    apply groups_nil in Hconcat; [|exact Hgroups]. subst groups.
    rewrite Hno_table in Htables. cbn [map captions] in Htexts, Htables.
    rewrite (contents_nil _ Htexts Htables). unfold flushed. now rewrite Hcurrent.
Qed.

(** X20: an extraction returns no section exactly when it raises or the
    body has neither a non-blank paragraph nor a table that is kept; so a
    readable document without content is reported like a failure by
    [load_document], which tests [if not docs]. *)
Theorem extraction_returns_nothing_iff (file_path : string)
    (opened : result (list body_element)) :
  extract_content_from_docx file_path opened = [] ↔
    extraction_raises opened ∨
    ∃ body, opened = Ok body ∧ paragraph_texts body = [] ∧ table_markdowns body = [].
Proof.
  rewrite extraction_parts. unfold extraction_raises, parts_of.
  destruct opened as [body|e]; cbn [mbind result_bind].
  2:{ split; [intros _; left; now exists e | reflexivity]. }
  destruct (walk walk_init body) as [st|e] eqn:Hwalk; cbn [mbind result_bind].
  2:{ split; [intros _; left; now exists e | reflexivity]. }
  assert (Hparts : parts_of body = Ok (add_remaining_text st))
    by (unfold parts_of; now rewrite Hwalk).
  rewrite <- length_zero_iff_nil, length_map, enumerate_from_length, length_zero_iff_nil.
  rewrite (parts_nil_iff body _ Hparts). split.
  - intros H. right. now exists body.
  - intros [[e He]|(body' & [= <-] & H)]; [discriminate | exact H].
Qed.

(** A body without content gives no section. *)
Lemma contentless_body (file_path : string) (body : list body_element) :
  paragraph_texts body = [] → table_markdowns body = [] →
  extract_content_from_docx file_path (Ok body) = [].
Proof.
  intros Hno_text Hno_table. rewrite extraction_parts. cbn [mbind result_bind].
  destruct (parts_of body) as [parts|] eqn:Hparts; [|reflexivity].
  now rewrite (proj2 (parts_nil_iff body parts Hparts) (conj Hno_text Hno_table)).
Qed.

End ExtractorMore.

(* ===================================================================== *)
(** ** More on [load_document] *)
(* ===================================================================== *)

Module LoaderMore.
Import Py DocxLoader LoadData Props MoreProps StringFacts Extractor ExtractorMore.

(** *** Paths *)

Lemma basename_from_append (a b acc : string) :
  basename_from (a +:+ b) acc = basename_from b (basename_from a acc).
Proof.
  revert acc. induction a as [|c a IH]; intros acc; [reflexivity|].
  rewrite append_cons. cbn [basename_from]. now destruct (Ascii.eqb c "/").
Qed.

Lemma basename_from_plain (name acc : string) :
  occurs "/" name = false → basename_from name acc = acc +:+ name.
Proof.
  revert acc. induction name as [|c name IH]; intros acc Hplain.
  - now rewrite append_nil_r.
  - cbn [occurs] in Hplain. apply orb_false_elim in Hplain as [Hc Hname].
    cbn [basename_from]. rewrite Hc, IH by exact Hname.
    now rewrite append_assoc.
Qed.

Lemma string_rev_append (a b : string) :
  string_rev (a +:+ b) = string_rev b +:+ string_rev a.
Proof.
  induction a as [|c a IH]; [now rewrite append_nil_r|].
  rewrite append_cons. cbn [string_rev]. now rewrite IH, append_assoc.
Qed.

Lemma string_rev_involutive (s : string) : string_rev (string_rev s) = s.
Proof.
  induction s as [|c s IH]; [reflexivity|].
  cbn [string_rev]. now rewrite string_rev_append, IH.
Qed.

Lemma endswith_slash (dir : string) :
  endswith dir "/" = true → ∃ parent, dir = parent +:+ "/".
Proof.
  unfold endswith. cbn [string_rev]. rewrite append_empty_l.
  destruct (string_rev dir) as [|c r] eqn:E; [discriminate|].
  cbn [String.prefix]. destruct (ascii_dec "/" c) as [<-|]; [|discriminate].
  intros _. exists (string_rev r).
  rewrite <- (string_rev_involutive dir), E. reflexivity.
Qed.

Lemma basename_path_join (dir name : string) :
  occurs "/" name = false → basename (path_join dir name) = name.
Proof.
  intros Hplain. unfold basename, path_join.
  destruct (dir =? "")%string; [now rewrite basename_from_plain|].
  destruct (endswith dir "/") eqn:Hslash.
  - apply endswith_slash in Hslash as [parent ->].
    rewrite !basename_from_append. cbn [basename_from Ascii.eqb Bool.eqb].
    now rewrite basename_from_plain.
  - rewrite !basename_from_append. cbn [basename_from Ascii.eqb Bool.eqb].
    now rewrite basename_from_plain.
Qed.

(** X21: [load_document] treats the files one by one, in the order of the
    listing: the sections of a listing in two parts are the sections of the
    first part followed by those of the second; a single file gives the
    sections of its extraction when its name ends in ".docx" (in any case)
    and does not begin with "~$", and nothing otherwise, whatever it
    holds; a missing directory gives nothing. *)
Theorem load_document_is_per_file (data_path : string) :
  (∀ entries1 entries2,
     load_document data_path (Some (entries1 ++ entries2)) =
       load_document data_path (Some entries1)
         ++ load_document data_path (Some entries2)) ∧
  (∀ name opened,
     load_document data_path (Some [(name, opened)]) =
       if is_docx_file name
       then extract_content_from_docx (path_join data_path name) opened
       else []) ∧
  load_document data_path None = [].
Proof.
  split; [|split; [|reflexivity]].
  - intros entries1 entries2. rewrite !load_document_concat.
    now rewrite List.filter_app, map_app, concat_app.
  - intros name opened. rewrite load_document_concat. cbn [List.filter fst].
    destruct (is_docx_file name); [|reflexivity].
    cbn [map concat fst snd]. now rewrite app_nil_r.
Qed.

(** X22: every section [load_document] returns comes from a file of the
    listing that passes the DOCX test, at some position of that file's
    extraction; with file names as [os.listdir] gives them (no slash), the
    section's [source] is that file name, whatever the directory path, and
    its [page] is the position. *)
Theorem loaded_section_names_its_file
    (data_path : string) (entries : list (string * result (list body_element)))
    (doc : Document)
    (Hnames : Forall (fun entry => occurs "/" (fst entry) = false) entries)
    (Hdoc : doc ∈ load_document data_path (Some entries)) :
  ∃ name opened (i : nat),
    (name, opened) ∈ entries ∧ is_docx_file name = true ∧
    extract_content_from_docx (path_join data_path name) opened !! i = Some doc ∧
    metadata doc !! "source" = Some (PStr name) ∧
    metadata doc !! "page" = Some (PInt (Z.of_nat i)).
Proof.
  rewrite load_document_concat in Hdoc.
  apply list_elem_of_In, in_concat in Hdoc as (docs & Hdocs & Hin).
  apply list_elem_of_In in Hin.
  apply in_map_iff in Hdocs as ([name opened] & <- & Hentry).
  apply filter_In in Hentry as [Hentry Hdocx].
  apply list_elem_of_In in Hentry. cbn [fst snd] in *.
  apply list_elem_of_lookup in Hin as [i Hi].
  exists name, opened, i. split; [exact Hentry|]. split; [exact Hdocx|].
  split; [exact Hi|].
  rewrite Forall_forall in Hnames. specialize (Hnames _ Hentry). cbn [fst] in Hnames.
  apply extraction_lookup in Hi as (body & parts & part & _ & _ & _ & _ & ->).
  rewrite (basename_path_join _ _ Hnames). cbn [make_document metadata].
  split; [apply lookup_insert_eq|].
  rewrite lookup_insert_ne by discriminate. apply lookup_insert_eq.
Qed.

(** A directory with a lock file and a document. *)
Lemma loaded_section_names_its_file_witness :
  ∃ doc name opened (i : nat),
    doc ∈ load_document "/kb"
            (Some [("~$a.docx", Ok body_of_one_paragraph);
                   ("a.docx", Ok body_of_one_paragraph)]) ∧
    (name, opened) ∈ [("~$a.docx", Ok body_of_one_paragraph);
                      ("a.docx", Ok body_of_one_paragraph)] ∧
    is_docx_file name = true ∧
    metadata doc !! "source" = Some (PStr name).
Proof.
  set (entries := [("~$a.docx", Ok body_of_one_paragraph);
                   ("a.docx", Ok body_of_one_paragraph)]).
  destruct (load_document "/kb" (Some entries)) as [|doc docs] eqn:Hload;
    [vm_compute in Hload; discriminate|].
  assert (Hdoc : doc ∈ load_document "/kb" (Some entries))
    by (rewrite Hload; now left).
  assert (Hnames : Forall (fun entry => occurs "/" (fst entry) = false) entries)
    by (repeat constructor).
  destruct (loaded_section_names_its_file "/kb" entries doc Hnames Hdoc)
    as (name & opened & i & Hentry & Hdocx & _ & Hsource & _).
  exists doc, name, opened, i. rewrite <- Hload. now repeat split.
Defined.

End LoaderMore.

(* ===================================================================== *)
(** ** The script as a whole *)
(* ===================================================================== *)

Module MainProps.
Import Py DocxLoader LoadData Props MoreProps StringFacts Extractor Normalizer.
Import NormalizerMore StorePrep IdAssigner StoreWriter StoreWriterMore.
Import ExtractorMore LoaderMore.

(** What [split_documents] of LangChain does with the metadata
    ([add_start_index=True]): every chunk carries a copy of the metadata
    of the document it is cut from, with its offset added as
    [start_index]. *)
Definition copies_metadata
    (split_documents : Z → Z → list string → list Document → list Document) : Prop :=
  ∀ size overlap separators documents chunk,
    chunk ∈ split_documents size overlap separators documents →
    ∃ doc start,
      doc ∈ documents ∧
      metadata chunk = <["start_index" := PInt start]> (metadata doc).

(** A splitter that cuts nothing: one chunk per document, at offset 0. *)
Definition one_chunk_each : Z → Z → list string → list Document → list Document :=
  fun _ _ _ documents =>
    map (fun doc => with_metadata doc (<["start_index" := PInt 0]> (metadata doc)))
        documents.

(** A file of the listing that gives no section: it is not taken for a
    DOCX file, or its extraction raises, or its body has no content. *)
Definition contentless (entry : string * result (list body_element)) : Prop :=
  is_docx_file (fst entry) = false ∨
  extraction_raises (snd entry) ∨
  ∃ body, snd entry = Ok body ∧ paragraph_texts body = [] ∧ table_markdowns body = [].

(** A listing none of whose files gives a section, or no directory. *)
Definition nothing_to_load
    (listing : option (list (string * result (list body_element)))) : Prop :=
  match listing with
  | None => True
  | Some entries => Forall contentless entries
  end.

Lemma nothing_loaded (data_path : string)
    (listing : option (list (string * result (list body_element)))) :
  nothing_to_load listing → load_document data_path listing = [].
Proof.
  destruct listing as [entries|]; [|reflexivity]. cbn [nothing_to_load].
  intros Hall. rewrite load_document_concat.
  induction Hall as [|[name opened] entries Hentry _ IH]; [reflexivity|].
  cbn [List.filter fst]. destruct (is_docx_file name) eqn:Hdocx; [|exact IH].
  cbn [map concat fst snd]. rewrite IH, app_nil_r.
  destruct Hentry as [Hno|[Hraises|(body & Hbody & Hno_text & Hno_table)]];
    cbn [fst snd] in *.
  - congruence.
  - now apply extraction_raises_empty.
  - subst opened. now apply contentless_body.
Qed.

(** X23: when the directory is missing or none of its files gives a
    section, [main] writes nothing to the store and creates no index; with
    [--reset], the index that was there is deleted all the same. *)
Theorem main_without_content
    (split_documents : Z → Z → list string → list Document → list Document)
    (reset : bool) (data_path : string)
    (listing : option (list (string * result (list body_element))))
    (db : option (gmap string Document))
    (Hnothing : nothing_to_load listing) :
  main split_documents reset data_path listing db =
    Ok (if reset then None else db, []).
Proof.
  unfold main. rewrite (nothing_loaded data_path listing Hnothing).
  unfold clear_database. now destruct reset, db.
Qed.

(** A text file and a document that cannot be read, with [--reset]. *)
Lemma main_without_content_witness :
  main one_chunk_each true "/kb"
    (Some [("notes.txt", Ok body_of_one_paragraph);
           ("b.docx", Ok body_with_bad_paragraph)])
    (Some {["a.docx:docx:page_0:chunk_0" := mkDocument "old" ∅]})
  = Ok (None, []).
Proof.
  apply (main_without_content one_chunk_each true). cbn [nothing_to_load].
  constructor; [left; reflexivity|].
  constructor; [|constructor].
  right. left. eexists. vm_compute. reflexivity.
Defined.

(** *** From the documents to the index *)

Lemma split_text_elem
    (split_documents : Z → Z → list string → list Document → list Document)
    (documents : list Document) (chunk : Document) :
  chunk ∈ split_text split_documents documents →
  ∃ size overlap separators selected,
    chunk ∈ split_documents size overlap separators selected ∧
    ∀ doc, doc ∈ selected → doc ∈ documents.
Proof.
  unfold split_text.
  set (tables := List.filter has_table_flag documents).
  set (regular := List.filter (fun doc => negb (has_table_flag doc)) documents).
  assert (Htables : ∀ doc, doc ∈ tables → doc ∈ documents).
  { intros doc Hin. apply list_elem_of_In, filter_In in Hin as [Hin _].
    now apply list_elem_of_In. }
  assert (Hregular : ∀ doc, doc ∈ regular → doc ∈ documents).
  { intros doc Hin. apply list_elem_of_In, filter_In in Hin as [Hin _].
    now apply list_elem_of_In. }
  clearbody tables regular.
  destruct regular as [|r regular], tables as [|t tables]; cbn [app].
  - intros Hin. now apply elem_of_nil in Hin.
  - intros Hin. eauto 10.
  - intros Hin. eauto 10.
  - intros Hin. apply elem_of_app in Hin as [Hin|Hin]; eauto 10.
Qed.

Lemma loaded_is_made (data_path : string)
    (listing : option (list (string * result (list body_element)))) (doc : Document) :
  doc ∈ load_document data_path listing →
  ∃ filename total i part, doc = make_document filename total i part.
Proof.
  destruct listing as [entries|]; [|intros Hin; now apply elem_of_nil in Hin].
  rewrite load_document_concat. intros Hdoc.
  apply list_elem_of_In, in_concat in Hdoc as (docs & Hdocs & Hin).
  apply in_map_iff in Hdocs as ([name opened] & <- & _).
  apply list_elem_of_In, list_elem_of_lookup in Hin as [i Hi].
  apply extraction_lookup in Hi as (body & parts & part & _ & _ & _ & _ & ->).
  eauto.
Qed.

(** The metadata [save_to_chroma] sorts for a chunk that went through the
    cleaning loop of [main]. *)
Lemma main_path_lookup (chunk : Document) (key : string) :
  metadata (prepared (with_metadata chunk (cleaned (metadata chunk)))) !! key =
    match metadata chunk !! key with
    | Some value =>
        if decide (key ∈ keep_keys) then
          if is_none value then None else Some (cleaned_value value)
        else None
    | None => None
    end.
Proof.
  unfold prepared. cbn [metadata with_metadata]. rewrite prepared_cleaned.
  unfold without_none. rewrite map_lookup_filter, cleaned_lookup.
  destruct (decide (key ∈ keep_keys)); [|now destruct (metadata chunk !! key)].
  destruct (metadata chunk !! key) as [[]|]; reflexivity.
Qed.

Lemma pairwise_all {A} (test : A → A → bool) (l : list A) :
  (∀ a b, a ∈ l → b ∈ l → test a b = true) →
  forallb (fun a => forallb (fun b => test a b) l) l = true.
Proof.
  intros H. apply forallb_forall. intros a Ha. apply forallb_forall. intros b Hb.
  apply H; now apply list_elem_of_In.
Qed.


(** What [save_to_chroma] sorts for a chunk of a loaded document. *)
Lemma loaded_chunk_prepared (chunk : Document) (filename : string)
    (total i start : Z) (part : content_part) :
  metadata chunk =
    <["start_index" := PInt start]> (metadata (make_document filename total i part)) →
  let md := metadata (prepared (with_metadata chunk (cleaned (metadata chunk)))) in
  md !! "source" = Some (PStr filename) ∧
  md !! "page" = Some (PInt i) ∧
  md !! "file_type" = Some (PStr "docx") ∧
  md !! "used_ocr" = None.
Proof.
  intros Hmd. cbn zeta. rewrite !main_path_lookup, Hmd.
  cbn [make_document metadata].
  repeat (rewrite lookup_insert_ne by discriminate; rewrite ?lookup_insert_eq).
  rewrite lookup_empty.
  rewrite !decide_True by (unfold keep_keys; member).
  now repeat split.
Qed.

(** [main] without the cleaning loop, which cannot fail. *)
Lemma main_steps
    (split_documents : Z → Z → list string → list Document → list Document)
    (reset : bool) (data_path : string)
    (listing : option (list (string * result (list body_element))))
    (db : option (gmap string Document)) :
  main split_documents reset data_path listing db =
    match load_document data_path listing with
    | [] => Ok (if reset then clear_database db else db, [])
    | _ :: _ =>
        saved ← save_to_chroma
                  (map (fun chunk => with_metadata chunk (cleaned (metadata chunk)))
                       (split_text split_documents (load_document data_path listing)))
                  (if reset then clear_database db else db);
        Ok (Some (fst saved), snd saved)
    end.
Proof.
  unfold main. destruct (load_document data_path listing) as [|doc documents];
    [reflexivity|].
  pose proof (clean_all_ok (split_text split_documents (doc :: documents))) as Hclean.
  unfold clean_all in Hclean. now rewrite Hclean.
Qed.

(** X24: with a splitter that copies the metadata of the documents, a run
    of [main] that finds documents and starts from no index (there is
    none, or [--reset] has removed it) never raises: it creates the index
    with one call, the IDs it assigns are pairwise distinct, and the index
    has one entry for every chunk the splitter returns. *)
Theorem main_builds_one_entry_per_chunk
    (split_documents : Z → Z → list string → list Document → list Document)
    (reset : bool) (data_path : string)
    (listing : option (list (string * result (list body_element))))
    (db : option (gmap string Document))
    (Hsplit : copies_metadata split_documents)
    (Hfresh : reset = true ∨ db = None)
    (Hfound : load_document data_path listing ≠ []) :
  ∃ db' with_ids,
    main split_documents reset data_path listing db =
      Ok (Some db', [from_documents with_ids (map id_text with_ids)]) ∧
    NoDup (map id_text with_ids) ∧
    size db' = length (split_text split_documents (load_document data_path listing)).
Proof.
  set (documents := load_document data_path listing) in *.
  set (chunks := split_text split_documents documents).
  set (cleaned_chunks :=
         map (fun chunk => with_metadata chunk (cleaned (metadata chunk))) chunks).
  assert (Hshape : ∀ ready, ready ∈ map prepared cleaned_chunks →
            metadata ready !! "source" ≠ None ∧
            id_typed ready = true ∧ ftype (metadata ready) = "docx" ∧
            ocr (metadata ready) = false).
  { intros ready Hready.
    apply list_elem_of_fmap in Hready as (cleaned_chunk & -> & Hin).
    apply list_elem_of_fmap in Hin as (chunk & -> & Hin).
    apply split_text_elem in Hin as (size & overlap & separators & selected & Hin & Hsel).
    apply Hsplit in Hin as (doc & start & Hdoc & Hmd).
    apply Hsel, loaded_is_made in Hdoc as (filename & total & i & part & ->).
    destruct (loaded_chunk_prepared chunk filename total i start part Hmd)
      as (Hsource & Hpage & Hfile_type & Hused_ocr).
    unfold id_typed, ftype, ocr, get.
    rewrite Hsource, Hpage, Hfile_type, Hused_ocr. now repeat split. }
  destruct (sorted_typed_chunks cleaned_chunks) as (sorted & Hsorted_by & Hperm & Hgrouped).
  { apply forallb_forall. intros ready Hready. now apply Hshape, list_elem_of_In. }
  { apply pairwise_all. intros a b Ha Hb. apply String.eqb_eq.
    destruct (Hshape a Ha) as (_ & _ & -> & _), (Hshape b Hb) as (_ & _ & -> & _).
    reflexivity. }
  { apply pairwise_all. intros a b Ha Hb.
    destruct (Hshape a Ha) as (_ & _ & _ & ->), (Hshape b Hb) as (_ & _ & _ & ->).
    now destruct (same_section a b). }
  destruct (fresh_index_of_grouped cleaned_chunks sorted Hsorted_by Hperm Hgrouped)
    as (db' & with_ids & Hsave & Hnodup & _ & Hsize).
  exists db', with_ids. split; [|split; [exact Hnodup|]].
  - rewrite main_steps. fold documents. fold chunks. fold cleaned_chunks.
    replace (if reset then clear_database db else db) with (@None (gmap string Document))
      by (destruct Hfresh as [->| ->]; [now destruct db | now destruct reset]).
    rewrite Hsave. cbn [mbind result_bind fst snd].
    destruct documents; [congruence | reflexivity].
  - rewrite Hsize. unfold cleaned_chunks. now rewrite length_map.
Qed.

Lemma one_chunk_each_copies_metadata : copies_metadata one_chunk_each.
Proof.
  intros size overlap separators documents chunk Hin.
  apply list_elem_of_fmap in Hin as (doc & -> & Hin).
  now exists doc, 0.
Qed.

(** A first run over a directory with one document of two sections. *)
Lemma main_builds_one_entry_per_chunk_witness :
  ∃ db' with_ids,
    main one_chunk_each false "/kb" (Some [("a.docx", Ok body_with_short_table)]) None =
      Ok (Some db', [from_documents with_ids (map id_text with_ids)]) ∧
    NoDup (map id_text with_ids) ∧
    size db' = 2%nat.
Proof.
  destruct (main_builds_one_entry_per_chunk one_chunk_each false "/kb"
              (Some [("a.docx", Ok body_with_short_table)]) None
              one_chunk_each_copies_metadata (or_intror eq_refl))
    as (db' & with_ids & Hmain & Hnodup & Hsize).
  - vm_compute. discriminate.
  - exists db', with_ids. split; [exact Hmain|]. split; [exact Hnodup|].
    rewrite Hsize. vm_compute. reflexivity.
Defined.

End MainProps.
